(** * structsync: the definition synchronisation pipeline

    A shallow embedding of the tool under [structsync/]: the declaration
    parser's field extraction ([parser.go]), the field transformer
    ([transform.go]), the diff engine ([diff.go]), the field builder
    ([writer.go], [config.go]) and the per-run orchestration ([main.go]).

    Go strings are byte strings and are modelled by [string] (a list of
    8-bit characters); Go maps keyed by strings are [gmap string _] and are
    only ever used for lookups, as in the source. *)

From stdpp Require Import gmap strings list fin_maps.
From Stdlib Require Import Ascii.
From Stdlib Require String.

Local Open Scope char_scope.
Local Open Scope stdpp_scope.

(** ** The functions of Go's [strings] package that the tool calls *)

Module GoStrings.

(** [s[n:]] *)
Fixpoint slice_from (n : nat) (s : string) : string :=
  match n, s with
  | O, _ => s
  | S _, EmptyString => EmptyString
  | S n', String _ s' => slice_from n' s'
  end.

(** [s[:n]] *)
Fixpoint slice_to (n : nat) (s : string) : string :=
  match n, s with
  | O, _ => EmptyString
  | S _, EmptyString => EmptyString
  | S n', String c s' => String c (slice_to n' s')
  end.

Fixpoint rev_string (s : string) : string :=
  match s with
  | EmptyString => EmptyString
  | String c s' => rev_string s' +:+ String c EmptyString
  end.

Definition HasPrefix (s prefix : string) : bool := String.prefix prefix s.

Definition TrimPrefix (s prefix : string) : string :=
  if HasPrefix s prefix then slice_from (String.length prefix) s else s.

(** [strings.Index]: the byte offset of the first occurrence of [substr],
    [None] standing for the result [-1]. *)
Fixpoint Index (s substr : string) : option nat :=
  if String.prefix substr s then Some O
  else match s with
       | EmptyString => None
       | String _ s' => S <$> Index s' substr
       end.

Definition Contains (s substr : string) : bool :=
  bool_decide (is_Some (Index s substr)).

(** [strings.TrimLeft] and [strings.TrimRight] with a cutset of one ASCII
    character. *)
Fixpoint TrimLeft (s : string) (c : ascii) : string :=
  match s with
  | EmptyString => EmptyString
  | String a s' => if Ascii.eqb a c then TrimLeft s' c else s
  end.

Definition TrimRight (s : string) (c : ascii) : string :=
  rev_string (TrimLeft (rev_string s) c).

Definition Trim (s : string) (c : ascii) : string :=
  TrimRight (TrimLeft s c) c.

(** The UTF-8 encodings of the code points for which [unicode.IsSpace]
    holds: the six ASCII ones, U+0085, U+00A0, U+1680, U+2000..U+200A,
    U+2028, U+2029, U+202F, U+205F and U+3000. *)
Definition bytes (l : list nat) : string :=
  String.string_of_list_ascii (ascii_of_nat <$> l).

Definition space_runes : list string :=
  bytes <$> [ [9]; [10]; [11]; [12]; [13]; [32];
              [194; 133]; [194; 160]; [225; 154; 128];
              [226; 128; 128]; [226; 128; 129]; [226; 128; 130];
              [226; 128; 131]; [226; 128; 132]; [226; 128; 133];
              [226; 128; 134]; [226; 128; 135]; [226; 128; 136];
              [226; 128; 137]; [226; 128; 138];
              [226; 128; 168]; [226; 128; 169]; [226; 128; 175];
              [226; 129; 159]; [227; 128; 128] ].

(** Removes one leading white space rune, if there is one. *)
Fixpoint strip_rune (runes : list string) (s : string) : option string :=
  match runes with
  | [] => None
  | r :: runes' =>
      if String.prefix r s then Some (slice_from (String.length r) s)
      else strip_rune runes' s
  end.

Fixpoint trim_left_runes (fuel : nat) (runes : list string) (s : string)
  : string :=
  match fuel with
  | O => s
  | S fuel' =>
      match strip_rune runes s with
      | Some s' => trim_left_runes fuel' runes s'
      | None => s
      end
  end.

Definition TrimLeftSpace (s : string) : string :=
  trim_left_runes (String.length s) space_runes s.

(** From the end, a white space rune is recognised by its bytes read
    backwards: UTF-8 is self-synchronising. *)
Definition TrimRightSpace (s : string) : string :=
  rev_string (trim_left_runes (String.length s) (rev_string <$> space_runes) (rev_string s)).

(** [strings.TrimSpace] *)
Definition TrimSpace (s : string) : string :=
  TrimRightSpace (TrimLeftSpace s).

(** [strings.Split(s, sep)] for a separator of one byte; the result is
    never empty. *)
Fixpoint Split (s : string) (sep : ascii) : list string :=
  match s with
  | EmptyString => [EmptyString]
  | String c s' =>
      if Ascii.eqb c sep then EmptyString :: Split s' sep
      else match Split s' sep with
           | [] => [String c EmptyString]
           | w :: ws => String c w :: ws
           end
  end.

(** [strings.Join] *)
Fixpoint Join (elems : list string) (sep : string) : string :=
  match elems with
  | [] => EmptyString
  | [e] => e
  | e :: elems' => e +:+ sep +:+ Join elems' sep
  end.

End GoStrings.

Import GoStrings.

(** ** The decorated syntax tree ([github.com/dave/dst])

    Only what the tool reads and builds: type expressions and struct
    fields with their decorations.  [NilExpr] is the nil value of the
    interface type [dst.Expr]. *)

Inductive SpaceType := SpaceNone | NewLine | EmptyLine.

Inductive Expr :=
| NilExpr
| Ident (Name : string)
| StarExpr (X : Expr)
| SelectorExpr (X : Expr) (Sel : string)
| ArrayType (Len : Expr) (Elt : Expr)
| MapType (Key : Expr) (Value : Expr)
| InterfaceType (Methods : list Field)
| StructType (Fields : list Field)
| FuncType (Params : list Field) (Results : list Field)
| ChanType (Value : Expr)
| Ellipsis (Elt : Expr)
| ParenExpr (X : Expr)
| IndexExpr (X : Expr) (Index : Expr)
| BasicLit (Value : string)
with Field :=
| mkField (Names : list string) (Typ : Expr) (Tag : option string)
          (Before : SpaceType) (Start : list string).

Definition Field_Names (f : Field) : list string :=
  let 'mkField ns _ _ _ _ := f in ns.
Definition Field_Type (f : Field) : Expr :=
  let 'mkField _ t _ _ _ := f in t.
Definition Field_Tag (f : Field) : option string :=
  let 'mkField _ _ t _ _ := f in t.
Definition Field_Before (f : Field) : SpaceType :=
  let 'mkField _ _ _ b _ := f in b.
Definition Field_Start (f : Field) : list string :=
  let 'mkField _ _ _ _ c := f in c.

(** ** parser.go *)

(** [ParsedField]; the back pointer [Node] to the syntax node is not read
    by any function below and is left out. *)
Record ParsedField := {
  Name : string;
  Type_ : string;
  TypeExpr : Expr;
  Tags : string;
  Comments : list string;
  IsEmbedded : bool
}.

Record ParsedStruct := {
  StructName : string;
  Fields : list ParsedField;
  StructComments : list string
}.

(** Declarations of a file, as far as the tool looks at them. *)
Inductive Token := IMPORT | CONST | TYPE | VAR.

Inductive Spec :=
| TypeSpec (Name : string) (Typ : Expr)
| ImportSpec
| ValueSpec.

Inductive Decl :=
| GenDecl (Tok : Token) (Start : list string) (Specs : list Spec)
| FuncDecl
| BadDecl.

(** [ParsedFile]: the path and the tree; the file set and the bytes read
    are not used after parsing. *)
Record ParsedFile := {
  Path : string;
  File : list Decl
}.

(** A Go result with an [error]. *)
Inductive result (A : Type) :=
| Ok (a : A)
| Err (msg : string).
Arguments Ok {A} a.
Arguments Err {A} msg.

(** [fmt.Sprintf("%T", expr)]: the name of the dynamic type of the node. *)
Definition Sprintf_T (expr : Expr) : string :=
  match expr with
  | NilExpr => "<nil>"
  | Ident _ => "*dst.Ident"
  | StarExpr _ => "*dst.StarExpr"
  | SelectorExpr _ _ => "*dst.SelectorExpr"
  | ArrayType _ _ => "*dst.ArrayType"
  | MapType _ _ => "*dst.MapType"
  | InterfaceType _ => "*dst.InterfaceType"
  | StructType _ => "*dst.StructType"
  | FuncType _ _ => "*dst.FuncType"
  | ChanType _ => "*dst.ChanType"
  | Ellipsis _ => "*dst.Ellipsis"
  | ParenExpr _ => "*dst.ParenExpr"
  | IndexExpr _ _ => "*dst.IndexExpr"
  | BasicLit _ => "*dst.BasicLit"
  end.

Fixpoint exprToString (expr : Expr) : string :=
  match expr with
  | Ident name => name
  | StarExpr x => "*" +:+ exprToString x
  | SelectorExpr x sel => exprToString x +:+ "." +:+ sel
  | ArrayType len elt =>
      match len with
      | NilExpr => "[]" +:+ exprToString elt
      | _ => "[...]" +:+ exprToString elt
      end
  | MapType key value =>
      "map[" +:+ exprToString key +:+ "]" +:+ exprToString value
  | InterfaceType _ => "interface{}"
  | StructType _ => "struct{}"
  | _ => Sprintf_T expr
  end.

Definition extractField (field : Field) : list ParsedField :=
  let tagValue := default "" (Field_Tag field) in
  let comments := Field_Start field in
  let typeStr := exprToString (Field_Type field) in
  match Field_Names field with
  | [] =>
      [ {| Name := typeStr; Type_ := typeStr; TypeExpr := Field_Type field;
           Tags := tagValue; Comments := comments; IsEmbedded := true |} ]
  | names =>
      (fun name =>
         {| Name := name; Type_ := typeStr; TypeExpr := Field_Type field;
            Tags := tagValue; Comments := comments; IsEmbedded := false |})
        <$> names
  end.

(** The field loop of [ExtractStruct]. *)
Definition extractFields (fieldList : list Field) : list ParsedField :=
  foldl (fun fields field => fields ++ extractField field) [] fieldList.

(** The loop of [ExtractStruct] over the specs of one declaration; [None]
    when no spec has the name. *)
Fixpoint ExtractStruct_specs (start : list string) (specs : list Spec)
    (name : string) : option (result ParsedStruct) :=
  match specs with
  | [] => None
  | TypeSpec n t :: specs' =>
      if negb (String.eqb n name) then ExtractStruct_specs start specs' name
      else
        match t with
        | StructType fields =>
            Some (Ok {| StructName := name; Fields := extractFields fields;
                        StructComments := start |})
        | _ => Some (Err (name +:+ " is not a struct type"))
        end
  | _ :: specs' => ExtractStruct_specs start specs' name
  end.

Fixpoint ExtractStruct_decls (decls : list Decl) (name : string)
  : option (result ParsedStruct) :=
  match decls with
  | [] => None
  | GenDecl TYPE start specs :: decls' =>
      match ExtractStruct_specs start specs name with
      | Some r => Some r
      | None => ExtractStruct_decls decls' name
      end
  | _ :: decls' => ExtractStruct_decls decls' name
  end.

Definition ExtractStruct (pf : ParsedFile) (name : string)
  : result ParsedStruct :=
  match ExtractStruct_decls (File pf) name with
  | Some r => r
  | None => Err ((("struct " +:+ name) +:+ " not found in ") +:+ Path pf)
  end.

(** [IsCommentedField] *)
Definition IsCommentedField (comment : string) : option string :=
  let comment := TrimSpace comment in
  if negb (HasPrefix comment "//") then None
  else
    let content := TrimSpace (TrimPrefix comment "//") in
    let lower :=
      match content with
      | String c _ => (97 <=? nat_of_ascii c)%nat && (nat_of_ascii c <=? 122)%nat
      | EmptyString => false
      end in
    if HasPrefix content "*" || lower then
      if Contains content "." || HasPrefix content "*" then Some content
      else None
    else None.

(** ** config.go *)

Record TransformOpts := {
  RemoveTags : list string;
  ExcludeEmbedded : list string;
  TypeMappings : gmap string string
}.

Record MergeOptions := {
  MarkDeprecated : bool;
  DeprecationMessage : string;
  PruneDeprecated : bool;
  MergeRemoveTags : list string
}.

Fixpoint cloneExpr (expr : Expr) : Expr :=
  match expr with
  | NilExpr => NilExpr
  | Ident name => Ident name
  | StarExpr x => StarExpr (cloneExpr x)
  | SelectorExpr x sel => SelectorExpr (cloneExpr x) sel
  | ArrayType len elt => ArrayType len (cloneExpr elt)
  | MapType key value => MapType (cloneExpr key) (cloneExpr value)
  | InterfaceType _ => InterfaceType []
  | StructType _ => StructType []
  | _ => expr
  end.

(** ** The struct tag parser ([github.com/fatih/structtag] v1.2.0)

    The library's [Parse] scans [key:"value"] pairs separated by spaces, as
    [reflect.StructTag] does, and unquotes each value with
    [strconv.Unquote]; [String] prints each pair with [%q], that is with
    [strconv.Quote].  The two [strconv] functions are parameters of the
    development. *)

Module structtag.

Record Tag := { Key : string; Name : string; Options : list string }.

(** What [Parse] returns: an error, or a pointer to [Tags] that is nil when a non
    empty input holds no pair at all (an input made of spaces). *)
Inductive ParseResult :=
| ParseError
| ParseNil
| ParseOk (tags : list Tag).

Definition dquote : ascii := "034".
Definition backslash : ascii := "092".

(** A byte of a key: above the space, and none of [:], the double quote
    and DEL. *)
Definition key_byte (c : ascii) : bool :=
  let n := nat_of_ascii c in
  (32 <? n)%nat && negb (n =? 58)%nat && negb (n =? 34)%nat
    && negb (n =? 127)%nat.

Fixpoint scan_key (tag : string) : string * string :=
  match tag with
  | EmptyString => (EmptyString, EmptyString)
  | String c tag' =>
      if key_byte c then
        let '(key, rest) := scan_key tag' in (String c key, rest)
      else (EmptyString, tag)
  end.

(** Scans the inside of a quoted value up to its closing quote, a
    backslash skipping the byte after it: the text before the closing
    quote and the text after it, or [None] when the string ends first. *)
Fixpoint scan_quoted (tag : string) : option (string * string) :=
  match tag with
  | EmptyString => None
  | String c tag' =>
      if Ascii.eqb c dquote then Some (EmptyString, tag')
      else if Ascii.eqb c backslash then
        match tag' with
        | EmptyString => None
        | String d tag'' =>
            '(v, rest) ← scan_quoted tag'';
            Some (String c (String d v), rest)
        end
      else
        '(v, rest) ← scan_quoted tag';
        Some (String c v, rest)
  end.

Section Parse.
Variable Unquote : string → option string.

(** The loop of [Parse]; [None] is the error result.  Each round
    consumes at least one byte, so [String.length tag] rounds are
    enough. *)
Fixpoint parse_loop (fuel : nat) (tag : string) (tags : list Tag)
  : option (list Tag) :=
  match fuel with
  | O => Some tags
  | S fuel' =>
      let tag := TrimLeft tag " " in
      if String.eqb tag EmptyString then Some tags
      else
        let '(key, rest) := scan_key tag in
        if String.eqb key EmptyString then None
        else
          match rest with
          | String ":" (String q rest') =>
              if Ascii.eqb q dquote then
                '(v, tag') ← scan_quoted rest';
                value ← Unquote (String dquote v +:+ String dquote EmptyString);
                match Split value "," with
                | [] => None
                | name :: options =>
                    parse_loop fuel' tag'
                      (tags ++ [ {| Key := key; Name := name;
                                    Options := options |} ])
                end
              else None
          | _ => None
          end
  end.

Definition Parse (tag : string) : ParseResult :=
  let hasTag := negb (String.eqb tag EmptyString) in
  match parse_loop (String.length tag) tag [] with
  | None => ParseError
  | Some tags =>
      if hasTag && (length tags =? 0)%nat then ParseNil else ParseOk tags
  end.
End Parse.

(** [Tags.Get]; [None] is the error [errTagNotExist]. *)
Fixpoint Get (tags : list Tag) (key : string) : option Tag :=
  match tags with
  | [] => None
  | tag :: tags' => if String.eqb (Key tag) key then Some tag else Get tags' key
  end.

(** [Tags.Set]: a tag whose key is present replaces every tag of that
    key in place, another one is appended; an empty key is refused. *)
Definition Set_ (tags : list Tag) (tag : Tag) : list Tag :=
  if String.eqb (Key tag) EmptyString then tags
  else if existsb (fun tg => String.eqb (Key tg) (Key tag)) tags then
    (fun tg => if String.eqb (Key tg) (Key tag) then tag else tg) <$> tags
  else tags ++ [tag].

(** [Tag.Value] *)
Definition Value (t : Tag) : string :=
  let options := Join (Options t) "," in
  if negb (String.eqb options EmptyString) then Name t +:+ "," +:+ options
  else Name t.

Section String.
Variable Quote : string → string.

(** [Tag.String]: [fmt.Sprintf] of the key, a colon and the quoted
    value. *)
Definition Tag_String (t : Tag) : string :=
  Key t +:+ ":" +:+ Quote (Value t).

(** [Tags.String] *)
Definition String_ (tags : list Tag) : string :=
  Join (Tag_String <$> tags) " ".
End String.

End structtag.

(** ** transform.go *)

Record TransformedField := {
  Parsed :> ParsedField;
  NewTags : string;
  NewType : string;
  ShouldExclude : bool
}.

(** The counter [ModifiedTags] counts fields held in memory, so Go's [int]
    never wraps on it. *)
Record TransformResult := {
  ResultFields : list TransformedField;
  ExcludedFields : list string;
  ModifiedTags : nat
}.

(** A Go [map[string]bool] built by setting each listed key to true, and
    its lookup, false for an absent key. *)
Definition make_set (keys : list string) : gmap string bool :=
  foldl (fun m t => <[t := true]> m) ∅ keys.

Definition in_set (m : gmap string bool) (key : string) : bool :=
  default false (m !! key).

(** ** The records of diff.go and writer.go *)

Inductive DiffType := DiffUnchanged | DiffAdded | DiffRemoved | DiffModified.

Record DiffLine := { LineType : DiffType; Content : string }.

Record DiffResult := {
  DiffStructName : string;
  HasChanges : bool;
  Lines : list DiffLine
}.

Record SummaryStats := {
  TotalStructs : nat;
  ChangedStructs : nat;
  NewFields : nat;
  RemovedFields : nat;
  StatsModifiedTags : nat;
  StatsExcludedFields : nat
}.

Record BuildResult := { BuildFields : list Field }.

(** [MergeResult] (config.go): the keys of the fields, by what the merge
    found for each.  The first two fields are [NewFields] and
    [RemovedFields] in the source; the statistics above have fields of
    the same names. *)
Record MergeResult := {
  MergeNewFields : list string;
  MergeRemovedFields : list string;
  ModifiedFields : list string;
  UnchangedFields : list string;
  DeprecatedFields : list string
}.

(** [SourceDef] (config.go): a repository, a directory in it and a
    branch or tag. *)
Record SourceDef := {
  Repo : string;
  SourceDef_Path : string;
  Ref : string
}.

(** The end of a line. *)
Definition newline : string := String "010" EmptyString.

(** The colour sequences of [FormatColorDiff]; each starts with the
    escape byte. *)
Definition escape : ascii := "027".
Definition colorReset : string := String escape "[0m".
Definition colorRed : string := String escape "[31m".
Definition colorGreen : string := String escape "[32m".
Definition colorYellow : string := String escape "[33m".
Definition colorCyan : string := String escape "[36m".

(** ** Sample declarations

    Small inputs on which the statements below are evaluated. *)

Definition dq : string := String structtag.dquote EmptyString.

(** [quoted s] is [s] between double quotes and [raw s] is [s] between back
    quotes, as a tag stands in a source file. *)
Definition quoted (s : string) : string := dq +:+ s +:+ dq.
Definition raw (s : string) : string := "`" +:+ s +:+ "`".

(** [strconv.Unquote] and [strconv.Quote] on the strings without escape
    sequences: the text between the quotes. *)
Definition sample_Unquote (s : string) : option string :=
  match s with
  | String q s' =>
      if Ascii.eqb q structtag.dquote
      then Some (rev_string (slice_from 1 (rev_string s')))
      else None
  | EmptyString => None
  end.

Definition sample_Quote (s : string) : string := quoted s.

(** One order in which a map can be visited. *)
Definition sample_rangeKeys (m : gmap string bool) : list string :=
  (map_to_list m).*1.

Definition sample_Join (dir file : string) : string := dir +:+ "/" +:+ file.

Definition named_node (name : string) (type : Expr) (tag : string)
    (comments : list string) : Field :=
  mkField [name] type
    (if String.eqb tag EmptyString then None else Some tag) SpaceNone comments.

Definition embedded_node (type : Expr) (tag : string) : Field :=
  mkField [] type (if String.eqb tag EmptyString then None else Some tag)
    SpaceNone [].

Definition named_field (name : string) (type : Expr) (tags : string)
    (comments : list string) : ParsedField :=
  {| Name := name; Type_ := exprToString type; TypeExpr := type; Tags := tags;
     Comments := comments; IsEmbedded := false |}.

Definition embedded_field (type : Expr) (tags : string) : ParsedField :=
  {| Name := exprToString type; Type_ := exprToString type; TypeExpr := type;
     Tags := tags; Comments := []; IsEmbedded := true |}.

Definition unchanged_field (f : ParsedField) : TransformedField :=
  {| Parsed := f; NewTags := Tags f; NewType := Type_ f;
     ShouldExclude := false |}.

(** Upstream fields [A], [B], [C] against a target that holds [B] alone,
    with another type. *)
Definition sample_upstream_ABC : TransformResult :=
  {| ResultFields := [ unchanged_field (named_field "A" (Ident "int") "" []);
                       unchanged_field (named_field "B" (Ident "string") "" []);
                       unchanged_field (named_field "C" (Ident "bool") "" []) ];
     ExcludedFields := []; ModifiedTags := 0 |}.

Definition sample_target_B : ParsedStruct :=
  {| StructName := "T"; Fields := [ named_field "B" (Ident "int") "" [] ];
     StructComments := [] |}.

(** A target field that upstream does not have, under a comment that is a
    sentence. *)
Definition sample_prose_field : ParsedField :=
  named_field "Legacy" (Ident "string") ""
    ["// Kept for old clients. Do not use"].

(** The options of the tool's own configuration file. *)
Definition sample_opts : TransformOpts :=
  {| RemoveTags := ["xorm"];
     ExcludeEmbedded := ["*xormadapter.Adapter"; "*casbin.Enforcer"];
     TypeMappings := {[ "pp.PaymentState" := "string" ]} |}.

Definition PaymentState : Expr := SelectorExpr (Ident "pp") "PaymentState".
Definition xormAdapter : Expr :=
  StarExpr (SelectorExpr (Ident "xormadapter") "Adapter").

Definition tag_pk (json : string) : string :=
  raw ("xorm:" +:+ quoted "varchar(100) notnull pk" +:+ " json:" +:+ quoted json).
Definition tag_json (json : string) : string := raw ("json:" +:+ quoted json).
Definition tag_skip : string :=
  raw ("xorm:" +:+ quoted "-" +:+ " json:" +:+ quoted "-").

(** An upstream declaration: two key columns, a field of a mapped type and
    one of a pointer to it, a field that both directives skip, and an
    embedded adapter. *)
Definition sample_upstream_nodes : list Field :=
  [ named_node "Owner" (Ident "string") (tag_pk "owner") [];
    named_node "Name" (Ident "string") (tag_pk "name") [];
    named_node "State" PaymentState (tag_json "state") [];
    named_node "Ref" (StarExpr PaymentState) (tag_json "ref") [];
    named_node "Secret" (Ident "string") tag_skip [];
    embedded_node xormAdapter tag_skip ].

(** The downstream declaration: it lacks [Name] and [Ref], and has a field
    [Table], with a comment of its own, that upstream does not have. *)
Definition sample_target_nodes : list Field :=
  [ named_node "Owner" (Ident "string") (tag_json "owner") [];
    named_node "State" PaymentState (tag_json "state") [];
    named_node "Table" (Ident "string")
      (raw ("xorm:" +:+ quoted "varchar(100)" +:+ " json:" +:+ quoted "table"))
      ["// Table is the name of the table"] ].

(** A downstream declaration that holds the two fields that the
    transformer excludes upstream. *)
Definition sample_target_excluded_nodes : list Field :=
  [ named_node "Owner" (Ident "string") (tag_json "owner") [];
    named_node "Secret" (Ident "string") (tag_json "secret") [];
    embedded_node xormAdapter "" ].

Definition sample_struct (nodes : list Field) : ParsedStruct :=
  {| StructName := "Adapter"; Fields := extractFields nodes;
     StructComments := [] |}.

Definition sample_file (nodes : list Field) : list Decl :=
  [ GenDecl IMPORT [] [ImportSpec];
    GenDecl TYPE [] [TypeSpec "Adapter" (StructType nodes)];
    FuncDecl ].

(** The first two nodes of a list, and the others. *)
Definition slice_two (nodes : list Field) : list Field * list Field :=
  match nodes with
  | a :: b :: rest => ([a; b], rest)
  | _ => (nodes, [])
  end.

(** A field whose tag has a key and no value. *)
Definition sample_malformed_field : ParsedField :=
  named_field "Bad" (Ident "int") (raw "json") [].

Section Structsync.

(** [strconv.Unquote] (with [None] for its error) and [strconv.Quote]. *)
Variable strconv_Unquote : string → option string.
Variable strconv_Quote : string → string.

(** The order in which a [range] over a Go map visits its keys: it is
    not specified, so it is a parameter, and no statement below depends on
    it. *)
Variable rangeKeys : gmap string bool → list string.

(** [None] is the run time panic of a method called on the nil pointer
    that [Parse] returns for a tag made of spaces. *)
Definition shouldExcludeField (tagStr : string) : option bool :=
  if String.eqb tagStr EmptyString then Some false
  else
    let tagStr := Trim tagStr "`" in
    if String.eqb tagStr EmptyString then Some false
    else
      match structtag.Parse strconv_Unquote tagStr with
      | structtag.ParseError => Some false
      | structtag.ParseNil => None
      | structtag.ParseOk tags =>
          let xormDash :=
            match structtag.Get tags "xorm" with
            | Some tag => String.eqb (structtag.Name tag) "-"
            | None => false
            end in
          let jsonDash :=
            match structtag.Get tags "json" with
            | Some tag => String.eqb (structtag.Name tag) "-"
            | None => false
            end in
          Some (xormDash && jsonDash)
      end.

(** The loop of [transformTags] over the parsed tags. *)
Definition removeTags_loop (removeSet : gmap string bool)
    (tags : list structtag.Tag) : bool * list structtag.Tag :=
  foldl (fun '(modified, remaining) tag =>
           if in_set removeSet (structtag.Key tag) then (true, remaining)
           else (modified, remaining ++ [tag]))
        (false, []) tags.

Definition transformTags (tagStr : string) (removeSet : gmap string bool)
  : option (string * bool) :=
  if String.eqb tagStr EmptyString then Some (EmptyString, false)
  else
    let tagStr := Trim tagStr "`" in
    if String.eqb tagStr EmptyString then Some (EmptyString, false)
    else
      match structtag.Parse strconv_Unquote tagStr with
      | structtag.ParseError => Some ("`" +:+ tagStr +:+ "`", false)
      | structtag.ParseNil => None
      | structtag.ParseOk tags =>
          let '(modified, remaining) := removeTags_loop removeSet tags in
          if negb modified then Some ("`" +:+ tagStr +:+ "`", false)
          else if (length remaining =? 0)%nat then Some (EmptyString, true)
          else
            let newTags := foldl structtag.Set_ [] remaining in
            Some ("`" +:+ structtag.String_ strconv_Quote newTags +:+ "`",
                  true)
      end.

(** [GetJSONFieldName] and [HasTag]; as above, [None] is the panic on the
    nil pointer. *)
Definition GetJSONFieldName (tagStr : string) : option string :=
  if String.eqb tagStr EmptyString then Some EmptyString
  else
    let tagStr := Trim tagStr "`" in
    if String.eqb tagStr EmptyString then Some EmptyString
    else
      match structtag.Parse strconv_Unquote tagStr with
      | structtag.ParseError => Some EmptyString
      | structtag.ParseNil => None
      | structtag.ParseOk tags =>
          match structtag.Get tags "json" with
          | None => Some EmptyString
          | Some tag => Some (structtag.Name tag)
          end
      end.

Definition HasTag (tagStr key : string) : option bool :=
  if String.eqb tagStr EmptyString then Some false
  else
    let tagStr := Trim tagStr "`" in
    if String.eqb tagStr EmptyString then Some false
    else
      match structtag.Parse strconv_Unquote tagStr with
      | structtag.ParseError => Some false
      | structtag.ParseNil => None
      | structtag.ParseOk tags =>
          match structtag.Get tags key with
          | None => Some false
          | Some _ => Some true
          end
      end.

(** One round of the loop of [TransformStruct]. *)
Definition TransformStruct_field (opts : TransformOpts)
    (excludeEmbeddedSet removeSet : gmap string bool)
    (result : TransformResult) (field : ParsedField)
  : option TransformResult :=
  let tf := {| Parsed := field; NewTags := Tags field;
               NewType := Type_ field; ShouldExclude := false |} in
  if IsEmbedded field && in_set excludeEmbeddedSet (Type_ field) then
    Some {| ResultFields := ResultFields result;
            ExcludedFields := ExcludedFields result ++ [Type_ field];
            ModifiedTags := ModifiedTags result |}
  else
    exclude ← shouldExcludeField (Tags field);
    if exclude : bool then
      Some {| ResultFields := ResultFields result;
              ExcludedFields := ExcludedFields result ++ [Name field];
              ModifiedTags := ModifiedTags result |}
    else
      let tf :=
        match TypeMappings opts !! Type_ field with
        | Some mappedType =>
            {| Parsed := field; NewTags := NewTags tf;
               NewType := mappedType; ShouldExclude := ShouldExclude tf |}
        | None => tf
        end in
      '(newTags, modified) ← transformTags (Tags field) removeSet;
      if modified : bool then
        Some {| ResultFields :=
                  ResultFields result ++
                    [ {| Parsed := field; NewTags := newTags;
                         NewType := NewType tf;
                         ShouldExclude := ShouldExclude tf |} ];
                ExcludedFields := ExcludedFields result;
                ModifiedTags := S (ModifiedTags result) |}
      else
        Some {| ResultFields := ResultFields result ++ [tf];
                ExcludedFields := ExcludedFields result;
                ModifiedTags := ModifiedTags result |}.

Fixpoint TransformStruct_loop (opts : TransformOpts)
    (excludeEmbeddedSet removeSet : gmap string bool)
    (result : TransformResult) (fields : list ParsedField)
  : option TransformResult :=
  match fields with
  | [] => Some result
  | field :: fields' =>
      result' ← TransformStruct_field opts excludeEmbeddedSet removeSet
                  result field;
      TransformStruct_loop opts excludeEmbeddedSet removeSet result' fields'
  end.

Definition emptyTransformResult : TransformResult :=
  {| ResultFields := []; ExcludedFields := []; ModifiedTags := 0 |}.

Definition TransformStruct (ps : ParsedStruct) (opts : TransformOpts)
  : option TransformResult :=
  let excludeEmbeddedSet := make_set (ExcludeEmbedded opts) in
  let removeSet := make_set (RemoveTags opts) in
  TransformStruct_loop opts excludeEmbeddedSet removeSet
    emptyTransformResult (Fields ps).

(** ** diff.go *)

Definition fieldKey (f : ParsedField) : string :=
  if IsEmbedded f then "embedded:" +:+ Type_ f else "field:" +:+ Name f.

Definition tfieldKey (f : TransformedField) : string :=
  if IsEmbedded f then "embedded:" +:+ Type_ f else "field:" +:+ Name f.

Definition formatField (f : ParsedField) : string :=
  let buf := String "009" EmptyString in
  let buf :=
    if IsEmbedded f then buf +:+ Type_ f
    else ((buf +:+ Name f) +:+ " ") +:+ Type_ f in
  if negb (String.eqb (Tags f) EmptyString) then (buf +:+ " ") +:+ Tags f
  else buf.

Definition formatTransformedField (f : TransformedField) : string :=
  let buf := String "009" EmptyString in
  let fieldType :=
    if negb (String.eqb (NewType f) EmptyString) then NewType f
    else Type_ f in
  let buf :=
    if IsEmbedded f then buf +:+ fieldType
    else ((buf +:+ Name f) +:+ " ") +:+ fieldType in
  if negb (String.eqb (NewTags f) EmptyString) then (buf +:+ " ") +:+ NewTags f
  else buf.

(** The loop of [isFieldCommented] over the comment lines. *)
Fixpoint isFieldCommented_loop (comments : list string) : bool :=
  match comments with
  | [] => false
  | c :: comments' =>
      let c := TrimSpace c in
      if HasPrefix c "//" then
        let content := TrimPrefix c "//" in
        let content := TrimSpace content in
        if HasPrefix content "*" || Contains content "." then true
        else isFieldCommented_loop comments'
      else isFieldCommented_loop comments'
  end.

Definition isFieldCommented (f : ParsedField) : bool :=
  isFieldCommented_loop (Comments f).

Definition ComputeDiff_header (targetStruct : ParsedStruct) : DiffLine :=
  {| LineType := DiffUnchanged;
     Content := ("type " +:+ StructName targetStruct) +:+ " struct {" |}.

(** One round of the loop over the source fields. *)
Definition ComputeDiff_source (targetFields : gmap string ParsedField)
    (result : DiffResult) (sf : TransformedField) : DiffResult :=
  let key := tfieldKey sf in
  if ShouldExclude sf then result
  else
    match targetFields !! key with
    | Some tf =>
        let oldLine := formatField tf in
        let newLine := formatTransformedField sf in
        if negb (String.eqb oldLine newLine) then
          {| DiffStructName := DiffStructName result;
             HasChanges := true;
             Lines := (Lines result
                         ++ [ {| LineType := DiffRemoved; Content := oldLine |} ])
                        ++ [ {| LineType := DiffAdded; Content := newLine |} ] |}
        else
          {| DiffStructName := DiffStructName result;
             HasChanges := HasChanges result;
             Lines := Lines result
                        ++ [ {| LineType := DiffUnchanged; Content := newLine |} ] |}
    | None =>
        {| DiffStructName := DiffStructName result;
           HasChanges := true;
           Lines := Lines result
                      ++ [ {| LineType := DiffAdded;
                              Content := formatTransformedField sf |} ] |}
    end.

(** One round of the loop over the target fields. *)
Definition ComputeDiff_target (sourceFields : gmap string TransformedField)
    (result : DiffResult) (tf : ParsedField) : DiffResult :=
  let key := fieldKey tf in
  match sourceFields !! key with
  | Some _ => result
  | None =>
      if isFieldCommented tf then result
      else
        {| DiffStructName := DiffStructName result;
           HasChanges := true;
           Lines := Lines result
                      ++ [ {| LineType := DiffRemoved;
                              Content := formatField tf |} ] |}
  end.

Definition ComputeDiff (targetStruct : ParsedStruct)
    (transformed : TransformResult) : DiffResult :=
  let result := {| DiffStructName := StructName targetStruct;
                   HasChanges := false; Lines := [] |} in
  let targetFields : gmap string ParsedField :=
    foldl (fun m f => <[fieldKey f := f]> m) ∅ (Fields targetStruct) in
  let sourceFields : gmap string TransformedField :=
    foldl (fun m f => <[tfieldKey f := f]> m) ∅ (ResultFields transformed) in
  let result :=
    {| DiffStructName := DiffStructName result;
       HasChanges := HasChanges result;
       Lines := Lines result ++ [ComputeDiff_header targetStruct] |} in
  let result :=
    foldl (ComputeDiff_source targetFields) result (ResultFields transformed) in
  let result :=
    foldl (ComputeDiff_target sourceFields) result (Fields targetStruct) in
  {| DiffStructName := DiffStructName result;
     HasChanges := HasChanges result;
     Lines := Lines result
                ++ [ {| LineType := DiffUnchanged; Content := "}" |} ] |}.

(** One round of the loop of [FormatDiff]: the line with its marker.  The
    switch has no case for [DiffModified]: such a line writes nothing. *)
Definition FormatDiff_line (buf : string) (line : DiffLine) : string :=
  match LineType line with
  | DiffUnchanged => buf +:+ ((" " +:+ Content line) +:+ newline)
  | DiffAdded => buf +:+ (("+" +:+ Content line) +:+ newline)
  | DiffRemoved => buf +:+ (("-" +:+ Content line) +:+ newline)
  | DiffModified => buf
  end.

Definition FormatDiff (diff : DiffResult) (targetPath : string) : string :=
  let buf := EmptyString in
  if negb (HasChanges diff) then EmptyString
  else
    let buf := buf +:+ (("--- a/" +:+ targetPath) +:+ newline) in
    let buf := buf +:+ (("+++ b/" +:+ targetPath) +:+ newline) in
    let buf :=
      buf +:+ ((("@@ struct " +:+ DiffStructName diff) +:+ " @@") +:+ newline) in
    foldl FormatDiff_line buf (Lines diff).

Definition FormatColorDiff_line (buf : string) (line : DiffLine) : string :=
  match LineType line with
  | DiffUnchanged => buf +:+ ((" " +:+ Content line) +:+ newline)
  | DiffAdded =>
      buf +:+ ((((colorGreen +:+ "+") +:+ Content line) +:+ colorReset)
                 +:+ newline)
  | DiffRemoved =>
      buf +:+ ((((colorRed +:+ "-") +:+ Content line) +:+ colorReset)
                 +:+ newline)
  | DiffModified => buf
  end.

Definition FormatColorDiff (diff : DiffResult) (targetPath : string)
  : string :=
  let buf := EmptyString in
  if negb (HasChanges diff) then EmptyString
  else
    let buf :=
      buf +:+ ((((colorYellow +:+ "--- a/") +:+ targetPath) +:+ colorReset)
                 +:+ newline) in
    let buf :=
      buf +:+ ((((colorYellow +:+ "+++ b/") +:+ targetPath) +:+ colorReset)
                 +:+ newline) in
    let buf :=
      buf +:+ (((((colorCyan +:+ "@@ struct ") +:+ DiffStructName diff)
                   +:+ " @@") +:+ colorReset) +:+ newline) in
    foldl FormatColorDiff_line buf (Lines diff).

(** ** writer.go *)

Definition buildField (tf : TransformedField) : Field :=
  let type :=
    if negb (String.eqb (NewType tf) EmptyString)
       && negb (String.eqb (NewType tf) (Type_ tf))
    then Ident (NewType tf)
    else cloneExpr (TypeExpr tf) in
  let names := if negb (IsEmbedded tf) then [Name tf] else [] in
  let tag :=
    if negb (String.eqb (NewTags tf) EmptyString) then Some (NewTags tf)
    else None in
  let start := if (0 <? length (Comments tf))%nat then Comments tf else [] in
  mkField names type tag SpaceNone start.

(** [preserveCommentedField] *)
Definition preserveCommentedField (pf : ParsedField) : Field :=
  let names :=
    if negb (IsEmbedded pf) && negb (String.eqb (Name pf) EmptyString)
    then [Name pf] else [] in
  let type :=
    match TypeExpr pf with
    | NilExpr => Ident (Type_ pf)
    | e => cloneExpr e
    end in
  let tag :=
    if negb (String.eqb (Tags pf) EmptyString) then Some (Tags pf) else None in
  let start := if (0 <? length (Comments pf))%nat then Comments pf else [] in
  mkField names type tag SpaceNone start.

(** The scan of [transformTagsHelper] for the end of a value: [end_]
    moves right until it has passed a double quote that no backslash
    precedes, or the end of the string. *)
Fixpoint scan_end (fuel : nat) (result : string) (end_ depth : nat) : nat :=
  match fuel with
  | O => end_
  | S fuel' =>
      if (end_ <? String.length result)%nat && (0 <? depth)%nat then
        let depth :=
          if bool_decide (String.get end_ result = Some structtag.dquote)
             && ((end_ =? 0)%nat
                 || negb (bool_decide (String.get (end_ - 1) result
                                       = Some structtag.backslash)))
          then (depth - 1)%nat else depth in
        scan_end fuel' result (S end_) depth
      else end_
  end.

(** The inner loop of [transformTagsHelper] for one key: every round
    cuts one occurrence of the key, its colon and its value out of
    [result], which gets shorter, so [String.length result] rounds are
    enough. *)
Fixpoint removeKey_loop (fuel : nat) (key result : string) : string :=
  match fuel with
  | O => result
  | S fuel' =>
      match Index result (key +:+ String ":" (String structtag.dquote EmptyString)) with
      | None => result
      | Some start =>
          let end_ := (start + String.length key + 2)%nat in
          let end_ := scan_end (String.length result) result end_ 1 in
          let prefix := TrimRight (slice_to start result) " " in
          let suffix := TrimLeft (slice_from end_ result) " " in
          let result := prefix in
          let result :=
            if negb (String.eqb result EmptyString)
               && negb (String.eqb suffix EmptyString)
            then result +:+ " " else result in
          let result := result +:+ suffix in
          removeKey_loop fuel' key result
      end
  end.

Definition transformTagsHelper (tagStr : string)
    (removeSet : gmap string bool) : string * bool :=
  if String.eqb tagStr EmptyString then (EmptyString, false)
  else
    let tagStr := Trim tagStr "`" in
    if String.eqb tagStr EmptyString then (EmptyString, false)
    else
      let result :=
        foldl (fun result key =>
                 removeKey_loop (String.length result) key result)
              tagStr (rangeKeys removeSet) in
      let result := TrimSpace result in
      if String.eqb result EmptyString then (EmptyString, true)
      else ("`" +:+ result +:+ "`", true).

Definition buildDeprecatedField (pf : ParsedField) (message : string)
    (removeTagKeys : list string) : Field :=
  let names := if negb (IsEmbedded pf) then [Name pf] else [] in
  let type :=
    match TypeExpr pf with
    | NilExpr => Ident (Type_ pf)
    | e => cloneExpr e
    end in
  let tag :=
    if negb (String.eqb (Tags pf) EmptyString) then
      let removeSet := make_set removeTagKeys in
      let newTags := (transformTagsHelper (Tags pf) removeSet).1 in
      if negb (String.eqb newTags EmptyString) then Some newTags else None
    else None in
  let message :=
    if String.eqb message EmptyString then "removed from server"
    else message in
  let deprecation := "// Deprecated: " +:+ message in
  mkField names type tag NewLine [deprecation].

(** The key under which [BuildFieldsFromTransform] files a field. *)
Definition buildKey (f : ParsedField) : string :=
  if IsEmbedded f then Type_ f else Name f.

Definition BuildFieldsFromTransform (transformed : TransformResult)
    (existingFields : list ParsedField) (opts : MergeOptions) : BuildResult :=
  let existingMap : gmap string ParsedField :=
    foldl (fun m f => <[buildKey f := f]> m) ∅ existingFields in
  let transformedMap : gmap string TransformedField :=
    foldl (fun m (f : TransformedField) => <[buildKey f := f]> m) ∅
          (ResultFields transformed) in
  let result := {| BuildFields := [] |} in
  let result :=
    foldl (fun result (tf : TransformedField) =>
             if ShouldExclude tf then result
             else {| BuildFields := BuildFields result ++ [buildField tf] |})
          result (ResultFields transformed) in
  foldl (fun result ef =>
           match transformedMap !! buildKey ef with
           | Some _ => result
           | None =>
               if MarkDeprecated opts then
                 {| BuildFields :=
                      BuildFields result
                        ++ [buildDeprecatedField ef (DeprecationMessage opts)
                              (MergeRemoveTags opts)] |}
               else result
           end)
        result existingFields.

(** [ExtractStructs] (parser.go): every struct type whose name is in the
    set, in the order of the file; it never fails. *)
Definition ExtractStructs_specs (nameSet : gmap string bool)
    (start : list string) (result : list ParsedStruct) (specs : list Spec)
  : list ParsedStruct :=
  foldl (fun result spec =>
           match spec with
           | TypeSpec n (StructType fields) =>
               if negb (in_set nameSet n) then result
               else result ++ [ {| StructName := n;
                                   Fields := extractFields fields;
                                   StructComments := start |} ]
           | _ => result
           end)
        result specs.

Definition ExtractStructs (pf : ParsedFile) (names : list string)
  : list ParsedStruct :=
  let nameSet := make_set names in
  foldl (fun result decl =>
           match decl with
           | GenDecl TYPE start specs =>
               ExtractStructs_specs nameSet start result specs
           | _ => result
           end)
        [] (File pf).

(** [FindAllStructs] (parser.go): the names of the struct types of a
    file, in the order of the file. *)
Definition FindAllStructs_specs (names : list string) (specs : list Spec)
  : list string :=
  foldl (fun names spec =>
           match spec with
           | TypeSpec n (StructType _) => names ++ [n]
           | _ => names
           end)
        names specs.

Definition FindAllStructs (pf : ParsedFile) : list string :=
  foldl (fun names decl =>
           match decl with
           | GenDecl TYPE _ specs => FindAllStructs_specs names specs
           | _ => names
           end)
        [] (File pf).

(** [UpdateStructInFile]: the field list of the first type spec of that
    name is replaced; the file is returned in place of being changed
    under the caller. *)
Fixpoint UpdateStruct_specs (specs : list Spec) (structName : string)
    (fields : list Field) : option (result (list Spec)) :=
  match specs with
  | [] => None
  | TypeSpec n t :: specs' =>
      if negb (String.eqb n structName) then
        r ← UpdateStruct_specs specs' structName fields;
        Some match r with
             | Ok specs'' => Ok (TypeSpec n t :: specs'')
             | Err e => Err e
             end
      else
        match t with
        | StructType _ => Some (Ok (TypeSpec n (StructType fields) :: specs'))
        | _ => Some (Err (structName +:+ " is not a struct type"))
        end
  | spec :: specs' =>
      r ← UpdateStruct_specs specs' structName fields;
      Some match r with
           | Ok specs'' => Ok (spec :: specs'')
           | Err e => Err e
           end
  end.

Fixpoint UpdateStruct_decls (decls : list Decl) (structName : string)
    (fields : list Field) : option (result (list Decl)) :=
  match decls with
  | [] => None
  | GenDecl TYPE start specs :: decls' =>
      match UpdateStruct_specs specs structName fields with
      | Some (Ok specs') => Some (Ok (GenDecl TYPE start specs' :: decls'))
      | Some (Err e) => Some (Err e)
      | None =>
          r ← UpdateStruct_decls decls' structName fields;
          Some match r with
               | Ok decls'' => Ok (GenDecl TYPE start specs :: decls'')
               | Err e => Err e
               end
      end
  | decl :: decls' =>
      r ← UpdateStruct_decls decls' structName fields;
      Some match r with
           | Ok decls'' => Ok (decl :: decls'')
           | Err e => Err e
           end
  end.

Definition UpdateStructInFile (pf : ParsedFile) (structName : string)
    (buildResult : BuildResult) : result ParsedFile :=
  match UpdateStruct_decls (File pf) structName (BuildFields buildResult) with
  | Some (Ok decls) => Ok {| Path := Path pf; File := decls |}
  | Some (Err e) => Err e
  | None => Err (("struct " +:+ structName) +:+ " not found in file")
  end.

(** ** config.go: the merge

    [createField], [createDeprecatedField] and [fieldChanged]. *)
Definition createField (tf : TransformedField) : Field :=
  let names := if negb (IsEmbedded tf) then [Name tf] else [] in
  let type := cloneExpr (TypeExpr tf) in
  let tag :=
    if negb (String.eqb (NewTags tf) EmptyString) then Some (NewTags tf)
    else None in
  let start := if (0 <? length (Comments tf))%nat then Comments tf else [] in
  mkField names type tag SpaceNone start.

Definition createDeprecatedField (pf : ParsedField) (message : string)
  : Field :=
  let names := if negb (IsEmbedded pf) then [Name pf] else [] in
  let type := cloneExpr (TypeExpr pf) in
  let tag :=
    if negb (String.eqb (Tags pf) EmptyString) then Some (Tags pf) else None in
  let deprecationComment := "// Deprecated: " +:+ message in
  mkField names type tag SpaceNone (Comments pf ++ [deprecationComment]).

Definition fieldChanged (target : ParsedField) (source : TransformedField)
  : bool :=
  if negb (String.eqb (Type_ target) (Type_ source)) then true
  else
    let targetTags := Trim (Tags target) "`" in
    let sourceTags := Trim (NewTags source) "`" in
    if negb (String.eqb targetTags sourceTags) then true
    else false.

(** The order in which the [range] over the map of the target fields of
    [MergeStructs] visits its entries. *)
Variable rangeFields : gmap string ParsedField → list (string * ParsedField).

Definition emptyMergeResult : MergeResult :=
  {| MergeNewFields := []; MergeRemovedFields := []; ModifiedFields := [];
     UnchangedFields := []; DeprecatedFields := [] |}.

(** One round of the loop of [MergeStructs] over the transformed fields:
    the key is filed as new, modified or unchanged, and the field is
    added to the new field list. *)
Definition MergeStructs_source (targetFields : gmap string ParsedField)
    (acc : MergeResult * list Field) (tf : TransformedField)
  : MergeResult * list Field :=
  let '(result, newFields) := acc in
  let key := if IsEmbedded tf then Type_ tf else Name tf in
  if ShouldExclude tf then (result, newFields)
  else
    let result :=
      match targetFields !! key with
      | Some existing =>
          if fieldChanged existing tf then
            {| MergeNewFields := MergeNewFields result;
               MergeRemovedFields := MergeRemovedFields result;
               ModifiedFields := ModifiedFields result ++ [key];
               UnchangedFields := UnchangedFields result;
               DeprecatedFields := DeprecatedFields result |}
          else
            {| MergeNewFields := MergeNewFields result;
               MergeRemovedFields := MergeRemovedFields result;
               ModifiedFields := ModifiedFields result;
               UnchangedFields := UnchangedFields result ++ [key];
               DeprecatedFields := DeprecatedFields result |}
      | None =>
          {| MergeNewFields := MergeNewFields result ++ [key];
             MergeRemovedFields := MergeRemovedFields result;
             ModifiedFields := ModifiedFields result;
             UnchangedFields := UnchangedFields result;
             DeprecatedFields := DeprecatedFields result |}
      end in
    (result, newFields ++ [createField tf]).

(** One round of the loop over the entries of the target map. *)
Definition MergeStructs_target (sourceFields : gmap string TransformedField)
    (opts : MergeOptions) (acc : MergeResult * list Field)
    (entry : string * ParsedField) : MergeResult * list Field :=
  let '(result, newFields) := acc in
  let '(key, tf) := entry in
  match sourceFields !! key with
  | Some _ => (result, newFields)
  | None =>
      if MarkDeprecated opts then
        ({| MergeNewFields := MergeNewFields result;
            MergeRemovedFields := MergeRemovedFields result;
            ModifiedFields := ModifiedFields result;
            UnchangedFields := UnchangedFields result;
            DeprecatedFields := DeprecatedFields result ++ [key] |},
         newFields ++ [createDeprecatedField tf (DeprecationMessage opts)])
      else
        ({| MergeNewFields := MergeNewFields result;
            MergeRemovedFields := MergeRemovedFields result ++ [key];
            ModifiedFields := ModifiedFields result;
            UnchangedFields := UnchangedFields result;
            DeprecatedFields := DeprecatedFields result |},
         newFields)
  end.

(** The result and the new field list that [MergeStructs] computes once
    it has found the declaration. *)
Definition MergeStructs_fields (targetStruct : ParsedStruct)
    (transformed : TransformResult) (opts : MergeOptions)
  : MergeResult * list Field :=
  let targetFields : gmap string ParsedField :=
    foldl (fun m f => <[(if IsEmbedded f then Type_ f else Name f) := f]> m)
          ∅ (Fields targetStruct) in
  let sourceFields : gmap string TransformedField :=
    foldl (fun m (f : TransformedField) =>
             <[(if IsEmbedded f then Type_ f else Name f) := f]> m)
          ∅ (ResultFields transformed) in
  let acc :=
    foldl (MergeStructs_source targetFields) (emptyMergeResult, [])
          (ResultFields transformed) in
  foldl (MergeStructs_target sourceFields opts) acc (rangeFields targetFields).

(** The search of [MergeStructs] for the declaration: the first type spec
    of that name that is a struct type gets the new field list; [None]
    when there is none. *)
Fixpoint MergeStructs_specs (specs : list Spec) (name : string)
    (newFields : list Field) : option (list Spec) :=
  match specs with
  | [] => None
  | TypeSpec n (StructType fields) :: specs' =>
      if negb (String.eqb n name) then
        (fun specs'' => TypeSpec n (StructType fields) :: specs'')
          <$> MergeStructs_specs specs' name newFields
      else Some (TypeSpec n (StructType newFields) :: specs')
  | spec :: specs' =>
      (fun specs'' => spec :: specs'')
        <$> MergeStructs_specs specs' name newFields
  end.

Fixpoint MergeStructs_decls (decls : list Decl) (name : string)
    (newFields : list Field) : option (list Decl) :=
  match decls with
  | [] => None
  | GenDecl TYPE start specs :: decls' =>
      match MergeStructs_specs specs name newFields with
      | Some specs' => Some (GenDecl TYPE start specs' :: decls')
      | None =>
          (fun decls'' => GenDecl TYPE start specs :: decls'')
            <$> MergeStructs_decls decls' name newFields
      end
  | decl :: decls' =>
      (fun decls'' => decl :: decls'')
        <$> MergeStructs_decls decls' name newFields
  end.

(** [MergeStructs]: its error result is always nil; the file is returned
    in place of being changed under the caller.  When the file has no
    struct type of the name, the result is empty and the file is as it
    was. *)
Definition MergeStructs (targetFile : ParsedFile) (targetStruct : ParsedStruct)
    (transformed : TransformResult) (opts : MergeOptions)
  : MergeResult * ParsedFile :=
  let '(result, newFields) :=
    MergeStructs_fields targetStruct transformed opts in
  match MergeStructs_decls (File targetFile) (StructName targetStruct)
          newFields with
  | Some decls => (result, {| Path := Path targetFile; File := decls |})
  | None => (emptyMergeResult, targetFile)
  end.

(** ** main.go

    The files the run reads and writes.  A file is held as its tree: the
    printer and the parser of the syntax tree library are taken to be
    inverse to each other on the trees the tool handles.  A path outside
    [files] cannot be read or parsed, a path in [readonly] cannot be
    written. *)

Record World := {
  files : gmap string (list Decl);
  readonly : gset string
}.

Definition ParseFile (w : World) (path : string) : result ParsedFile :=
  match files w !! path with
  | Some decls => Ok {| Path := path; File := decls |}
  | None => Err ("reading file " +:+ path)
  end.

Definition WriteFile (w : World) (pf : ParsedFile) : result World :=
  if bool_decide (Path pf ∈ readonly w) then Err ("writing file " +:+ Path pf)
  else Ok {| files := <[Path pf := File pf]> (files w);
             readonly := readonly w |}.

Variable filepath_Join : string → string → string.

Record StructDef := {
  DefName : string;
  DefSource : string;
  DefFile : string;
  DefSourceFile : string;
  IncludeTypes : list string
}.

(** [Config], without the source repositories and the deprecation
    options, which the run does not read. *)
Record Config := {
  Target : string;
  Structs : list StructDef;
  Transform : TransformOpts
}.

Record Syncer := {
  Syncer_Config : Config;
  SourcePaths : gmap string string;
  DryRun : bool;
  ShowDiff : bool;
  StructFilter : string;
  Syncer_MarkDeprecated : bool;
  Syncer_PruneDeprecated : bool;
  NoColor : bool;
  Verbose : bool;
  stats : SummaryStats
}.

Definition set_stats (s : Syncer) (st : SummaryStats) : Syncer :=
  {| Syncer_Config := Syncer_Config s; SourcePaths := SourcePaths s;
     DryRun := DryRun s; ShowDiff := ShowDiff s;
     StructFilter := StructFilter s;
     Syncer_MarkDeprecated := Syncer_MarkDeprecated s;
     Syncer_PruneDeprecated := Syncer_PruneDeprecated s;
     NoColor := NoColor s; Verbose := Verbose s; stats := st |}.

(** [s.stats.ChangedStructs++] *)
Definition incr_ChangedStructs (st : SummaryStats) : SummaryStats :=
  {| TotalStructs := TotalStructs st;
     ChangedStructs := S (ChangedStructs st);
     NewFields := NewFields st; RemovedFields := RemovedFields st;
     StatsModifiedTags := StatsModifiedTags st;
     StatsExcludedFields := StatsExcludedFields st |}.

(** [s.stats.ModifiedTags += n] *)
Definition add_ModifiedTags (st : SummaryStats) (n : nat) : SummaryStats :=
  {| TotalStructs := TotalStructs st;
     ChangedStructs := ChangedStructs st;
     NewFields := NewFields st; RemovedFields := RemovedFields st;
     StatsModifiedTags := StatsModifiedTags st + n;
     StatsExcludedFields := StatsExcludedFields st |}.

(** [s.stats.TotalStructs++] *)
Definition incr_TotalStructs (st : SummaryStats) : SummaryStats :=
  {| TotalStructs := S (TotalStructs st);
     ChangedStructs := ChangedStructs st;
     NewFields := NewFields st; RemovedFields := RemovedFields st;
     StatsModifiedTags := StatsModifiedTags st;
     StatsExcludedFields := StatsExcludedFields st |}.

(** The loop of [syncStruct] over the additional structs; [None] is a
    panic of the transformer. *)
Fixpoint syncStruct_additional (opts : TransformOpts)
    (mergeOpts : MergeOptions) (targetParsed : ParsedFile)
    (additionalStructs : list ParsedStruct) : option (result ParsedFile) :=
  match additionalStructs with
  | [] => Some (Ok targetParsed)
  | addStruct :: rest =>
      addTransformed ← TransformStruct addStruct opts;
      match ExtractStruct targetParsed (StructName addStruct) with
      | Err _ => syncStruct_additional opts mergeOpts targetParsed rest
      | Ok existingStruct =>
          let addFields :=
            BuildFieldsFromTransform addTransformed (Fields existingStruct)
              mergeOpts in
          match UpdateStructInFile targetParsed (StructName addStruct)
                  addFields with
          | Err e =>
              Some (Err ((("updating additional struct "
                             +:+ StructName addStruct) +:+ ": ") +:+ e))
          | Ok targetParsed' =>
              syncStruct_additional opts mergeOpts targetParsed' rest
          end
      end
  end.

(** [syncStruct]: the syncer with its statistics, the files, and the
    error returned, if any; [None] is a panic.  What is printed is left
    out. *)
Definition syncStruct (s : Syncer) (w : World) (def : StructDef)
  : option (Syncer * World * option string) :=
  match SourcePaths s !! DefSource def with
  | None =>
      Some (s, w,
            Some (("source " +:+ strconv_Quote (DefSource def))
                    +:+ " not found in resolved paths"))
  | Some sourceDir =>
      let srcFile :=
        if negb (String.eqb (DefSourceFile def) EmptyString)
        then DefSourceFile def else DefFile def in
      let sourceFile := filepath_Join sourceDir srcFile in
      let targetFile := filepath_Join (Target (Syncer_Config s)) (DefFile def) in
      match ParseFile w sourceFile with
      | Err e => Some (s, w, Some ("parsing source: " +:+ e))
      | Ok sourceParsed =>
      match ExtractStruct sourceParsed (DefName def) with
      | Err e => Some (s, w, Some ("extracting source struct: " +:+ e))
      | Ok sourceStruct =>
      let additionalStructs :=
        if (0 <? length (IncludeTypes def))%nat
        then ExtractStructs sourceParsed (IncludeTypes def) else [] in
      match ParseFile w targetFile with
      | Err e => Some (s, w, Some ("parsing target: " +:+ e))
      | Ok targetParsed =>
      match ExtractStruct targetParsed (DefName def) with
      | Err e => Some (s, w, Some ("extracting target struct: " +:+ e))
      | Ok targetStruct =>
      transformed ← TransformStruct sourceStruct (Transform (Syncer_Config s));
      let diff := ComputeDiff targetStruct transformed in
      let s :=
        if HasChanges diff then set_stats s (incr_ChangedStructs (stats s))
        else s in
      if negb (DryRun s) && HasChanges diff then
        let mergeOpts :=
          {| MarkDeprecated := Syncer_MarkDeprecated s;
             DeprecationMessage := "removed from server";
             PruneDeprecated := Syncer_PruneDeprecated s;
             MergeRemoveTags := RemoveTags (Transform (Syncer_Config s)) |} in
        let newFields :=
          BuildFieldsFromTransform transformed (Fields targetStruct)
            mergeOpts in
        match UpdateStructInFile targetParsed (DefName def) newFields with
        | Err e => Some (s, w, Some ("updating struct: " +:+ e))
        | Ok targetParsed =>
            r ← syncStruct_additional (Transform (Syncer_Config s)) mergeOpts
                  targetParsed additionalStructs;
            match r with
            | Err e => Some (s, w, Some e)
            | Ok targetParsed =>
                match WriteFile w targetParsed with
                | Err e => Some (s, w, Some ("writing file: " +:+ e))
                | Ok w' =>
                    Some (set_stats s
                            (add_ModifiedTags (stats s)
                               (ModifiedTags transformed)),
                          w', None)
                end
            end
        end
      else
        Some (set_stats s
                (add_ModifiedTags (stats s) (ModifiedTags transformed)),
              w, None)
      end end end end
  end.

(** The loop of [Run] over the configured structs. *)
Fixpoint Run_loop (s : Syncer) (w : World) (structs : list StructDef)
  : option (Syncer * World) :=
  match structs with
  | [] => Some (s, w)
  | structDef :: structs' =>
      if negb (String.eqb (StructFilter s) EmptyString)
         && negb (String.eqb (DefName structDef) (StructFilter s))
      then Run_loop s w structs'
      else
        '(s', w', err) ← syncStruct s w structDef;
        match err with
        | Some _ => Run_loop s' w' structs'
        | None =>
            Run_loop (set_stats s' (incr_TotalStructs (stats s'))) w'
              structs'
        end
  end.

Definition Run (s : Syncer) (w : World) : option (Syncer * World) :=
  Run_loop s w (Structs (Syncer_Config s)).

(** The command line flags that [main] hands to the syncer. *)
Record Flags := {
  flag_dryRun : bool;
  flag_showDiff : bool;
  flag_structFilter : string;
  flag_markDeprecated : bool;
  flag_pruneDeprecated : bool;
  flag_noColor : bool;
  flag_verbose : bool
}.

Definition zeroStats : SummaryStats :=
  {| TotalStructs := 0; ChangedStructs := 0; NewFields := 0;
     RemovedFields := 0; StatsModifiedTags := 0; StatsExcludedFields := 0 |}.

(** The syncer that [main] creates: the flags as given, but for the dry
    run flag, which [main] sets when the diff flag is set and the dry run
    flag is not. *)
Definition main_Syncer (fl : Flags) (cfg : Config)
    (sourcePaths : gmap string string) : Syncer :=
  let dryRun :=
    if flag_showDiff fl && negb (flag_dryRun fl) then true
    else flag_dryRun fl in
  {| Syncer_Config := cfg; SourcePaths := sourcePaths; DryRun := dryRun;
     ShowDiff := flag_showDiff fl; StructFilter := flag_structFilter fl;
     Syncer_MarkDeprecated := flag_markDeprecated fl;
     Syncer_PruneDeprecated := flag_pruneDeprecated fl;
     NoColor := flag_noColor fl; Verbose := flag_verbose fl;
     stats := zeroStats |}.

(** ** config.go: the validation

    The configuration as it is loaded: the part that the run reads, above,
    and the sources. *)
Record LoadedConfig := {
  Sources : gmap string SourceDef;
  Loaded :> Config
}.

(** Whether [os.Stat] of a path fails with an error that [os.IsNotExist]
    recognises. *)
Variable os_Stat_IsNotExist : string → bool.

(** The loop of [Validate] over the structs; [None] is no error. *)
Fixpoint Validate_structs (sources : gmap string SourceDef)
    (structs : list StructDef) : option string :=
  match structs with
  | [] => None
  | s :: structs' =>
      if String.eqb (DefSource s) EmptyString then
        Some (("struct " +:+ DefName s) +:+ ": source not specified")
      else
        match sources !! DefSource s with
        | None =>
            Some (((("struct " +:+ DefName s) +:+ ": source ")
                     +:+ strconv_Quote (DefSource s))
                    +:+ " not found in sources")
        | Some _ => Validate_structs sources structs'
        end
  end.

(** [Validate]: the error, or [None] for nil. *)
Definition Validate (c : LoadedConfig) : option string :=
  if (size (Sources c) =? 0)%nat then Some "no sources defined"
  else if String.eqb (Target c) EmptyString then
    Some "target directory not specified"
  else if (length (Structs c) =? 0)%nat then Some "no structs defined"
  else
    match Validate_structs (Sources c) (Structs c) with
    | Some e => Some e
    | None =>
        if os_Stat_IsNotExist (Target c) then
          Some ("target directory does not exist: " +:+ Target c)
        else None
    end.

(** ** git.go

    The orders in which the two maps are visited, the result of
    [os.MkdirTemp] ([None] for an error) and whether the [git] command
    run with the given arguments succeeds. *)
Variable rangeOverrides : gmap string string → list (string * string).
Variable rangeSources : gmap string SourceDef → list string.
Variable os_MkdirTemp : option string.
Variable git_clone : list string → bool.

(** The loop of [CloneSources] over the overrides. *)
Fixpoint CloneSources_overrides (sources : gmap string SourceDef)
    (entries : list (string * string)) (paths : gmap string string)
  : result (gmap string string) :=
  match entries with
  | [] => Ok paths
  | (name, localPath) :: entries' =>
      match sources !! name with
      | None =>
          Err (("source override " +:+ strconv_Quote name)
                 +:+ " not found in sources config")
      | Some _ =>
          CloneSources_overrides sources entries' (<[name := localPath]> paths)
      end
  end.

(** The zero value that a Go map gives for an absent key. *)
Definition zeroSourceDef : SourceDef :=
  {| Repo := EmptyString; SourceDef_Path := EmptyString; Ref := EmptyString |}.

(** The loop of [CloneSources] over the sources to clone. *)
Fixpoint CloneSources_clone (sources : gmap string SourceDef)
    (tmpDir : string) (toClone : list string) (paths : gmap string string)
  : result (gmap string string) :=
  match toClone with
  | [] => Ok paths
  | name :: toClone' =>
      let src := default zeroSourceDef (sources !! name) in
      let cloneDir := filepath_Join tmpDir name in
      let args := ["clone"; "--depth"; "1"] in
      let args :=
        if negb (String.eqb (Ref src) EmptyString)
        then args ++ ["--branch"; Ref src] else args in
      let args := args ++ [Repo src; cloneDir] in
      if negb (git_clone args) then Err ("cloning " +:+ name)
      else
        let localPath :=
          if negb (String.eqb (SourceDef_Path src) EmptyString)
          then filepath_Join cloneDir (SourceDef_Path src) else cloneDir in
        CloneSources_clone sources tmpDir toClone' (<[name := localPath]> paths)
  end.

(** [CloneSources]: the local path of every source, and the directory
    that the returned clean up function removes, [None] when it does
    nothing.  The text of an underlying error is left out. *)
Definition CloneSources (sources : gmap string SourceDef)
    (overrides : gmap string string)
  : result (gmap string string * option string) :=
  match CloneSources_overrides sources (rangeOverrides overrides) ∅ with
  | Err e => Err e
  | Ok paths =>
      let toClone :=
        filter (fun name => overrides !! name = None) (rangeSources sources) in
      if (length toClone =? 0)%nat then Ok (paths, None)
      else
        match os_MkdirTemp with
        | None => Err "creating temp dir"
        | Some tmpDir =>
            match CloneSources_clone sources tmpDir toClone paths with
            | Err e => Err e
            | Ok paths => Ok (paths, Some tmpDir)
            end
        end
  end.

(** ** The diff and the build, read off the ordered field lists

The functions below describe the result of [ComputeDiff] and of
[BuildFieldsFromTransform] from the two field lists alone.  A Go map
filled from a list holds, under each key, the last element of the list that
has the key. *)

Definition lookup_last {A} (key : A → string) (k : string) (l : list A)
  : option A :=
  last (filter (fun x => key x = k) l).

(** The lines of one upstream field that is not excluded: one unchanged
    line, or the removed old line and the added new line, or one added
    line. *)
Definition source_entry (target : list ParsedField) (sf : TransformedField)
  : list DiffLine :=
  match lookup_last fieldKey (tfieldKey sf) target with
  | Some tf =>
      if String.eqb (formatField tf) (formatTransformedField sf) then
        [ {| LineType := DiffUnchanged; Content := formatTransformedField sf |} ]
      else
        [ {| LineType := DiffRemoved; Content := formatField tf |};
          {| LineType := DiffAdded; Content := formatTransformedField sf |} ]
  | None =>
      [ {| LineType := DiffAdded; Content := formatTransformedField sf |} ]
  end.

(** An upstream field whose entry is not one unchanged line. *)
Definition source_changed (target : list ParsedField) (sf : TransformedField)
  : bool :=
  match lookup_last fieldKey (tfieldKey sf) target with
  | Some tf => negb (String.eqb (formatField tf) (formatTransformedField sf))
  | None => true
  end.

Definition included (sf : TransformedField) : bool := negb (ShouldExclude sf).

(** A target field that no upstream field matches and that is not
    commented out: a pending removal. *)
Definition pending_removal (source : list TransformedField) (tf : ParsedField)
  : bool :=
  bool_decide (lookup_last tfieldKey (fieldKey tf) source = None)
  && negb (isFieldCommented tf).

Definition removed_line (tf : ParsedField) : DiffLine :=
  {| LineType := DiffRemoved; Content := formatField tf |}.

(** A target field that the build keeps as a deprecated stub. *)
Definition target_only (source : list TransformedField) (ef : ParsedField)
  : bool :=
  bool_decide (lookup_last (fun tf : TransformedField => buildKey tf)
                 (buildKey ef) source = None).

(** The target declaration as the next run extracts it, once the built
    field list has replaced its fields. *)
Definition rebuilt_target (targetStruct : ParsedStruct) (build : BuildResult)
  : ParsedStruct :=
  {| StructName := StructName targetStruct;
     Fields := extractFields (BuildFields build);
     StructComments := StructComments targetStruct |}.

(** One run of the pipeline on one declaration, as [syncStruct] does it
    when it is not a dry run and no additional type is configured: the
    diff, and the target declaration the next run finds. *)
Definition sync_once (opts : TransformOpts)
    (markDeprecated pruneDeprecated : bool)
    (sourceStruct targetStruct : ParsedStruct)
  : option (DiffResult * ParsedStruct) :=
  transformed ← TransformStruct sourceStruct opts;
  let diff := ComputeDiff targetStruct transformed in
  if HasChanges diff then
    let mergeOpts :=
      {| MarkDeprecated := markDeprecated;
         DeprecationMessage := "removed from server";
         PruneDeprecated := pruneDeprecated;
         MergeRemoveTags := RemoveTags opts |} in
    let newFields :=
      BuildFieldsFromTransform transformed (Fields targetStruct) mergeOpts in
    Some (diff, rebuilt_target targetStruct newFields)
  else Some (diff, targetStruct).

(** What the rounds of [TransformStruct] add to the result: results are
    put together field list after field list, the counts added. *)
Definition merge_results (r d : TransformResult) : TransformResult :=
  {| ResultFields := ResultFields r ++ ResultFields d;
     ExcludedFields := ExcludedFields r ++ ExcludedFields d;
     ModifiedTags := ModifiedTags r + ModifiedTags d |}.

(** The transformed field of a retained field. *)
Definition retained_field (opts : TransformOpts) (field : ParsedField)
    (newTags : string) (modified : bool) : TransformedField :=
  {| Parsed := field;
     NewTags := if modified then newTags else Tags field;
     NewType := default (Type_ field) (TypeMappings opts !! Type_ field);
     ShouldExclude := false |}.

(** What one field adds; [None] is a panic. *)
Definition field_delta (opts : TransformOpts) (field : ParsedField)
  : option TransformResult :=
  if IsEmbedded field && in_set (make_set (ExcludeEmbedded opts)) (Type_ field)
  then Some {| ResultFields := []; ExcludedFields := [Type_ field];
               ModifiedTags := 0 |}
  else
    exclude ← shouldExcludeField (Tags field);
    if exclude : bool then
      Some {| ResultFields := []; ExcludedFields := [Name field];
              ModifiedTags := 0 |}
    else
      '(newTags, modified) ← transformTags (Tags field)
                               (make_set (RemoveTags opts));
      Some {| ResultFields := [retained_field opts field newTags modified];
              ExcludedFields := [];
              ModifiedTags := if modified : bool then 1 else 0 |}.

(** The field that [extractField] reads back from the node that
    [buildField] makes. *)
Definition reextracted (tf : TransformedField) : ParsedField :=
  let typeStr := exprToString (Field_Type (buildField tf)) in
  {| Name := if IsEmbedded tf then typeStr else Name tf;
     Type_ := typeStr;
     TypeExpr := Field_Type (buildField tf);
     Tags := NewTags tf;
     Comments := Comments tf;
     IsEmbedded := IsEmbedded tf |}.

(** The counters that no statement of [syncStruct] or [Run] assigns. *)
Definition field_counters (st : SummaryStats) : nat * nat * nat :=
  (NewFields st, RemovedFields st, StatsExcludedFields st).

(** The text that the tag helper of the writer looks for: the key, a
    colon and the opening quote. *)
Definition key_pattern (key : string) : string :=
  key +:+ String ":" (String structtag.dquote EmptyString).

(** The source file and the target file of a declaration, as [syncStruct]
    names them. *)
Definition sourceFile_of (s : Syncer) (sourceDir : string) (def : StructDef)
  : string :=
  filepath_Join sourceDir
    (if negb (String.eqb (DefSourceFile def) EmptyString)
     then DefSourceFile def else DefFile def).

Definition targetFile_of (s : Syncer) (def : StructDef) : string :=
  filepath_Join (Target (Syncer_Config s)) (DefFile def).

(** ** The transformer, the formatter and the run, read off their inputs

    An upstream field that [TransformStruct] leaves out: an embedded field
    whose type is in the list, or a field whose tag has ["-"] for both
    names; and the entry of [ExcludedFields] for it. *)
Definition excluded_field (opts : TransformOpts) (f : ParsedField) : bool :=
  IsEmbedded f && bool_decide (Type_ f ∈ ExcludeEmbedded opts)
  || bool_decide (shouldExcludeField (Tags f) = Some true).

Definition excluded_entry (opts : TransformOpts) (f : ParsedField) : string :=
  if IsEmbedded f && bool_decide (Type_ f ∈ ExcludeEmbedded opts)
  then Type_ f else Name f.

(** A tag string in which [HasTag] finds one of the keys to remove. *)
Definition has_removed_key (opts : TransformOpts) (tagStr : string) : bool :=
  existsb (fun key => bool_decide (HasTag tagStr key = Some true))
          (RemoveTags opts).

(** A line of a diff that is an addition or a removal. *)
Definition changed_line (l : DiffLine) : bool :=
  match LineType l with
  | DiffUnchanged => false
  | _ => true
  end.

(** The three lines that [FormatDiff] writes first, and a line of the
    diff as it writes it: the marker of its type, its content and the end
    of the line.  No marker is written for [DiffModified]. *)
Definition diff_heading (targetPath structName : string) : string :=
  (("--- a/" +:+ targetPath) +:+ newline)
    +:+ (("+++ b/" +:+ targetPath) +:+ newline)
    +:+ ((("@@ struct " +:+ structName) +:+ " @@") +:+ newline).

Definition marker (t : DiffType) : string :=
  match t with
  | DiffUnchanged => " "
  | DiffAdded => "+"
  | DiffRemoved => "-"
  | DiffModified => EmptyString
  end.

Definition printed_line (l : DiffLine) : string :=
  (marker (LineType l) +:+ Content l) +:+ newline.

Definition concat_strings (l : list string) : string :=
  foldr String.append EmptyString l.

(** A text without its colour sequences: every run from an escape byte to
    the next [m] is deleted. *)
Fixpoint strip_colors (inside : bool) (s : string) : string :=
  match s with
  | EmptyString => EmptyString
  | String c s' =>
      if inside then strip_colors (negb (Ascii.eqb c "m")) s'
      else if Ascii.eqb c escape then strip_colors true s'
      else String c (strip_colors false s')
  end.

(** A text that holds no escape byte. *)
Fixpoint no_escape (s : string) : bool :=
  match s with
  | EmptyString => true
  | String c s' => negb (Ascii.eqb c escape) && no_escape s'
  end.

(** The syncer with another value of its [PruneDeprecated] flag. *)
Definition set_PruneDeprecated (s : Syncer) (pruneDeprecated : bool)
  : Syncer :=
  {| Syncer_Config := Syncer_Config s; SourcePaths := SourcePaths s;
     DryRun := DryRun s; ShowDiff := ShowDiff s;
     StructFilter := StructFilter s;
     Syncer_MarkDeprecated := Syncer_MarkDeprecated s;
     Syncer_PruneDeprecated := pruneDeprecated;
     NoColor := NoColor s; Verbose := Verbose s; stats := stats s |}.

(** A struct definition that the filter of the syncer lets through. *)
Definition selected (s : Syncer) (def : StructDef) : bool :=
  String.eqb (StructFilter s) EmptyString
  || String.eqb (DefName def) (StructFilter s).

(** The local path of a cloned source: its directory under the temporary
    directory, or the sub directory of it that the source names. *)
Definition clone_path (tmpDir name : string) (src : SourceDef) : string :=
  if negb (String.eqb (SourceDef_Path src) EmptyString)
  then filepath_Join (filepath_Join tmpDir name) (SourceDef_Path src)
  else filepath_Join tmpDir name.

(** What the merge finds in the target for a transformed field: no field
    of its key, a field that [fieldChanged] tells from it, or a field that
    it does not. *)
Inductive MergeKind := KindNew | KindModified | KindUnchanged.

#[global] Instance MergeKind_eq_dec : EqDecision MergeKind.
Proof. solve_decision. Defined.

Definition merge_kind (target : list ParsedField) (tf : TransformedField)
  : MergeKind :=
  match lookup_last buildKey (buildKey tf) target with
  | Some existing =>
      if fieldChanged existing tf then KindModified else KindUnchanged
  | None => KindNew
  end.

(** The keys of the transformed fields of one kind, in order. *)
Definition keys_of_kind (kind : MergeKind) (target : list ParsedField)
    (source : list TransformedField) : list string :=
  (fun tf : TransformedField => buildKey tf)
    <$> filter (fun tf => merge_kind target tf = kind)
          (filter included source).

(** The map that [MergeStructs] and [BuildFieldsFromTransform] make of a
    field list. *)
Definition field_map {A} (key : A → string) (l : list A) : gmap string A :=
  foldl (fun m f => <[key f := f]> m) ∅ l.

(** * Properties *)

(** ** Strings *)

Lemma append_String (c : ascii) (s t : string) :
  String c s +:+ t = String c (s +:+ t).
Proof. reflexivity. Qed.

Lemma append_empty_l (s : string) : EmptyString +:+ s = s.
Proof. reflexivity. Qed.

Lemma append_inj_l (p s t : string) : p +:+ s = p +:+ t → s = t.
Proof.
  induction p as [|c p IH]; [done|].
  rewrite !append_String. intros [=]. auto.
Qed.

Lemma eqb_false_iff (s t : string) : String.eqb s t = false ↔ s ≠ t.
Proof. apply String.eqb_neq. Qed.

Lemma length_append (s t : string) :
  String.length (s +:+ t) = String.length s + String.length t.
Proof. induction s as [|c s IH]; [done|]. rewrite append_String. simpl. lia. Qed.

Lemma length_rev_string (s : string) :
  String.length (rev_string s) = String.length s.
Proof.
  induction s as [|c s IH]; [done|]. simpl. rewrite length_append, IH.
  simpl. lia.
Qed.

Lemma length_slice_to (n : nat) (s : string) :
  String.length (slice_to n s) ≤ n.
Proof.
  revert s. induction n as [|n IH]; intros [|c s]; simpl; try lia.
  specialize (IH s). lia.
Qed.

Lemma length_slice_from (n : nat) (s : string) :
  String.length (slice_from n s) = String.length s - n.
Proof.
  revert s. induction n as [|n IH]; intros [|c s]; simpl; try lia. apply IH.
Qed.

Lemma length_prefix (p s : string) :
  String.prefix p s = true → String.length p ≤ String.length s.
Proof.
  revert s. induction p as [|c p IH]; intros [|d s]; simpl; try lia; try done.
  destruct (ascii_dec c d); [|done]. intros H%IH. lia.
Qed.

Lemma length_TrimLeft (s : string) (c : ascii) :
  String.length (TrimLeft s c) ≤ String.length s.
Proof.
  induction s as [|a s IH]; simpl; [lia|].
  destruct (Ascii.eqb a c); simpl; lia.
Qed.

Lemma length_TrimRight (s : string) (c : ascii) :
  String.length (TrimRight s c) ≤ String.length s.
Proof.
  unfold TrimRight. rewrite length_rev_string.
  etrans; [apply length_TrimLeft|]. by rewrite length_rev_string.
Qed.

Lemma Index_unfold (s substr : string) :
  Index s substr =
    if String.prefix substr s then Some O
    else match s with
         | EmptyString => None
         | String _ s' => S <$> Index s' substr
         end.
Proof. by destruct s. Qed.

Lemma Index_bound (s substr : string) (start : nat) :
  Index s substr = Some start →
  start + String.length substr ≤ String.length s.
Proof.
  revert start. induction s as [|c s IH]; intros start; rewrite Index_unfold.
  - destruct (String.prefix substr EmptyString) eqn:Hp; [|done].
    intros [= <-]. apply length_prefix in Hp. simpl in *. lia.
  - destruct (String.prefix substr (String c s)) eqn:Hp.
    + intros [= <-]. apply length_prefix in Hp. simpl in *. lia.
    + destruct (Index s substr) as [n|]; [|done]. simpl. intros [= <-].
      specialize (IH n eq_refl). lia.
Qed.

(** *** The loops with a bound on their rounds run to their end *)

Lemma strip_rune_shorter (runes : list string) (s s' : string) :
  Forall (fun r => r ≠ EmptyString) runes →
  strip_rune runes s = Some s' → String.length s' < String.length s.
Proof.
  induction 1 as [|r runes Hr _ IH]; simpl; [done|].
  destruct (String.prefix r s) eqn:Hp; [|done].
  intros [= <-]. rewrite length_slice_from. apply length_prefix in Hp.
  destruct r; [done|]. simpl in *. lia.
Qed.

(** What [TrimLeftSpace] and [TrimRightSpace] return begins, for the one,
    and ends, for the other, with no white space rune. *)
Lemma trim_left_runes_done (runes : list string) (fuel : nat) (s : string) :
  Forall (fun r => r ≠ EmptyString) runes →
  String.length s ≤ fuel →
  strip_rune runes (trim_left_runes fuel runes s) = None.
Proof.
  intros Hr. revert s. induction fuel as [|fuel IH]; intros s Hlen; simpl.
  - destruct (strip_rune runes s) as [s'|] eqn:Hs; [|done].
    apply strip_rune_shorter in Hs; [lia|done].
  - destruct (strip_rune runes s) as [s'|] eqn:Hs; [|done].
    apply IH. apply strip_rune_shorter in Hs; [lia|done].
Qed.

Lemma space_runes_nonempty :
  Forall (fun r => r ≠ EmptyString) space_runes
  ∧ Forall (fun r => r ≠ EmptyString) (rev_string <$> space_runes).
Proof. split; by vm_compute; repeat constructor. Qed.

Lemma rev_string_app_char (s : string) (c : ascii) :
  rev_string (s +:+ String c EmptyString) = String c (rev_string s).
Proof.
  induction s as [|a s IH]; [done|].
  rewrite append_String. simpl. by rewrite IH.
Qed.

Lemma rev_string_involutive (s : string) : rev_string (rev_string s) = s.
Proof.
  induction s as [|c s IH]; [done|].
  simpl. by rewrite rev_string_app_char, IH.
Qed.

Lemma TrimLeftSpace_done (s : string) :
  strip_rune space_runes (TrimLeftSpace s) = None.
Proof.
  apply trim_left_runes_done; [apply space_runes_nonempty|done].
Qed.

Lemma TrimRightSpace_done (s : string) :
  strip_rune (rev_string <$> space_runes) (rev_string (TrimRightSpace s))
  = None.
Proof.
  unfold TrimRightSpace. rewrite rev_string_involutive.
  apply trim_left_runes_done; [apply space_runes_nonempty|].
  by rewrite length_rev_string.
Qed.

Lemma scan_key_length (tag key rest : string) :
  structtag.scan_key tag = (key, rest) →
  String.length key + String.length rest = String.length tag.
Proof.
  revert key rest. induction tag as [|c tag IH]; intros key rest; simpl.
  - by intros [= <- <-].
  - destruct (structtag.key_byte c).
    + destruct (structtag.scan_key tag) as [k r]. intros [= <- <-].
      specialize (IH k r eq_refl). simpl. lia.
    + intros [= <- <-]. simpl. lia.
Qed.

Lemma scan_quoted_shorter (tag v rest : string) :
  structtag.scan_quoted tag = Some (v, rest) →
  String.length rest < String.length tag.
Proof.
  remember (String.length tag) as n eqn:Hn.
  assert (String.length tag ≤ n) as Hle by lia. clear Hn.
  revert tag v rest Hle. induction n as [|n IH]; intros tag v rest Hle.
  { by destruct tag; [|simpl in Hle; lia]. }
  destruct tag as [|c tag]; simpl; [done|]. simpl in Hle.
  destruct (Ascii.eqb c structtag.dquote).
  { intros [= <- <-]. lia. }
  destruct (Ascii.eqb c structtag.backslash).
  - destruct tag as [|d tag]; [done|]. simpl in Hle.
    destruct (structtag.scan_quoted tag) as [[v' rest']|] eqn:Hs; [|done].
    simpl. intros [= <- <-]. apply IH in Hs; simpl; lia.
  - destruct (structtag.scan_quoted tag) as [[v' rest']|] eqn:Hs; [|done].
    simpl. intros [= <- <-]. apply IH in Hs; simpl; lia.
Qed.

(** The result of [Parse] does not depend on the bound, once it is the
    length of the tag. *)
Lemma parse_loop_fuel (Unquote : string → option string) (fuel1 fuel2 : nat)
    (tag : string) (tags : list structtag.Tag) :
  String.length tag ≤ fuel1 → String.length tag ≤ fuel2 →
  structtag.parse_loop Unquote fuel1 tag tags
  = structtag.parse_loop Unquote fuel2 tag tags.
Proof.
  revert fuel2 tag tags.
  induction fuel1 as [|fuel1 IH]; intros fuel2 tag tags H1 H2.
  - destruct tag; [|simpl in H1; lia]. by destruct fuel2.
  - destruct fuel2 as [|fuel2].
    { destruct tag; [done|simpl in H2; lia]. }
    simpl. pose proof (length_TrimLeft tag " ") as Htrim.
    destruct (String.eqb (TrimLeft tag " ") EmptyString); [done|].
    destruct (structtag.scan_key (TrimLeft tag " ")) as [key rest] eqn:Hk.
    apply scan_key_length in Hk.
    destruct (String.eqb key EmptyString); [done|].
    destruct rest as [|c0 [|q rest']]; try done.
    destruct c0 as [[] [] [] [] [] [] [] []]; try done.
    destruct (Ascii.eqb q structtag.dquote); [|done].
    destruct (structtag.scan_quoted rest') as [[v tag']|] eqn:Hq; [|done].
    apply scan_quoted_shorter in Hq. simpl.
    destruct (Unquote _) as [value|]; [|done]. simpl.
    destruct (Split value ","); [done|].
    apply IH; simpl in *; lia.
Qed.

Lemma scan_end_bounds (fuel : nat) (result : string) (end_ depth : nat) :
  end_ ≤ scan_end fuel result end_ depth.
Proof.
  revert end_ depth. induction fuel as [|fuel IH]; intros end_ depth; simpl;
    [lia|].
  destruct ((end_ <? String.length result)%nat && (0 <? depth)%nat); [|lia].
  etrans; [|apply IH]. lia.
Qed.

(** ** Maps filled from lists *)

Lemma lookup_last_cons {A} (key : A → string) k x (l : list A) :
  lookup_last key k (x :: l) =
    match lookup_last key k l with
    | Some y => Some y
    | None => if decide (key x = k) then Some x else None
    end.
Proof.
  unfold lookup_last. rewrite filter_cons.
  destruct (decide (key x = k)) as [He|He].
  - destruct (filter _ l) as [|y l'] eqn:Hf; [done|].
    rewrite last_cons. by destruct (last (y :: l')).
  - by destruct (last _).
Qed.

Lemma lookup_last_app {A} (key : A → string) k (l1 l2 : list A) :
  lookup_last key k (l1 ++ l2) =
    match lookup_last key k l2 with
    | Some y => Some y
    | None => lookup_last key k l1
    end.
Proof.
  induction l1 as [|x l1 IH]; simpl.
  - by destruct (lookup_last key k l2).
  - rewrite !lookup_last_cons, IH. by destruct (lookup_last key k l2).
Qed.

Lemma lookup_last_None {A} (key : A → string) k (l : list A) :
  lookup_last key k l = None ↔ ∀ x, x ∈ l → key x ≠ k.
Proof.
  induction l as [|x l IH].
  - split; [intros _ y Hy; inversion Hy|done].
  - rewrite lookup_last_cons. split.
    + intros H y Hy. destruct (lookup_last key k l) eqn:Hl; [done|].
      destruct (decide (key x = k)); [done|].
      apply elem_of_cons in Hy as [->|Hy]; [done|]. by apply IH.
    + intros H.
      assert (lookup_last key k l = None) as ->
        by (apply IH; intros y Hy; apply H; by right).
      rewrite decide_False; [done|]. apply H. by left.
Qed.

Lemma lookup_last_Some_elem {A} (key : A → string) k (l : list A) x :
  lookup_last key k l = Some x → x ∈ l ∧ key x = k.
Proof.
  unfold lookup_last. intros H.
  assert (x ∈ filter (fun x => key x = k) l) as Hx.
  { apply last_Some in H as [l' ->]. apply elem_of_app. right. by left. }
  by apply list_elem_of_filter in Hx as [? ?].
Qed.

Lemma lookup_last_NoDup {A} (key : A → string) (l : list A) x :
  NoDup (key <$> l) → x ∈ l → lookup_last key (key x) l = Some x.
Proof.
  induction l as [|y l IH]; [intros _ H; inversion H|].
  rewrite fmap_cons, NoDup_cons. intros [Hy Hl] Hx.
  rewrite lookup_last_cons.
  apply elem_of_cons in Hx as [->|Hx].
  - assert (lookup_last key (key y) l = None) as ->.
    { apply lookup_last_None. intros z Hz Heq. apply Hy.
      rewrite <- Heq. by apply list_elem_of_fmap_2. }
    by rewrite decide_True.
  - by rewrite IH.
Qed.

Lemma build_map_lookup {A} (key : A → string) (l : list A)
    (m : gmap string A) k :
  foldl (fun m f => <[key f := f]> m) m l !! k =
    match lookup_last key k l with
    | Some x => Some x
    | None => m !! k
    end.
Proof.
  revert m. induction l as [|x l IH]; intros m; simpl; [done|].
  rewrite IH, lookup_last_cons.
  destruct (lookup_last key k l); [done|].
  destruct (decide (key x = k)) as [<-|Hne].
  - by rewrite lookup_insert_eq.
  - by rewrite lookup_insert_ne.
Qed.

Lemma build_map_lookup_empty {A} (key : A → string) (l : list A) k :
  foldl (fun m f => <[key f := f]> m) (∅ : gmap string A) l !! k
  = lookup_last key k l.
Proof.
  rewrite build_map_lookup, lookup_empty. by destruct (lookup_last key k l).
Qed.

Lemma in_set_make_set_from (keys : list string) (m : gmap string bool)
    (k : string) :
  in_set (foldl (fun m t => <[t := true]> m) m keys) k = true
  ↔ k ∈ keys ∨ in_set m k = true.
Proof.
  unfold in_set. revert m.
  induction keys as [|t keys IH]; intros m; simpl.
  - split; [by right|]. intros [H|H]; [inversion H|done].
  - rewrite IH, elem_of_cons. destruct (decide (t = k)) as [->|Hne].
    + rewrite lookup_insert_eq. simpl.
      split; [intros _; left; by left|intros _; by right].
    + rewrite lookup_insert_ne by done.
      split; [intros [?|?]; auto|intros [[?|?]|?]; auto; congruence].
Qed.

Lemma in_set_make_set (keys : list string) (k : string) :
  in_set (make_set keys) k = true ↔ k ∈ keys.
Proof.
  unfold make_set. rewrite in_set_make_set_from.
  unfold in_set. rewrite lookup_empty. simpl.
  split; [intros [?|?]; done|by left].
Qed.

(** ** The diff engine in closed form *)

Lemma DiffResult_eta (r : DiffResult) :
  r = {| DiffStructName := DiffStructName r; HasChanges := HasChanges r;
         Lines := Lines r |}.
Proof. by destruct r. Qed.

Lemma ComputeDiff_source_step (m : gmap string ParsedField)
    (target : list ParsedField) (r : DiffResult) (sf : TransformedField) :
  (∀ k, m !! k = lookup_last fieldKey k target) →
  ComputeDiff_source m r sf =
    {| DiffStructName := DiffStructName r;
       HasChanges := HasChanges r || (included sf && source_changed target sf);
       Lines := Lines r ++ (if included sf then source_entry target sf else []) |}.
Proof.
  intros Hm. unfold ComputeDiff_source, included, source_changed, source_entry.
  rewrite Hm. destruct (ShouldExclude sf); simpl.
  - rewrite orb_false_r, app_nil_r. apply DiffResult_eta.
  - destruct (lookup_last fieldKey (tfieldKey sf) target) as [tf|]; simpl.
    + destruct (String.eqb (formatField tf) (formatTransformedField sf)); simpl.
      * by rewrite orb_false_r.
      * by rewrite orb_true_r, <- app_assoc.
    + by rewrite orb_true_r.
Qed.

Lemma ComputeDiff_source_fold (m : gmap string ParsedField)
    (target : list ParsedField) (l : list TransformedField) (r : DiffResult) :
  (∀ k, m !! k = lookup_last fieldKey k target) →
  foldl (ComputeDiff_source m) r l =
    {| DiffStructName := DiffStructName r;
       HasChanges :=
         HasChanges r || existsb (source_changed target) (filter included l);
       Lines := Lines r ++ concat (source_entry target <$> filter included l) |}.
Proof.
  intros Hm. revert r. induction l as [|sf l IH]; intros r; simpl.
  - rewrite orb_false_r, app_nil_r. apply DiffResult_eta.
  - rewrite IH, (ComputeDiff_source_step m target) by done. simpl.
    rewrite filter_cons. destruct (included sf); simpl.
    + destruct (HasChanges r); simpl; by rewrite <- ?app_assoc.
    + by rewrite orb_false_r, app_nil_r.
Qed.

Lemma ComputeDiff_target_step (m : gmap string TransformedField)
    (source : list TransformedField) (r : DiffResult) (tf : ParsedField) :
  (∀ k, m !! k = lookup_last tfieldKey k source) →
  ComputeDiff_target m r tf =
    {| DiffStructName := DiffStructName r;
       HasChanges := HasChanges r || pending_removal source tf;
       Lines := Lines r ++ (if pending_removal source tf
                            then [removed_line tf] else []) |}.
Proof.
  intros Hm. unfold ComputeDiff_target, pending_removal. rewrite Hm.
  destruct (lookup_last tfieldKey (fieldKey tf) source) as [sf|]; simpl.
  - rewrite orb_false_r, app_nil_r. apply DiffResult_eta.
  - destruct (isFieldCommented tf); simpl.
    + rewrite orb_false_r, app_nil_r. apply DiffResult_eta.
    + by rewrite orb_true_r.
Qed.

Lemma ComputeDiff_target_fold (m : gmap string TransformedField)
    (source : list TransformedField) (l : list ParsedField) (r : DiffResult) :
  (∀ k, m !! k = lookup_last tfieldKey k source) →
  foldl (ComputeDiff_target m) r l =
    {| DiffStructName := DiffStructName r;
       HasChanges := HasChanges r || existsb (pending_removal source) l;
       Lines := Lines r ++ (removed_line <$> filter (pending_removal source) l) |}.
Proof.
  intros Hm. revert r. induction l as [|tf l IH]; intros r; simpl.
  - rewrite orb_false_r, app_nil_r. apply DiffResult_eta.
  - rewrite IH, (ComputeDiff_target_step m source) by done. simpl.
    rewrite filter_cons. destruct (pending_removal source tf); simpl.
    + destruct (HasChanges r); simpl; by rewrite <- ?app_assoc.
    + by rewrite orb_false_r, app_nil_r.
Qed.

Lemma ComputeDiff_closed_form (targetStruct : ParsedStruct)
    (transformed : TransformResult) :
  ComputeDiff targetStruct transformed =
    {| DiffStructName := StructName targetStruct;
       HasChanges :=
         existsb (source_changed (Fields targetStruct))
                 (filter included (ResultFields transformed))
         || existsb (pending_removal (ResultFields transformed))
                    (Fields targetStruct);
       Lines :=
         ComputeDiff_header targetStruct
           :: concat (source_entry (Fields targetStruct)
                        <$> filter included (ResultFields transformed))
           ++ (removed_line
                 <$> filter (pending_removal (ResultFields transformed))
                       (Fields targetStruct))
           ++ [ {| LineType := DiffUnchanged; Content := "}" |} ] |}.
Proof.
  unfold ComputeDiff.
  rewrite (ComputeDiff_source_fold _ (Fields targetStruct))
    by (intros k; apply build_map_lookup_empty).
  rewrite (ComputeDiff_target_fold _ (ResultFields transformed))
    by (intros k; apply build_map_lookup_empty).
  simpl. by rewrite <- !app_assoc.
Qed.

(** C6.  The lines of a diff follow the two ordered field lists: the
    unchanged header, the entries of the upstream fields that are not
    excluded, in upstream order, then one removed line for each pending
    removal, in target order, then the unchanged closing brace.  Upstream
    [A, B, C] against a target holding [B] with another type gives the
    header, [A] added, [B] removed, [B] added, [C] added, the footer. *)
Theorem diff_line_order (targetStruct : ParsedStruct)
    (transformed : TransformResult) :
  Lines (ComputeDiff targetStruct transformed) =
    {| LineType := DiffUnchanged;
       Content := ("type " +:+ StructName targetStruct) +:+ " struct {" |}
      :: concat (source_entry (Fields targetStruct)
                   <$> filter included (ResultFields transformed))
      ++ (removed_line
            <$> filter (pending_removal (ResultFields transformed))
                  (Fields targetStruct))
      ++ [ {| LineType := DiffUnchanged; Content := "}" |} ]
  ∧ Lines (ComputeDiff sample_target_B sample_upstream_ABC) =
      [ {| LineType := DiffUnchanged; Content := "type T struct {" |};
        {| LineType := DiffAdded; Content := String "009" "A int" |};
        {| LineType := DiffRemoved; Content := String "009" "B int" |};
        {| LineType := DiffAdded; Content := String "009" "B string" |};
        {| LineType := DiffAdded; Content := String "009" "C bool" |};
        {| LineType := DiffUnchanged; Content := "}" |} ].
Proof.
  split; [|by vm_compute].
  by rewrite ComputeDiff_closed_form.
Qed.

(** ** Fields that are commented out *)

Lemma isFieldCommented_loop_elem (comments : list string) (c : string) :
  c ∈ comments →
  HasPrefix (TrimSpace c) "//" = true →
  HasPrefix (TrimSpace (TrimPrefix (TrimSpace c) "//")) "*" = true
  ∨ Contains (TrimSpace (TrimPrefix (TrimSpace c) "//")) "." = true →
  isFieldCommented_loop comments = true.
Proof.
  intros Hc Hp Hd. induction comments as [|c' comments IH]; [inversion Hc|].
  simpl. apply elem_of_cons in Hc as [<-|Hc].
  - rewrite Hp. by destruct Hd as [-> | ->]; rewrite ?orb_true_r.
  - rewrite IH by done. by repeat case_match.
Qed.

Lemma lookup_last_insert_other {A} (key : A → string) k x (l1 l2 : list A) :
  key x ≠ k →
  lookup_last key k (l1 ++ x :: l2) = lookup_last key k (l1 ++ l2).
Proof.
  intros Hne. rewrite !lookup_last_app, lookup_last_cons.
  destruct (lookup_last key k l2); [done|].
  by rewrite decide_False.
Qed.

Lemma existsb_ext_elem {A} (f g : A → bool) (l : list A) :
  (∀ x, x ∈ l → f x = g x) → existsb f l = existsb g l.
Proof.
  induction l as [|x l IH]; intros H; simpl; [done|].
  rewrite H by (by left). rewrite IH; [done|].
  intros y Hy. apply H. by right.
Qed.

Lemma fmap_ext_elem {A B} (f g : A → B) (l : list A) :
  (∀ x, x ∈ l → f x = g x) → f <$> l = g <$> l.
Proof.
  induction l as [|x l IH]; intros H; [done|].
  rewrite !fmap_cons. f_equal; [apply H; by left|].
  apply IH. intros y Hy. apply H. by right.
Qed.

(** C10.  A target field that no upstream field matches and that has a
    comment line which, once its comment prefix is stripped, begins with a
    star or holds a dot anywhere, leaves no trace in the diff: the result is
    the one computed without the field, lines and [HasChanges] alike. *)
Theorem commented_field_leaves_no_trace (name : string)
    (structComments : list string) (before after : list ParsedField)
    (tf : ParsedField) (transformed : TransformResult) (c : string) :
  (∀ sf, sf ∈ ResultFields transformed → tfieldKey sf ≠ fieldKey tf) →
  c ∈ Comments tf →
  HasPrefix (TrimSpace c) "//" = true →
  HasPrefix (TrimSpace (TrimPrefix (TrimSpace c) "//")) "*" = true
  ∨ Contains (TrimSpace (TrimPrefix (TrimSpace c) "//")) "." = true →
  ComputeDiff {| StructName := name; Fields := before ++ tf :: after;
                 StructComments := structComments |} transformed
  = ComputeDiff {| StructName := name; Fields := before ++ after;
                   StructComments := structComments |} transformed.
Proof.
  intros Honly Hc Hp Hd. rewrite !ComputeDiff_closed_form. simpl.
  assert (pending_removal (ResultFields transformed) tf = false) as Hpend.
  { unfold pending_removal, isFieldCommented.
    rewrite (isFieldCommented_loop_elem _ c) by done.
    by rewrite andb_false_r. }
  assert (∀ sf, sf ∈ filter included (ResultFields transformed) →
            lookup_last fieldKey (tfieldKey sf) (before ++ tf :: after)
            = lookup_last fieldKey (tfieldKey sf) (before ++ after)) as Hlook.
  { intros sf Hsf. apply list_elem_of_filter in Hsf as [_ Hsf].
    apply lookup_last_insert_other. intros Heq. by apply (Honly sf). }
  f_equal.
  - f_equal.
    + apply existsb_ext_elem. intros sf Hsf.
      unfold source_changed. by rewrite Hlook.
    + rewrite !existsb_app. simpl. by rewrite Hpend.
  - unfold ComputeDiff_header. simpl. f_equal. f_equal; [|f_equal].
    + f_equal. apply fmap_ext_elem. intros sf Hsf.
      unfold source_entry. by rewrite Hlook.
    + rewrite !filter_app, filter_cons, Hpend.
      by rewrite decide_False by (intros []).
Qed.

(** ** Type expressions *)

Lemma exprToString_cloneExpr (e : Expr) :
  exprToString (cloneExpr e) = exprToString e.
Proof.
  induction e as [ | | x IHx | x IHx sel | len IHlen elt IHelt
                 | key IHkey value IHvalue | | | | | | | | ];
    simpl; try congruence.
  destruct len; by rewrite IHelt.
Qed.

Lemma extractField_type (field : Field) (pf : ParsedField) :
  pf ∈ extractField field →
  TypeExpr pf = Field_Type field ∧ Type_ pf = exprToString (Field_Type field).
Proof.
  unfold extractField. destruct (Field_Names field) as [|n ns].
  - intros ->%list_elem_of_singleton. done.
  - intros (name & -> & _)%list_elem_of_fmap. done.
Qed.

(** C9, as the code has it.  The text of a type is put together from the
    texts of its parts for pointers, qualified names, slices and maps; an
    array of any length is written with [[...]] in place of its length; an
    inline interface or struct is written with an empty body, and cloned
    with an empty body; any other kind of expression is written as the name
    of its node type, whatever it holds, and its clone is the expression
    itself.  A clone has the text of its original, and an extracted field
    keeps the expression next to its text. *)
Theorem type_rendering (e : Expr) :
  exprToString (cloneExpr e) = exprToString e
  ∧ match e with
    | Ident name => exprToString e = name
    | StarExpr x => exprToString e = "*" +:+ exprToString x
    | SelectorExpr x sel => exprToString e = exprToString x +:+ "." +:+ sel
    | ArrayType NilExpr elt => exprToString e = "[]" +:+ exprToString elt
    | ArrayType _ elt => exprToString e = "[...]" +:+ exprToString elt
    | MapType key value =>
        exprToString e
        = "map[" +:+ exprToString key +:+ "]" +:+ exprToString value
    | InterfaceType _ =>
        exprToString e = "interface{}" ∧ cloneExpr e = InterfaceType []
    | StructType _ =>
        exprToString e = "struct{}" ∧ cloneExpr e = StructType []
    | _ => exprToString e = Sprintf_T e ∧ cloneExpr e = e
    end
  ∧ ∀ names tag before start,
      Forall (fun pf => TypeExpr pf = e ∧ Type_ pf = exprToString e)
             (extractField (mkField names e tag before start)).
Proof.
  split; [apply exprToString_cloneExpr|]. split.
  - destruct e as [ | | | | len elt | | | | | | | | | ]; try done.
    by destruct len.
  - intros names tag before start. apply Forall_forall. intros pf Hpf.
    by apply extractField_type in Hpf.
Qed.

(** ** The transformer, field by field *)

Lemma merge_results_empty_l (d : TransformResult) :
  merge_results emptyTransformResult d = d.
Proof. by destruct d. Qed.

Lemma merge_results_empty_r (r : TransformResult) :
  merge_results r emptyTransformResult = r.
Proof.
  destruct r. unfold merge_results. simpl.
  by rewrite !app_nil_r, Nat.add_0_r.
Qed.

Lemma merge_results_assoc (a b c : TransformResult) :
  merge_results (merge_results a b) c = merge_results a (merge_results b c).
Proof.
  unfold merge_results. simpl. by rewrite !app_assoc, Nat.add_assoc.
Qed.

Lemma TransformStruct_field_delta (opts : TransformOpts)
    (result : TransformResult) (field : ParsedField) :
  TransformStruct_field opts (make_set (ExcludeEmbedded opts))
    (make_set (RemoveTags opts)) result field
  = merge_results result <$> field_delta opts field.
Proof.
  unfold TransformStruct_field, field_delta, merge_results, retained_field.
  destruct (IsEmbedded field && _); simpl.
  { by rewrite Nat.add_0_r, app_nil_r. }
  destruct (shouldExcludeField (Tags field)) as [[|]|]; simpl; [| |done].
  { by rewrite Nat.add_0_r, app_nil_r. }
  destruct (transformTags _ _) as [[newTags [|]]|]; simpl; [| |done].
  - rewrite app_nil_r, Nat.add_1_r.
    by destruct (TypeMappings opts !! Type_ field).
  - rewrite app_nil_r, Nat.add_0_r.
    by destruct (TypeMappings opts !! Type_ field).
Qed.

Lemma TransformStruct_loop_frame (opts : TransformOpts)
    (result : TransformResult) (fields : list ParsedField) :
  TransformStruct_loop opts (make_set (ExcludeEmbedded opts))
    (make_set (RemoveTags opts)) result fields
  = merge_results result
      <$> TransformStruct_loop opts (make_set (ExcludeEmbedded opts))
            (make_set (RemoveTags opts)) emptyTransformResult fields.
Proof.
  revert result. induction fields as [|f fields IH]; intros result; simpl.
  - by rewrite merge_results_empty_r.
  - rewrite !TransformStruct_field_delta.
    destruct (field_delta opts f) as [d|]; simpl; [|done].
    rewrite IH, (IH (merge_results emptyTransformResult d)).
    destruct (TransformStruct_loop _ _ _ emptyTransformResult fields); simpl;
      [|done].
    by rewrite merge_results_empty_l, merge_results_assoc.
Qed.

Lemma TransformStruct_cons (name : string) (comments : list string)
    (f : ParsedField) (fields : list ParsedField) (opts : TransformOpts) :
  TransformStruct {| StructName := name; Fields := f :: fields;
                     StructComments := comments |} opts
  = d ← field_delta opts f;
    merge_results d
      <$> TransformStruct {| StructName := name; Fields := fields;
                             StructComments := comments |} opts.
Proof.
  unfold TransformStruct. simpl. rewrite TransformStruct_field_delta.
  destruct (field_delta opts f) as [d|]; simpl; [|done].
  by rewrite merge_results_empty_l, TransformStruct_loop_frame.
Qed.

Lemma TransformStruct_app (name : string) (comments : list string)
    (l1 l2 : list ParsedField) (opts : TransformOpts) :
  TransformStruct {| StructName := name; Fields := l1 ++ l2;
                     StructComments := comments |} opts
  = d1 ← TransformStruct {| StructName := name; Fields := l1;
                            StructComments := comments |} opts;
    merge_results d1
      <$> TransformStruct {| StructName := name; Fields := l2;
                             StructComments := comments |} opts.
Proof.
  induction l1 as [|f l1 IH].
  - simpl. destruct (TransformStruct _ opts) as [d|]; simpl; [|done].
    by rewrite merge_results_empty_l.
  - rewrite <- app_comm_cons, !TransformStruct_cons, IH.
    destruct (field_delta opts f) as [d|]; simpl; [|done].
    destruct (TransformStruct {| Fields := l1 |} opts) as [d1|]; simpl; [|done].
    destruct (TransformStruct {| Fields := l2 |} opts) as [d2|]; simpl; [|done].
    by rewrite merge_results_assoc.
Qed.

Lemma field_delta_fields (opts : TransformOpts) (f : ParsedField)
    (d : TransformResult) :
  field_delta opts f = Some d →
  ResultFields d = []
  ∨ ∃ newTags modified,
      transformTags (Tags f) (make_set (RemoveTags opts))
        = Some (newTags, modified)
      ∧ ResultFields d = [retained_field opts f newTags modified].
Proof.
  unfold field_delta. destruct (IsEmbedded f && _).
  { intros [= <-]. by left. }
  destruct (shouldExcludeField (Tags f)) as [[|]|]; simpl; [| |done].
  { intros [= <-]. by left. }
  destruct (transformTags _ _) as [[newTags modified]|]; simpl; [|done].
  intros [= <-]. right. by exists newTags, modified.
Qed.

(** Every field of the result is a field of the declaration, kept in
    order, not marked excluded, its new type looked up under its own type
    text. *)
Lemma TransformStruct_fields (name : string) (comments : list string)
    (fields : list ParsedField) (opts : TransformOpts) (tr : TransformResult) :
  TransformStruct {| StructName := name; Fields := fields;
                     StructComments := comments |} opts = Some tr →
  sublist (Parsed <$> ResultFields tr) fields
  ∧ Forall (fun tf : TransformedField =>
              ShouldExclude tf = false
              ∧ NewType tf = default (Type_ tf) (TypeMappings opts !! Type_ tf))
           (ResultFields tr).
Proof.
  revert tr. induction fields as [|f fields IH]; intros tr.
  - intros [= <-]. simpl. split; [constructor|constructor].
  - rewrite TransformStruct_cons.
    destruct (field_delta opts f) as [d|] eqn:Hd; simpl; [|done].
    destruct (TransformStruct _ opts) as [tr'|]; simpl; [|done].
    intros [= <-]. destruct (IH tr' eq_refl) as [Hsub Hall]. simpl.
    apply field_delta_fields in Hd as [->|(newTags & modified & _ & ->)]; simpl.
    + split; [by apply sublist_cons|done].
    + split; [by apply sublist_skip|]. by constructor.
Qed.

(** ** The builder in closed form *)

Lemma BuildResult_eta (r : BuildResult) : r = {| BuildFields := BuildFields r |}.
Proof. by destruct r. Qed.

Lemma BuildFieldsFromTransform_closed_form (transformed : TransformResult)
    (existingFields : list ParsedField) (opts : MergeOptions) :
  BuildFields (BuildFieldsFromTransform transformed existingFields opts) =
    (buildField <$> filter included (ResultFields transformed))
    ++ (if MarkDeprecated opts then
          (fun ef => buildDeprecatedField ef (DeprecationMessage opts)
                       (MergeRemoveTags opts))
            <$> filter (target_only (ResultFields transformed)) existingFields
        else []).
Proof.
  unfold BuildFieldsFromTransform.
  set (m := foldl _ ∅ (ResultFields transformed)).
  assert (∀ k, m !! k
               = lookup_last (fun tf : TransformedField => buildKey tf) k
                   (ResultFields transformed)) as Hm
    by (intros k; apply build_map_lookup_empty).
  assert (∀ l r,
            BuildFields
              (foldl (fun result (tf : TransformedField) =>
                        if ShouldExclude tf then result
                        else {| BuildFields := BuildFields result ++ [buildField tf] |})
                     r l)
            = BuildFields r ++ (buildField <$> filter included l)) as H1.
  { induction l as [|tf l IH]; intros r; simpl.
    - by rewrite app_nil_r.
    - rewrite IH, filter_cons.
      destruct (ShouldExclude tf) eqn:Hex.
      + by rewrite decide_False by (unfold included; rewrite Hex; intros []).
      + rewrite decide_True by (unfold included; by rewrite Hex).
        simpl. by rewrite <- app_assoc. }
  generalize (foldl (fun result (tf : TransformedField) =>
                       if ShouldExclude tf then result
                       else {| BuildFields := BuildFields result ++ [buildField tf] |})
                    {| BuildFields := [] |} (ResultFields transformed))
    (H1 (ResultFields transformed) {| BuildFields := [] |}).
  simpl. intros r0 <-. clear H1.
  revert r0. induction existingFields as [|ef l IH]; intros r0; simpl.
  - destruct (MarkDeprecated opts); by rewrite app_nil_r.
  - rewrite IH, filter_cons, Hm.
    destruct (lookup_last _ (buildKey ef) (ResultFields transformed)) eqn:Hl.
    + by rewrite decide_False
        by (unfold target_only; rewrite Hl; simpl; intros []).
    + rewrite decide_True by (unfold target_only; by rewrite Hl).
      destruct (MarkDeprecated opts); simpl; [|done].
      by rewrite <- app_assoc.
Qed.

Lemma extractFields_concat (fieldList : list Field) :
  extractFields fieldList = concat (extractField <$> fieldList).
Proof.
  unfold extractFields.
  assert (∀ acc, foldl (fun fields field => fields ++ extractField field)
                   acc fieldList
                 = acc ++ concat (extractField <$> fieldList)) as H.
  { induction fieldList as [|f l IH]; intros acc; simpl.
    - by rewrite app_nil_r.
    - by rewrite IH, app_assoc. }
  by rewrite H.
Qed.

Lemma extractField_buildField (tf : TransformedField) :
  extractField (buildField tf) = [reextracted tf].
Proof.
  unfold extractField, reextracted, buildField. simpl.
  assert (default EmptyString
            (if negb (String.eqb (NewTags tf) EmptyString)
             then Some (NewTags tf) else None) = NewTags tf) as ->.
  { destruct (String.eqb_spec (NewTags tf) EmptyString) as [->|]; done. }
  assert ((if (0 <? length (Comments tf))%nat then Comments tf else [])
          = Comments tf) as -> by (by destruct (Comments tf)).
  by destruct (IsEmbedded tf).
Qed.


(** ** The tag helper of the writer *)

(** One round of the loop that cuts a key out makes the string shorter. *)
Lemma removeKey_round_shorter (key result : string) (start : nat) :
  Index result (key_pattern key) = Some start →
  let end_ :=
    scan_end (String.length result) result (start + String.length key + 2) 1 in
  let prefix := TrimRight (slice_to start result) " " in
  let suffix := TrimLeft (slice_from end_ result) " " in
  String.length
    ((if negb (String.eqb prefix EmptyString)
         && negb (String.eqb suffix EmptyString)
      then prefix +:+ " " else prefix) +:+ suffix)
  < String.length result.
Proof.
  intros Hidx end_ prefix suffix.
  apply Index_bound in Hidx. unfold key_pattern in Hidx.
  rewrite length_append in Hidx. simpl in Hidx.
  pose proof (scan_end_bounds (String.length result) result
                (start + String.length key + 2) 1) as Hend. fold end_ in Hend.
  pose proof (length_TrimRight (slice_to start result) " ") as Hp.
  pose proof (length_slice_to start result) as Hp'. fold prefix in Hp.
  pose proof (length_TrimLeft (slice_from end_ result) " ") as Hs.
  rewrite length_slice_from in Hs. fold suffix in Hs.
  rewrite length_append.
  destruct (negb _ && negb _); rewrite ?length_append; simpl; lia.
Qed.

(** With the length of the string as the bound, the loop ends because no
    occurrence of the key is left. *)
Lemma removeKey_loop_done (fuel : nat) (key result : string) :
  String.length result ≤ fuel →
  Index (removeKey_loop fuel key result) (key_pattern key) = None.
Proof.
  revert result. induction fuel as [|fuel IH]; intros result Hlen; simpl.
  - destruct (Index result (key_pattern key)) as [start|] eqn:Hidx; [|done].
    apply Index_bound in Hidx. unfold key_pattern in Hidx.
    rewrite length_append in Hidx. simpl in Hidx. lia.
  - fold (key_pattern key).
    destruct (Index result (key_pattern key)) as [start|] eqn:Hidx; [|done].
    apply IH. pose proof (removeKey_round_shorter key result start Hidx).
    simpl in *. lia.
Qed.

(** ** Deprecated stubs *)


(** The stub of a target field: its name unless it is embedded, a new line
    before it, and the deprecation line as its only comment line. *)
Lemma buildDeprecatedField_shape (pf : ParsedField) (message : string)
    (removeTagKeys : list string) :
  Field_Names (buildDeprecatedField pf message removeTagKeys)
    = (if IsEmbedded pf then [] else [Name pf])
  ∧ Field_Before (buildDeprecatedField pf message removeTagKeys) = NewLine
  ∧ Field_Start (buildDeprecatedField pf message removeTagKeys)
    = [ "// Deprecated: "
          +:+ (if String.eqb message EmptyString then "removed from server"
               else message) ].
Proof. unfold buildDeprecatedField. simpl. by destruct (IsEmbedded pf). Qed.

Lemma NoDup_fmap_elem_eq {A} (g : A → string) (l : list A) (x y : A) :
  NoDup (g <$> l) → x ∈ l → y ∈ l → g x = g y → x = y.
Proof.
  induction l as [|a l IH]; [intros _ H; inversion H|].
  rewrite fmap_cons, NoDup_cons. intros [Ha Hl] Hx Hy Hg.
  apply elem_of_cons in Hx as [->|Hx]; apply elem_of_cons in Hy as [->|Hy];
    try done.
  - exfalso. apply Ha. rewrite Hg. by apply list_elem_of_fmap_2.
  - exfalso. apply Ha. rewrite <- Hg. by apply list_elem_of_fmap_2.
  - by apply IH.
Qed.

(** A target field whose key is the key of an upstream field that the
    transformer did not retain is kept as a deprecated stub. *)
Lemma excluded_upstream_field_becomes_stub (ps : ParsedStruct)
    (opts : TransformOpts) (tr : TransformResult) (f ef : ParsedField)
    (existingFields : list ParsedField) (mergeOpts : MergeOptions) :
  TransformStruct ps opts = Some tr →
  NoDup (buildKey <$> Fields ps) →
  f ∈ Fields ps →
  (∀ tf : TransformedField, tf ∈ ResultFields tr → Parsed tf ≠ f) →
  ef ∈ existingFields →
  buildKey ef = buildKey f →
  MarkDeprecated mergeOpts = true →
  buildDeprecatedField ef (DeprecationMessage mergeOpts)
    (MergeRemoveTags mergeOpts)
  ∈ BuildFields (BuildFieldsFromTransform tr existingFields mergeOpts).
Proof.
  destruct ps as [name fields comments]. simpl.
  intros Htr Hnd Hf Hex Hef Hkey Hmark.
  apply TransformStruct_fields in Htr as [Hsub _].
  rewrite BuildFieldsFromTransform_closed_form, Hmark.
  apply elem_of_app. right.
  apply (list_elem_of_fmap_2
           (fun ef => buildDeprecatedField ef (DeprecationMessage mergeOpts)
                        (MergeRemoveTags mergeOpts))).
  apply list_elem_of_filter.
  split; [|done]. apply Is_true_true. unfold target_only.
  apply bool_decide_eq_true, lookup_last_None. intros tf Htf Hk.
  apply (Hex tf Htf).
  apply (NoDup_fmap_elem_eq buildKey fields); [done| |done|congruence].
  eapply elem_of_sublist; [|done]. by apply list_elem_of_fmap_2.
Qed.

(** ** The second run *)

Lemma buildField_type_text (tf : TransformedField) :
  Type_ tf = exprToString (TypeExpr tf) →
  exprToString (Field_Type (buildField tf)) =
    if negb (String.eqb (NewType tf) EmptyString)
       && negb (String.eqb (NewType tf) (Type_ tf))
    then NewType tf else Type_ tf.
Proof.
  intros Hwf. unfold buildField. simpl.
  destruct (negb _ && negb _); simpl; [done|].
  by rewrite exprToString_cloneExpr.
Qed.


Lemma reextracted_format (tf : TransformedField) :
  Type_ tf = exprToString (TypeExpr tf) →
  formatField (reextracted tf) = formatTransformedField tf.
Proof.
  intros Hwf. pose proof (buildField_type_text tf Hwf) as Ht.
  unfold formatField, formatTransformedField, reextracted. simpl in *.
  rewrite Ht.
  destruct (String.eqb_spec (NewType tf) EmptyString) as [->|Hne]; simpl.
  - by destruct (IsEmbedded tf).
  - destruct (String.eqb_spec (NewType tf) (Type_ tf)) as [Heq|]; simpl;
      rewrite <- ?Heq; by destruct (IsEmbedded tf).
Qed.


Lemma filter_included_all (l : list TransformedField) :
  Forall (fun tf : TransformedField => ShouldExclude tf = false) l →
  filter included l = l.
Proof.
  induction 1 as [|tf l Htf _ IH]; [done|].
  rewrite filter_cons, decide_True, IH; [done|].
  unfold included. by rewrite Htf.
Qed.

Lemma filter_none {A} (P : A → bool) (l : list A) :
  Forall (fun x => P x = false) l → filter P l = [].
Proof.
  induction 1 as [|x l Hx _ IH]; [done|].
  rewrite filter_cons, decide_False, IH; [done|].
  rewrite Hx. intros [].
Qed.








(** ** Tags that do not parse *)

Lemma field_delta_malformed (opts : TransformOpts) (f : ParsedField) :
  structtag.Parse strconv_Unquote (Trim (Tags f) "`") = structtag.ParseError →
  field_delta opts f =
    Some (if IsEmbedded f
             && in_set (make_set (ExcludeEmbedded opts)) (Type_ f)
          then {| ResultFields := []; ExcludedFields := [Type_ f];
                  ModifiedTags := 0 |}
          else {| ResultFields := [retained_field opts f EmptyString false];
                  ExcludedFields := []; ModifiedTags := 0 |}).
Proof.
  intros Hparse. unfold field_delta.
  destruct (IsEmbedded f && _); [done|].
  assert (shouldExcludeField (Tags f) = Some false) as ->.
  { unfold shouldExcludeField. rewrite Hparse. by repeat case_match. }
  simpl. unfold transformTags. rewrite Hparse.
  by repeat case_match.
Qed.

(** C4.  A field whose tag does not parse as pairs of a key and a quoted
    value does not make the transformer fail, is not counted as modified,
    and, unless it is an excluded embedded field, is retained with its tag
    byte for byte: the result is the one of the declaration without the
    field, with the same count, and the field in it. *)
Theorem malformed_tag_passes_through (name : string)
    (comments : list string) (before after : list ParsedField)
    (f : ParsedField) (opts : TransformOpts) (without : TransformResult) :
  structtag.Parse strconv_Unquote (Trim (Tags f) "`") = structtag.ParseError →
  TransformStruct {| StructName := name; Fields := before ++ after;
                     StructComments := comments |} opts = Some without →
  ∃ tr,
    TransformStruct {| StructName := name; Fields := before ++ f :: after;
                       StructComments := comments |} opts = Some tr
    ∧ ModifiedTags tr = ModifiedTags without
    ∧ (IsEmbedded f && in_set (make_set (ExcludeEmbedded opts)) (Type_ f)
         = true
       ∨ ∃ tf : TransformedField,
           tf ∈ ResultFields tr ∧ Parsed tf = f ∧ NewTags tf = Tags f).
Proof.
  intros Hparse. rewrite !TransformStruct_app, TransformStruct_cons.
  rewrite (field_delta_malformed opts f Hparse).
  destruct (TransformStruct {| Fields := before |} opts) as [d1|]; simpl;
    [|done].
  destruct (TransformStruct {| Fields := after |} opts) as [d2|]; simpl;
    [|done].
  intros [= <-]. eexists. split; [reflexivity|].
  destruct (IsEmbedded f && _); simpl.
  - split; [done|]. by left.
  - split; [done|]. right. exists (retained_field opts f EmptyString false).
    split; [|done]. apply elem_of_app. right. by left.
Qed.

(** C5.  The new type of a retained field is the value filed under its
    type text in the type mappings when the text is a key, and its own type
    otherwise; the value is not looked up again. *)
Theorem type_mapping_exact_match (ps : ParsedStruct) (opts : TransformOpts)
    (tr : TransformResult) (tf : TransformedField) :
  TransformStruct ps opts = Some tr →
  tf ∈ ResultFields tr →
  NewType tf = match TypeMappings opts !! Type_ tf with
               | Some mappedType => mappedType
               | None => Type_ tf
               end.
Proof.
  destruct ps as [name fields comments]. intros Htr Htf.
  apply TransformStruct_fields in Htr as [_ Hall].
  rewrite Forall_forall in Hall. destruct (Hall tf Htf) as [_ ->].
  by destruct (TypeMappings opts !! Type_ tf).
Qed.

(** ** The statistics of a run *)

Lemma syncStruct_field_counters (s s' : Syncer) (w w' : World)
    (def : StructDef) (err : option string) :
  syncStruct s w def = Some (s', w', err) →
  field_counters (stats s') = field_counters (stats s).
Proof.
  unfold syncStruct. intros H.
  repeat (case_match; simplify_option_eq; try done).
Qed.

Lemma Run_loop_field_counters (structs : list StructDef) (s s' : Syncer)
    (w w' : World) :
  Run_loop s w structs = Some (s', w') →
  field_counters (stats s') = field_counters (stats s).
Proof.
  revert s w. induction structs as [|def structs IH]; intros s w; simpl.
  - by intros [= <- <-].
  - destruct (negb _ && negb _); [apply IH|].
    destruct (syncStruct s w def) as [[[s1 w1] err]|] eqn:Hsync; simpl;
      [|done].
    apply syncStruct_field_counters in Hsync.
    destruct err; intros H%IH; rewrite H; [done|]. by rewrite <- Hsync.
Qed.

(** Whatever the run reads and finds, it leaves the counts of new fields,
    of removed fields and of excluded fields as they were when it
    started. *)
Lemma Run_field_counters (s s' : Syncer) (w w' : World) :
  Run s w = Some (s', w') →
  field_counters (stats s') = field_counters (stats s).
Proof. apply Run_loop_field_counters. Qed.

(** ** One declaration on files

    [sync_once] is what [syncStruct] does to the declaration when the run
    is not a dry run and no additional type is configured: the struct
    extracted from the written file is the rebuilt target. *)

Lemma UpdateStruct_specs_extract (start : list string) (specs : list Spec)
    (name : string) (fields : list Field) :
  match ExtractStruct_specs start specs name with
  | None => UpdateStruct_specs specs name fields = None
  | Some (Err e) => UpdateStruct_specs specs name fields = Some (Err e)
  | Some (Ok ps) =>
      StructName ps = name ∧ StructComments ps = start
      ∧ ∃ specs',
          UpdateStruct_specs specs name fields = Some (Ok specs')
          ∧ ExtractStruct_specs start specs' name
            = Some (Ok {| StructName := name;
                          Fields := extractFields fields;
                          StructComments := start |})
  end.
Proof.
  induction specs as [|spec specs IH]; simpl; [done|].
  destruct spec as [n t| |]; simpl.
  - destruct (String.eqb n name) eqn:Hn; simpl.
    + destruct t; try done. simpl. split; [done|]. split; [done|].
      eexists. split; [reflexivity|]. simpl. by rewrite Hn.
    + destruct (ExtractStruct_specs start specs name) as [[ps|e]|].
      * destruct IH as (Hname & Hstart & specs' & -> & Hex). simpl.
        split; [done|]. split; [done|]. eexists. split; [reflexivity|].
        simpl. by rewrite Hn.
      * by rewrite IH.
      * by rewrite IH.
  - destruct (ExtractStruct_specs start specs name) as [[ps|e]|].
    + destruct IH as (Hname & Hstart & specs' & -> & Hex). simpl.
      split; [done|]. split; [done|]. by eexists.
    + by rewrite IH.
    + by rewrite IH.
  - destruct (ExtractStruct_specs start specs name) as [[ps|e]|].
    + destruct IH as (Hname & Hstart & specs' & -> & Hex). simpl.
      split; [done|]. split; [done|]. by eexists.
    + by rewrite IH.
    + by rewrite IH.
Qed.

Lemma ExtractStruct_specs_None (start : list string) (specs : list Spec)
    (name : string) (fields : list Field) :
  UpdateStruct_specs specs name fields = None →
  ExtractStruct_specs start specs name = None.
Proof.
  pose proof (UpdateStruct_specs_extract start specs name fields) as H.
  destruct (ExtractStruct_specs start specs name) as [[ps|e]|]; [| |done].
  - destruct H as (_ & _ & specs' & -> & _). done.
  - by rewrite H.
Qed.

Lemma UpdateStruct_decls_extract (decls : list Decl) (name : string)
    (fields : list Field) :
  match ExtractStruct_decls decls name with
  | None => UpdateStruct_decls decls name fields = None
  | Some (Err e) => UpdateStruct_decls decls name fields = Some (Err e)
  | Some (Ok ps) =>
      StructName ps = name
      ∧ ∃ decls',
          UpdateStruct_decls decls name fields = Some (Ok decls')
          ∧ ExtractStruct_decls decls' name
            = Some (Ok {| StructName := name;
                          Fields := extractFields fields;
                          StructComments := StructComments ps |})
  end.
Proof.
  induction decls as [|decl decls IH]; simpl; [done|].
  assert (match ExtractStruct_decls decls name with
          | None =>
              (r ← UpdateStruct_decls decls name fields;
               Some match r with
                    | Ok decls'' => Ok (decl :: decls'')
                    | Err e => Err e
                    end) = None
          | Some (Err e) =>
              (r ← UpdateStruct_decls decls name fields;
               Some match r with
                    | Ok decls'' => Ok (decl :: decls'')
                    | Err e => Err e
                    end) = Some (Err e)
          | Some (Ok ps) =>
              StructName ps = name
              ∧ ∃ decls',
                  (r ← UpdateStruct_decls decls name fields;
                   Some match r with
                        | Ok decls'' => Ok (decl :: decls'')
                        | Err e => Err e
                        end) = Some (Ok (decl :: decls'))
                  ∧ ExtractStruct_decls decls' name
                    = Some (Ok {| StructName := name;
                                  Fields := extractFields fields;
                                  StructComments := StructComments ps |})
          end) as Hskip.
  { destruct (ExtractStruct_decls decls name) as [[ps|e]|].
    - destruct IH as (Hname & decls' & -> & Hex). split; [done|].
      by exists decls'.
    - by rewrite IH.
    - by rewrite IH. }
  destruct decl as [tok start specs| |].
  - destruct tok.
    1,2,4:
      destruct (ExtractStruct_decls decls name) as [[ps|e]|]; [|done|done];
      destruct Hskip as (Hname & decls' & -> & Hex);
      (split; [done|]); eexists; (split; [reflexivity|]); exact Hex.
    pose proof (UpdateStruct_specs_extract start specs name fields) as Hs.
    destruct (ExtractStruct_specs start specs name) as [[ps|e]|] eqn:Hspecs.
    + destruct Hs as (Hname & Hstart & specs' & -> & Hex).
      split; [done|]. eexists. split; [reflexivity|]. simpl.
      by rewrite Hex, Hstart.
    + by rewrite Hs.
    + rewrite Hs.
      destruct (ExtractStruct_decls decls name) as [[ps|e]|]; [|done|done].
      destruct Hskip as (Hname & decls' & -> & Hex).
      split; [done|]. exists (GenDecl TYPE start specs :: decls').
      split; [done|]. simpl. by rewrite Hspecs.
  - destruct (ExtractStruct_decls decls name) as [[ps|e]|]; [|done|done].
    destruct Hskip as (Hname & decls' & -> & Hex).
    split; [done|]. by exists (FuncDecl :: decls').
  - destruct (ExtractStruct_decls decls name) as [[ps|e]|]; [|done|done].
    destruct Hskip as (Hname & decls' & -> & Hex).
    split; [done|]. by exists (BadDecl :: decls').
Qed.

Lemma UpdateStructInFile_extract (pf : ParsedFile) (name : string)
    (buildResult : BuildResult) (targetStruct : ParsedStruct) :
  ExtractStruct pf name = Ok targetStruct →
  ∃ pf',
    UpdateStructInFile pf name buildResult = Ok pf'
    ∧ Path pf' = Path pf
    ∧ ExtractStruct pf' name = Ok (rebuilt_target targetStruct buildResult).
Proof.
  unfold ExtractStruct, UpdateStructInFile, rebuilt_target.
  pose proof (UpdateStruct_decls_extract (File pf) name
                (BuildFields buildResult)) as H.
  destruct (ExtractStruct_decls (File pf) name) as [[ps|e]|]; [|done|done].
  destruct H as (Hname & decls' & -> & Hex). intros [= ->].
  eexists. split; [reflexivity|]. split; [done|]. simpl.
  by rewrite Hex, Hname.
Qed.

Local Opaque ComputeDiff BuildFieldsFromTransform TransformStruct.

Lemma syncStruct_sync_once (s : Syncer) (w : World) (def : StructDef)
    (sourceDir : string) (sourceParsed targetParsed : ParsedFile)
    (sourceStruct targetStruct target1 : ParsedStruct) (diff : DiffResult) :
  SourcePaths s !! DefSource def = Some sourceDir →
  ParseFile w (sourceFile_of s sourceDir def) = Ok sourceParsed →
  ExtractStruct sourceParsed (DefName def) = Ok sourceStruct →
  ParseFile w (targetFile_of s def) = Ok targetParsed →
  ExtractStruct targetParsed (DefName def) = Ok targetStruct →
  DryRun s = false →
  IncludeTypes def = [] →
  targetFile_of s def ∉ readonly w →
  sync_once (Transform (Syncer_Config s)) (Syncer_MarkDeprecated s)
    (Syncer_PruneDeprecated s) sourceStruct targetStruct
    = Some (diff, target1) →
  ∃ s' w' targetParsed',
    syncStruct s w def = Some (s', w', None)
    ∧ ChangedStructs (stats s')
      = ChangedStructs (stats s) + (if HasChanges diff then 1 else 0)
    ∧ ParseFile w' (targetFile_of s def) = Ok targetParsed'
    ∧ ExtractStruct targetParsed' (DefName def) = Ok target1
    ∧ (HasChanges diff = false → w' = w).
Proof.
  intros Hdir Hsp Hsrc Htp Htgt Hdry Hinc Hro Hsync.
  unfold sourceFile_of, targetFile_of in *.
  unfold syncStruct. rewrite Hdir, Hsp, Hsrc, Htp, Htgt, Hinc. simpl.
  unfold sync_once in Hsync.
  destruct (TransformStruct sourceStruct (Transform (Syncer_Config s)))
    as [transformed|]; [|done].
  change (Some transformed ≫= ?f) with (f transformed) in *. cbv beta in *.
  destruct (HasChanges (ComputeDiff targetStruct transformed)) eqn:Hch;
    simpl in Hsync; injection Hsync as <- <-; simpl; rewrite Hdry; simpl.
  - destruct (UpdateStructInFile_extract targetParsed (DefName def)
                (BuildFieldsFromTransform transformed (Fields targetStruct)
                   {| MarkDeprecated := Syncer_MarkDeprecated s;
                      DeprecationMessage := "removed from server";
                      PruneDeprecated := Syncer_PruneDeprecated s;
                      MergeRemoveTags :=
                        RemoveTags (Transform (Syncer_Config s)) |})
                targetStruct Htgt) as (pf' & -> & Hpath & Hex).
    unfold ParseFile in Htp.
    destruct (files w !! _) as [decls|] eqn:Hfile; [|done].
    injection Htp as <-. simpl in Hpath.
    unfold WriteFile. rewrite Hpath.
    rewrite bool_decide_eq_false_2 by done.
    eexists _, _, pf'. split; [reflexivity|]. simpl.
    rewrite Hch. split; [lia|].
    unfold ParseFile. simpl. rewrite lookup_insert_eq.
    split; [by destruct pf'; simpl in *; subst|].
    split; [done|]. done.
  - eexists _, w, targetParsed. split; [reflexivity|]. simpl.
    rewrite Hch. split; [lia|]. by rewrite Htp.
Qed.

Local Transparent ComputeDiff BuildFieldsFromTransform TransformStruct.

(** * Further properties

    What the parser, the transformer, the diff, the builder, the merge and
    the run do beyond the statements above. *)

(** ** The parser *)

Lemma FindAllStructs_specs_acc (names : list string) (specs : list Spec) :
  FindAllStructs_specs names specs = names ++ FindAllStructs_specs [] specs.
Proof.
  unfold FindAllStructs_specs. revert names.
  induction specs as [|spec specs IH]; intros names; simpl.
  - by rewrite app_nil_r.
  - rewrite IH. symmetry. rewrite IH. symmetry.
    destruct spec as [n [] | |]; simpl; by rewrite ?app_nil_r, <- ?app_assoc.
Qed.

Lemma FindAllStructs_acc (names : list string) (decls : list Decl) :
  foldl (fun names decl =>
           match decl with
           | GenDecl TYPE _ specs => FindAllStructs_specs names specs
           | _ => names
           end) names decls
  = names ++ FindAllStructs {| Path := EmptyString; File := decls |}.
Proof.
  unfold FindAllStructs. simpl. revert names.
  induction decls as [|decl decls IH]; intros names; simpl.
  - by rewrite app_nil_r.
  - rewrite IH. symmetry. rewrite IH. symmetry.
    destruct decl as [[] start specs | |]; simpl; rewrite ?app_nil_r; try done.
    by rewrite (FindAllStructs_specs_acc names), <- app_assoc.
Qed.

Lemma FindAllStructs_cons (path : string) (decl : Decl) (decls : list Decl) :
  FindAllStructs {| Path := path; File := decl :: decls |}
  = match decl with
    | GenDecl TYPE _ specs => FindAllStructs_specs [] specs
    | _ => []
    end ++ FindAllStructs {| Path := path; File := decls |}.
Proof.
  unfold FindAllStructs at 1. simpl. rewrite FindAllStructs_acc.
  by destruct decl as [[] ? ? | |].
Qed.

Lemma FindAllStructs_specs_cons (spec : Spec) (specs : list Spec) :
  FindAllStructs_specs [] (spec :: specs)
  = match spec with
    | TypeSpec n (StructType _) => [n]
    | _ => []
    end ++ FindAllStructs_specs [] specs.
Proof.
  unfold FindAllStructs_specs at 1. simpl.
  fold (FindAllStructs_specs
          (match spec with
           | TypeSpec n (StructType _) => [] ++ [n]
           | _ => []
           end) specs).
  rewrite FindAllStructs_specs_acc. by destruct spec as [n [] | |].
Qed.

Lemma ExtractStructs_specs_acc (nameSet : gmap string bool)
    (start : list string) (result : list ParsedStruct) (specs : list Spec) :
  ExtractStructs_specs nameSet start result specs
  = result ++ ExtractStructs_specs nameSet start [] specs.
Proof.
  unfold ExtractStructs_specs. revert result.
  induction specs as [|spec specs IH]; intros result; simpl.
  - by rewrite app_nil_r.
  - rewrite IH. symmetry. rewrite IH. symmetry.
    destruct spec as [n [] | |]; simpl; rewrite ?app_nil_r; try done.
    destruct (in_set nameSet n); simpl; by rewrite ?app_nil_r, <- ?app_assoc.
Qed.

Lemma ExtractStructs_specs_cons (nameSet : gmap string bool)
    (start : list string) (spec : Spec) (specs : list Spec) :
  ExtractStructs_specs nameSet start [] (spec :: specs)
  = match spec with
    | TypeSpec n (StructType fields) =>
        if in_set nameSet n then
          [ {| StructName := n; Fields := extractFields fields;
               StructComments := start |} ]
        else []
    | _ => []
    end ++ ExtractStructs_specs nameSet start [] specs.
Proof.
  unfold ExtractStructs_specs at 1. simpl.
  match goal with
  | |- foldl ?f ?acc specs = _ =>
      change (foldl f acc specs)
        with (ExtractStructs_specs nameSet start acc specs)
  end.
  rewrite ExtractStructs_specs_acc.
  destruct spec as [n [] | |]; try done. by destruct (in_set nameSet n).
Qed.

Lemma ExtractStructs_acc (names : list string) (result : list ParsedStruct)
    (decls : list Decl) :
  foldl (fun result decl =>
           match decl with
           | GenDecl TYPE start specs =>
               ExtractStructs_specs (make_set names) start result specs
           | _ => result
           end) result decls
  = result ++ ExtractStructs {| Path := EmptyString; File := decls |} names.
Proof.
  unfold ExtractStructs. simpl. revert result.
  induction decls as [|decl decls IH]; intros result; simpl.
  - by rewrite app_nil_r.
  - rewrite IH. symmetry. rewrite IH. symmetry.
    destruct decl as [[] start specs | |]; simpl; rewrite ?app_nil_r; try done.
    by rewrite (ExtractStructs_specs_acc _ _ result), <- app_assoc.
Qed.

Lemma ExtractStructs_cons (path : string) (decl : Decl) (decls : list Decl)
    (names : list string) :
  ExtractStructs {| Path := path; File := decl :: decls |} names
  = match decl with
    | GenDecl TYPE start specs =>
        ExtractStructs_specs (make_set names) start [] specs
    | _ => []
    end ++ ExtractStructs {| Path := path; File := decls |} names.
Proof.
  unfold ExtractStructs at 1. simpl. rewrite ExtractStructs_acc.
  by destruct decl as [[] ? ? | |].
Qed.

Lemma ExtractStructs_specs_names (names : list string) (start : list string)
    (specs : list Spec) :
  StructName <$> ExtractStructs_specs (make_set names) start [] specs
  = filter (fun n => n ∈ names) (FindAllStructs_specs [] specs).
Proof.
  induction specs as [|spec specs IH]; [done|].
  rewrite ExtractStructs_specs_cons, FindAllStructs_specs_cons.
  rewrite fmap_app, filter_app, IH. f_equal.
  destruct spec as [n [] | |]; try done.
  destruct (in_set (make_set names) n) eqn:Hin.
  - apply in_set_make_set in Hin. simpl.
    by rewrite filter_cons_True.
  - assert (n ∉ names) by (rewrite <- in_set_make_set; congruence).
    by rewrite filter_cons_False.
Qed.

(** X1.  [ExtractStructs] returns the struct types that [FindAllStructs]
    lists and whose names were asked for, in the order of the file: a name
    that is not a struct type of the file is passed over in silence, and a
    name is never reported as an error. *)
Theorem ExtractStructs_names (pf : ParsedFile) (names : list string) :
  StructName <$> ExtractStructs pf names
  = filter (fun n => n ∈ names) (FindAllStructs pf).
Proof.
  destruct pf as [path decls].
  induction decls as [|decl decls IH]; [done|].
  rewrite ExtractStructs_cons, FindAllStructs_cons.
  rewrite fmap_app, filter_app, IH. f_equal.
  destruct decl as [[] start specs | |]; try done.
  apply ExtractStructs_specs_names.
Qed.

Lemma ExtractStruct_specs_agree (names : list string) (start : list string)
    (specs : list Spec) (name : string) :
  name ∈ names →
  match ExtractStruct_specs start specs name with
  | Some (Ok ps) =>
      head (filter (fun q => StructName q = name)
              (ExtractStructs_specs (make_set names) start [] specs)) = Some ps
      ∧ StructName ps = name
      ∧ name ∈ FindAllStructs_specs [] specs
  | Some (Err _) => True
  | None =>
      filter (fun q => StructName q = name)
        (ExtractStructs_specs (make_set names) start [] specs) = []
  end.
Proof.
  intros Hname.
  induction specs as [|spec specs IH]; [done|].
  rewrite ExtractStructs_specs_cons, FindAllStructs_specs_cons, filter_app.
  destruct spec as [n t | |]; simpl; try done.
  destruct (String.eqb n name) eqn:Hn; simpl.
  - apply String.eqb_eq in Hn as ->.
      destruct t; try done.
      assert (in_set (make_set names) name = true) as ->
        by by apply in_set_make_set.
      rewrite filter_cons_True by done. simpl.
      split; [done|]. split; [done|]. by left.
  - apply eqb_false_iff in Hn.
      assert (filter (fun q => StructName q = name)
                match t with
                | StructType fields =>
                    if in_set (make_set names) n then
                      [ {| StructName := n; Fields := extractFields fields;
                           StructComments := start |} ]
                    else []
                | _ => []
                end = []) as ->.
      { destruct t; try done. destruct (in_set (make_set names) n); [|done].
        by rewrite filter_cons_False. }
      simpl. destruct (ExtractStruct_specs start specs name) as [[ps|e]|];
        try done.
      destruct IH as (? & ? & ?). split; [done|]. split; [done|].
      apply elem_of_app. by right.
Qed.

Lemma ExtractStruct_decls_agree (names : list string) (path : string)
    (decls : list Decl) (name : string) :
  name ∈ names →
  match ExtractStruct_decls decls name with
  | Some (Ok ps) =>
      head (filter (fun q => StructName q = name)
              (ExtractStructs {| Path := path; File := decls |} names))
        = Some ps
      ∧ StructName ps = name
      ∧ name ∈ FindAllStructs {| Path := path; File := decls |}
  | Some (Err _) => True
  | None =>
      filter (fun q => StructName q = name)
        (ExtractStructs {| Path := path; File := decls |} names) = []
  end.
Proof.
  intros Hname.
  induction decls as [|decl decls IH]; [done|].
  rewrite ExtractStructs_cons, FindAllStructs_cons, filter_app.
  destruct decl as [tok start specs | |]; simpl; try done.
  destruct tok; simpl; try done.
  pose proof (ExtractStruct_specs_agree names start specs name Hname) as Hs.
  destruct (ExtractStruct_specs start specs name) as [[ps|e]|]; try done.
  - destruct Hs as (Hhead & ? & ?). split; [|split; [done|]].
    + destruct (filter _ (ExtractStructs_specs _ start [] specs)); [done|].
      done.
    + apply elem_of_app. by left.
  - rewrite Hs. simpl.
    destruct (ExtractStruct_decls decls name) as [[ps|e]|]; try done.
    destruct IH as (? & ? & ?). split; [done|]. split; [done|].
    apply elem_of_app. by right.
Qed.

(** X2.  The two extraction functions agree: the declaration that
    [ExtractStruct] returns for a name is listed by [FindAllStructs], and
    it is the first declaration of that name that [ExtractStructs] returns
    for every list of names that holds the name. *)
Theorem ExtractStruct_agrees_with_ExtractStructs (pf : ParsedFile)
    (name : string) (ps : ParsedStruct) :
  ExtractStruct pf name = Ok ps →
  StructName ps = name
  ∧ name ∈ FindAllStructs pf
  ∧ ∀ names, name ∈ names →
      head (filter (fun q => StructName q = name) (ExtractStructs pf names))
      = Some ps.
Proof.
  destruct pf as [path decls]. unfold ExtractStruct. simpl. intros Hex.
  pose proof (ExtractStruct_decls_agree [name] path decls name) as H0.
  destruct (ExtractStruct_decls decls name) as [[ps'|e]|] eqn:Hd; try done.
  injection Hex as ->.
  destruct H0 as (_ & ? & ?); [by left|].
  split; [done|]. split; [done|]. intros names Hname.
  pose proof (ExtractStruct_decls_agree names path decls name Hname) as H1.
  rewrite Hd in H1. by destruct H1.
Qed.

(** X3.  Every field that the parser extracts carries the text of its
    own type expression as its type, and an embedded field carries that
    text as its name too; a node with names gives one field for each name,
    in order, and a node without names one embedded field. *)
Theorem extracted_fields_well_formed (fieldList : list Field) (node : Field) :
  Forall (fun f =>
            Type_ f = exprToString (TypeExpr f)
            ∧ (if IsEmbedded f then Name f = Type_ f else True))
         (extractFields fieldList)
  ∧ Name <$> extractField node
    = match Field_Names node with
      | [] => [exprToString (Field_Type node)]
      | names => names
      end
  ∧ Forall (fun f => IsEmbedded f = bool_decide (Field_Names node = []))
           (extractField node).
Proof.
  split.
  - rewrite extractFields_concat. apply Forall_concat, Forall_fmap.
    apply Forall_forall. intros [names type tag before start] _.
    unfold extractField; simpl. destruct names as [|n names].
    + by apply Forall_singleton.
    + apply Forall_cons. split; [done|].
      apply Forall_fmap, Forall_forall. by intros.
  - destruct node as [names type tag before start].
    unfold extractField; simpl. destruct names as [|n names].
    + split; [done|]. by apply Forall_singleton.
    + split.
      * simpl. f_equal. rewrite <- list_fmap_compose.
        by rewrite <- (list_fmap_id names) at 2.
      * apply Forall_cons. split; [done|].
        apply Forall_fmap, Forall_forall. by intros.
Qed.

Lemma UpdateStruct_specs_frame (specs specs' : list Spec) (name : string)
    (fields : list Field) :
  UpdateStruct_specs specs name fields = Some (Ok specs') →
  FindAllStructs_specs [] specs' = FindAllStructs_specs [] specs
  ∧ ∀ start name', name' ≠ name →
      ExtractStruct_specs start specs' name'
      = ExtractStruct_specs start specs name'.
Proof.
  revert specs'.
  induction specs as [|spec specs IH]; intros specs' Hup; [done|].
  assert (∀ s, UpdateStruct_specs specs name fields
               = Some (Ok s) →
               FindAllStructs_specs [] (spec :: s)
               = FindAllStructs_specs [] (spec :: specs)) as Hall.
  { intros s Hs. destruct (IH s Hs) as [Hall _].
    by rewrite !FindAllStructs_specs_cons, Hall. }
  destruct spec as [n t | |]; simpl in Hup.
  - destruct (String.eqb n name) eqn:Hn; simpl in Hup.
    + apply String.eqb_eq in Hn as ->.
      destruct t; try done. injection Hup as <-.
      rewrite !FindAllStructs_specs_cons. split; [done|].
      intros start name' Hne. simpl.
      assert (String.eqb name name' = false) as ->; [|done].
      apply eqb_false_iff. congruence.
    + destruct (UpdateStruct_specs specs name fields) as [[specs''|e]|];
        try done.
      simpl in Hup. injection Hup as <-. split; [by apply Hall|].
      destruct (IH specs'' eq_refl) as [_ Hex].
      intros start name' Hne. simpl. by rewrite Hex.
  - destruct (UpdateStruct_specs specs name fields) as [[specs''|e]|];
      try done.
    simpl in Hup. injection Hup as <-. split; [by apply Hall|].
    destruct (IH specs'' eq_refl) as [_ Hex].
    intros start name' Hne. simpl. by rewrite Hex.
  - destruct (UpdateStruct_specs specs name fields) as [[specs''|e]|];
      try done.
    simpl in Hup. injection Hup as <-. split; [by apply Hall|].
    destruct (IH specs'' eq_refl) as [_ Hex].
    intros start name' Hne. simpl. by rewrite Hex.
Qed.

Lemma UpdateStruct_decls_frame (path : string) (decls decls' : list Decl)
    (name : string) (fields : list Field) :
  UpdateStruct_decls decls name fields = Some (Ok decls') →
  FindAllStructs {| Path := path; File := decls' |}
  = FindAllStructs {| Path := path; File := decls |}
  ∧ ∀ name', name' ≠ name →
      ExtractStruct_decls decls' name' = ExtractStruct_decls decls name'.
Proof.
  revert decls'.
  induction decls as [|decl decls IH]; intros decls' Hup; [done|].
  assert (∀ d,
            (r ← UpdateStruct_decls decls name fields;
             Some match r with
                  | Ok decls'' => Ok (decl :: decls'')
                  | Err e => Err e
                  end) = Some (Ok d) →
            ∃ d', d = decl :: d'
                  ∧ FindAllStructs {| Path := path; File := d' |}
                    = FindAllStructs {| Path := path; File := decls |}
                  ∧ ∀ name', name' ≠ name →
                      ExtractStruct_decls d' name'
                      = ExtractStruct_decls decls name') as Hrest.
  { intros d Hd.
    destruct (UpdateStruct_decls decls name fields) as [[decls''|e]|];
      try done.
    simpl in Hd. injection Hd as <-. exists decls''. split; [done|].
    by apply IH. }
  assert (∀ d', FindAllStructs {| Path := path; File := d' |}
                = FindAllStructs {| Path := path; File := decls |} →
                (∀ name', name' ≠ name →
                   ExtractStruct_decls d' name'
                   = ExtractStruct_decls decls name') →
                FindAllStructs {| Path := path; File := decl :: d' |}
                = FindAllStructs {| Path := path; File := decl :: decls |}
                ∧ ∀ name', name' ≠ name →
                    ExtractStruct_decls (decl :: d') name'
                    = ExtractStruct_decls (decl :: decls) name') as Hcons.
  { intros d' Hall Hex. rewrite !FindAllStructs_cons, Hall. split; [done|].
    intros name' Hne. destruct decl as [[] start specs | |]; simpl;
      by rewrite Hex. }
  destruct decl as [tok start specs | |]; simpl in Hup.
  - destruct tok;
      try (destruct (Hrest _ Hup) as (d' & -> & Hall & Hex);
           by apply Hcons).
    destruct (UpdateStruct_specs specs name fields) as [[specs'|e]|] eqn:Hs.
    + injection Hup as <-.
      destruct (UpdateStruct_specs_frame _ _ _ _ Hs) as [Hall Hex].
      rewrite !FindAllStructs_cons, Hall. split; [done|].
      intros name' Hne. simpl. by rewrite Hex.
    + done.
    + destruct (Hrest _ Hup) as (d' & -> & Hall & Hex). by apply Hcons.
  - destruct (Hrest _ Hup) as (d' & -> & Hall & Hex). by apply Hcons.
  - destruct (Hrest _ Hup) as (d' & -> & Hall & Hex). by apply Hcons.
Qed.

(** X4.  [UpdateStructInFile] succeeds exactly when [ExtractStruct] finds
    the declaration, and then the declaration extracted from the updated
    file has the new field list, its name and its comments being as
    before; the path of the file is kept. *)
Theorem update_then_extract (pf : ParsedFile) (name : string)
    (buildResult : BuildResult) :
  match ExtractStruct pf name with
  | Ok targetStruct =>
      ∃ pf',
        UpdateStructInFile pf name buildResult = Ok pf'
        ∧ Path pf' = Path pf
        ∧ ExtractStruct pf' name
          = Ok {| StructName := name;
                  Fields := extractFields (BuildFields buildResult);
                  StructComments := StructComments targetStruct |}
  | Err _ => ∃ e, UpdateStructInFile pf name buildResult = Err e
  end.
Proof.
  unfold ExtractStruct, UpdateStructInFile.
  pose proof (UpdateStruct_decls_extract (File pf) name
                (BuildFields buildResult)) as H.
  destruct (ExtractStruct_decls (File pf) name) as [[ps|e]|].
  - destruct H as (_ & decls' & -> & Hex). eexists. split; [done|].
    split; [done|]. simpl. by rewrite Hex.
  - rewrite H. by eexists.
  - rewrite H. by eexists.
Qed.

(** X5.  [UpdateStructInFile] changes one declaration only: the updated
    file lists the same struct types, and the extraction of every other
    name gives what it gave before. *)
Theorem update_leaves_other_structs (pf pf' : ParsedFile) (name : string)
    (buildResult : BuildResult) :
  UpdateStructInFile pf name buildResult = Ok pf' →
  FindAllStructs pf' = FindAllStructs pf
  ∧ ∀ name', name' ≠ name → ExtractStruct pf' name' = ExtractStruct pf name'.
Proof.
  destruct pf as [path decls]. unfold UpdateStructInFile. simpl.
  destruct (UpdateStruct_decls decls name (BuildFields buildResult))
    as [[decls'|e]|] eqn:Hup; try done.
  intros [= <-].
  destruct (UpdateStruct_decls_frame path _ _ _ _ Hup) as [Hall Hex].
  split; [done|]. intros name' Hne. unfold ExtractStruct. simpl.
  by rewrite Hex.
Qed.

(** ** The transformer *)

Lemma in_set_make_set_decide (keys : list string) (k : string) :
  in_set (make_set keys) k = bool_decide (k ∈ keys).
Proof.
  destruct (in_set (make_set keys) k) eqn:Hin.
  - symmetry. apply bool_decide_eq_true. by apply in_set_make_set.
  - symmetry. apply bool_decide_eq_false. rewrite <- in_set_make_set.
    congruence.
Qed.

Lemma removeTags_loop_acc (removeSet : gmap string bool)
    (tags : list structtag.Tag) (modified : bool)
    (remaining : list structtag.Tag) :
  foldl (fun '(modified, remaining) tag =>
           if in_set removeSet (structtag.Key tag) then (true, remaining)
           else (modified, remaining ++ [tag]))
        (modified, remaining) tags
  = (modified || existsb (fun tag => in_set removeSet (structtag.Key tag)) tags,
     remaining
       ++ filter (fun tag => in_set removeSet (structtag.Key tag) = false)
            tags).
Proof.
  revert modified remaining.
  induction tags as [|tag tags IH]; intros modified remaining; simpl.
  - by rewrite orb_false_r, app_nil_r.
  - destruct (in_set removeSet (structtag.Key tag)) eqn:Hin; rewrite IH.
    + rewrite filter_cons_False by congruence. by rewrite orb_true_r.
    + rewrite filter_cons_True by done. by rewrite <- app_assoc.
Qed.

Lemma removeTags_loop_modified (removeSet : gmap string bool)
    (tags : list structtag.Tag) :
  (removeTags_loop removeSet tags).1
  = existsb (fun tag => in_set removeSet (structtag.Key tag)) tags.
Proof. unfold removeTags_loop. by rewrite removeTags_loop_acc. Qed.

Lemma Get_Some_iff (tags : list structtag.Tag) (key : string) :
  is_Some (structtag.Get tags key)
  ↔ ∃ tag, tag ∈ tags ∧ structtag.Key tag = key.
Proof.
  induction tags as [|tag tags IH]; simpl.
  - split; [by intros [? ?]|]. intros (tag & Hin & _). by apply elem_of_nil in Hin.
  - destruct (String.eqb (structtag.Key tag) key) eqn:Hk.
    + apply String.eqb_eq in Hk. split; [|by eauto].
      intros _. exists tag. split; [by left|done].
    + apply eqb_false_iff in Hk. rewrite IH. split.
      * intros (tg & Hin & Heq). exists tg. split; [by right|done].
      * intros (tg & Hin & Heq). apply elem_of_cons in Hin as [->|Hin]; [done|].
        by exists tg.
Qed.

Lemma transformTags_modified (tagStr : string) (removeSet : gmap string bool)
    (newTags : string) (modified : bool) :
  transformTags tagStr removeSet = Some (newTags, modified) →
  modified
  = (if String.eqb tagStr EmptyString then false
     else if String.eqb (Trim tagStr "`") EmptyString then false
     else match structtag.Parse strconv_Unquote (Trim tagStr "`") with
          | structtag.ParseOk tags =>
              existsb (fun tag => in_set removeSet (structtag.Key tag)) tags
          | _ => false
          end).
Proof.
  unfold transformTags.
  destruct (String.eqb tagStr EmptyString); [by intros [= _ <-]|].
  destruct (String.eqb (Trim tagStr "`") EmptyString); [by intros [= _ <-]|].
  destruct (structtag.Parse strconv_Unquote (Trim tagStr "`")) as [| |tags];
    [by intros [= _ <-]|done|].
  rewrite <- removeTags_loop_modified.
  destruct (removeTags_loop removeSet tags) as [m remaining]. simpl.
  destruct m; simpl; [|by intros [= _ <-]].
  destruct (length remaining =? 0)%nat; by intros [= _ <-].
Qed.

Lemma transformTags_modified_HasTag (tagStr : string) (keys : list string)
    (newTags : string) (modified : bool) :
  transformTags tagStr (make_set keys) = Some (newTags, modified) →
  modified = true ↔ ∃ key, key ∈ keys ∧ HasTag tagStr key = Some true.
Proof.
  intros Htr. rewrite (transformTags_modified _ _ _ _ Htr). unfold HasTag.
  destruct (String.eqb tagStr EmptyString).
  { split; [done|]. by intros (? & _ & ?). }
  destruct (String.eqb (Trim tagStr "`") EmptyString).
  { split; [done|]. by intros (? & _ & ?). }
  destruct (structtag.Parse strconv_Unquote (Trim tagStr "`")) as [| |tags].
  { split; [done|]. by intros (? & _ & ?). }
  { split; [done|]. by intros (? & _ & ?). }
  rewrite existsb_exists. split.
  - intros (tag & Hin & Hset). apply in_set_make_set in Hset.
    exists (structtag.Key tag). split; [done|].
    destruct (structtag.Get tags (structtag.Key tag)) eqn:Hget; [done|].
    assert (is_Some (structtag.Get tags (structtag.Key tag))) as [? ?].
    { apply Get_Some_iff. exists tag. split; [|done]. by apply list_elem_of_In. }
    congruence.
  - intros (key & Hkey & Hhas).
    destruct (structtag.Get tags key) as [tag|] eqn:Hget; [|done].
    assert (is_Some (structtag.Get tags key)) as Hsome by by rewrite Hget.
    apply Get_Some_iff in Hsome as (tg & Hin & Heq).
    exists tg. split; [by apply list_elem_of_In|].
    apply in_set_make_set. by rewrite Heq.
Qed.

(** X6.  [transformTags] reports a tag string as modified exactly when
    [HasTag] finds one of the keys to remove in it. *)
Theorem tags_modified_iff_key_present (tagStr : string) (keys : list string)
    (newTags : string) (modified : bool) :
  transformTags tagStr (make_set keys) = Some (newTags, modified) →
  modified = true ↔ ∃ key, key ∈ keys ∧ HasTag tagStr key = Some true.
Proof. apply transformTags_modified_HasTag. Qed.

(** X7.  What [shouldExcludeField] decides can be read with the two
    query functions: a tag string that excludes its field has the JSON
    name ["-"] and both keys; and the three functions fail on the same tag
    strings. *)
Theorem excluded_tag_has_dash_names (tagStr : string) :
  match shouldExcludeField tagStr with
  | Some true =>
      GetJSONFieldName tagStr = Some "-"
      ∧ HasTag tagStr "json" = Some true
      ∧ HasTag tagStr "xorm" = Some true
  | Some false =>
      is_Some (GetJSONFieldName tagStr) ∧ ∀ key, is_Some (HasTag tagStr key)
  | None => GetJSONFieldName tagStr = None ∧ ∀ key, HasTag tagStr key = None
  end.
Proof.
  unfold shouldExcludeField, GetJSONFieldName, HasTag.
  destruct (String.eqb tagStr EmptyString); [by eauto|].
  destruct (String.eqb (Trim tagStr "`") EmptyString); [by eauto|].
  destruct (structtag.Parse strconv_Unquote (Trim tagStr "`")) as [| |tags];
    [by eauto|done|].
  destruct (structtag.Get tags "xorm") as [x|] eqn:Hx;
    destruct (structtag.Get tags "json") as [j|] eqn:Hj; simpl;
    rewrite ?andb_false_r;
    try (split; [by eauto|]; intros key;
         by destruct (structtag.Get tags key)).
  destruct (String.eqb (structtag.Name x) "-") eqn:Hxd; simpl.
  - destruct (String.eqb (structtag.Name j) "-") eqn:Hjd.
    + apply String.eqb_eq in Hjd. by rewrite Hjd.
    + split; [by eauto|]. intros key. by destruct (structtag.Get tags key).
  - split; [by eauto|]. intros key. by destruct (structtag.Get tags key).
Qed.

Lemma transformTags_has_removed_key (opts : TransformOpts) (tagStr : string)
    (newTags : string) (modified : bool) :
  transformTags tagStr (make_set (RemoveTags opts)) = Some (newTags, modified) →
  modified = has_removed_key opts tagStr.
Proof.
  intros Htr. pose proof (transformTags_modified_HasTag _ _ _ _ Htr) as Hiff.
  unfold has_removed_key.
  destruct modified.
  - symmetry. apply existsb_exists.
    destruct (proj1 Hiff eq_refl) as (key & Hkey & Hhas).
    exists key. split; [by apply list_elem_of_In|].
    by apply bool_decide_eq_true.
  - destruct (existsb _ (RemoveTags opts)) eqn:Hex; [|done].
    apply existsb_exists in Hex as (key & Hkey & Hhas).
    apply bool_decide_eq_true in Hhas. apply (proj2 Hiff).
    exists key. split; [by apply list_elem_of_In|done].
Qed.

Lemma field_delta_spec (opts : TransformOpts) (f : ParsedField)
    (d : TransformResult) :
  field_delta opts f = Some d →
  Parsed <$> ResultFields d = (if excluded_field opts f then [] else [f])
  ∧ ExcludedFields d
    = (if excluded_field opts f then [excluded_entry opts f] else [])
  ∧ ModifiedTags d
    = length (filter (fun tf : TransformedField =>
                        has_removed_key opts (Tags tf) = true)
                     (ResultFields d))
  ∧ Forall (fun tf : TransformedField =>
              has_removed_key opts (Tags tf) = false → NewTags tf = Tags tf)
           (ResultFields d).
Proof.
  unfold field_delta, excluded_field, excluded_entry.
  rewrite in_set_make_set_decide.
  destruct (IsEmbedded f && bool_decide (Type_ f ∈ ExcludeEmbedded opts)).
  { intros [= <-]. simpl. by repeat split. }
  simpl. destruct (shouldExcludeField (Tags f)) as [[]|]; simpl; [|..|done].
  { intros [= <-]. simpl. by repeat split. }
  destruct (transformTags (Tags f) (make_set (RemoveTags opts)))
    as [[newTags modified]|] eqn:Htr; [|done].
  simpl. intros [= <-]. simpl.
  rewrite (transformTags_has_removed_key _ _ _ _ Htr).
  split; [done|]. split; [done|].
  destruct (has_removed_key opts (Tags f)) eqn:Hk.
  - rewrite filter_cons_True by done. split; [done|].
    apply Forall_singleton. simpl. congruence.
  - rewrite filter_cons_False by (simpl; congruence). split; [done|].
    by apply Forall_singleton.
Qed.

Lemma TransformStruct_cons_inv (name : string) (comments : list string)
    (f : ParsedField) (fields : list ParsedField) (opts : TransformOpts)
    (tr : TransformResult) :
  TransformStruct {| StructName := name; Fields := f :: fields;
                     StructComments := comments |} opts = Some tr →
  ∃ d tr',
    field_delta opts f = Some d
    ∧ TransformStruct {| StructName := name; Fields := fields;
                         StructComments := comments |} opts = Some tr'
    ∧ tr = merge_results d tr'.
Proof.
  rewrite TransformStruct_cons.
  destruct (field_delta opts f) as [d|]; [|done]. simpl.
  destruct (TransformStruct _ opts) as [tr'|]; [|done]. simpl.
  intros [= <-]. by exists d, tr'.
Qed.

(** X8.  [TransformStruct] splits the upstream fields in two: the
    retained fields are the fields that are not excluded, in upstream
    order, and [ExcludedFields] names the others, an embedded field of a
    listed type by its type and a field excluded by its tag by its name.
    So every upstream field is counted once, and no more tags are counted
    as modified than fields are retained. *)
Theorem transform_partitions_fields (ps : ParsedStruct) (opts : TransformOpts)
    (tr : TransformResult) :
  TransformStruct ps opts = Some tr →
  Parsed <$> ResultFields tr
  = filter (fun f => excluded_field opts f = false) (Fields ps)
  ∧ ExcludedFields tr
    = excluded_entry opts
        <$> filter (fun f => excluded_field opts f = true) (Fields ps)
  ∧ length (ResultFields tr) + length (ExcludedFields tr)
    = length (Fields ps)
  ∧ ModifiedTags tr ≤ length (ResultFields tr).
Proof.
  destruct ps as [name fields comments]. simpl. revert tr.
  induction fields as [|f fields IH]; intros tr Htr.
  - injection Htr as <-. simpl. by repeat split.
  - apply TransformStruct_cons_inv in Htr as (d & tr' & Hd & Htr' & ->).
    destruct (IH tr' Htr') as (Hres & Hexc & Hlen & Hmod).
    destruct (field_delta_spec _ _ _ Hd) as (Hdres & Hdexc & Hdmod & _).
    assert (length (ResultFields d) = length (Parsed <$> ResultFields d))
      as Hdlen by by rewrite length_fmap.
    assert (ModifiedTags d ≤ length (ResultFields d)) as Hdle.
    { rewrite Hdmod. apply length_filter. }
    assert (length (ResultFields d) + length (ExcludedFields d) = 1) as Hone.
    { rewrite Hdlen, Hdres, Hdexc. by destruct (excluded_field opts f). }
    simpl in *. rewrite fmap_app, !length_app.
    split; [|split; [|split; lia]]; rewrite ?Hres, ?Hexc, ?Hdres, ?Hdexc.
    + destruct (excluded_field opts f) eqn:Hex.
      * by rewrite filter_cons_False by congruence.
      * by rewrite filter_cons_True by done.
    + destruct (excluded_field opts f) eqn:Hex.
      * by rewrite filter_cons_True by done.
      * by rewrite filter_cons_False by congruence.
Qed.

(** X9.  The count of modified tags is the number of retained fields in
    whose tag string [HasTag] finds a key to remove, and every other
    retained field keeps its tag string as it is: with no key to remove,
    nothing is counted and no tag changes. *)
Theorem modified_tags_counts_removed_keys (ps : ParsedStruct)
    (opts : TransformOpts) (tr : TransformResult) :
  TransformStruct ps opts = Some tr →
  ModifiedTags tr
  = length (filter (fun tf : TransformedField =>
                      has_removed_key opts (Tags tf) = true)
                   (ResultFields tr))
  ∧ Forall (fun tf : TransformedField =>
              has_removed_key opts (Tags tf) = false → NewTags tf = Tags tf)
           (ResultFields tr)
  ∧ (RemoveTags opts = [] →
     ModifiedTags tr = 0
     ∧ Forall (fun tf : TransformedField => NewTags tf = Tags tf)
              (ResultFields tr)).
Proof.
  intros Htr.
  assert (ModifiedTags tr
          = length (filter (fun tf : TransformedField =>
                              has_removed_key opts (Tags tf) = true)
                           (ResultFields tr))
          ∧ Forall (fun tf : TransformedField =>
                      has_removed_key opts (Tags tf) = false
                      → NewTags tf = Tags tf)
                   (ResultFields tr)) as [Hcount Hkeep].
  { destruct ps as [name fields comments]. revert tr Htr.
    induction fields as [|f fields IH]; intros tr Htr.
    - injection Htr as <-. simpl. by split.
    - apply TransformStruct_cons_inv in Htr as (d & tr' & Hd & Htr' & ->).
      destruct (IH tr' Htr') as [Hmod Hall].
      destruct (field_delta_spec _ _ _ Hd) as (_ & _ & Hdmod & Hdall).
      simpl. rewrite filter_app, length_app, Hmod, Hdmod.
      split; [done|]. by apply Forall_app. }
  split; [done|]. split; [done|]. intros Hnone.
  assert (∀ tagStr, has_removed_key opts tagStr = false) as Hno.
  { intros tagStr. unfold has_removed_key. by rewrite Hnone. }
  split.
  - rewrite Hcount.
    assert (filter (fun tf : TransformedField =>
                      has_removed_key opts (Tags tf) = true)
                   (ResultFields tr) = []) as ->; [|done].
    clear Hcount Hkeep Htr.
    induction (ResultFields tr) as [|tf l IHl]; [done|].
    by rewrite filter_cons_False by (rewrite Hno; congruence).
  - eapply Forall_impl; [exact Hkeep|]. intros tf H. by apply H.
Qed.

(** ** The diff and its printed forms *)

Lemma append_assoc (a b c : string) : (a +:+ b) +:+ c = a +:+ (b +:+ c).
Proof.
  induction a as [|x a IH]; [done|]. by rewrite !append_String, IH.
Qed.

Lemma append_empty_r (s : string) : s +:+ EmptyString = s.
Proof.
  induction s as [|x s IH]; [done|]. by rewrite append_String, IH.
Qed.

Lemma existsb_changed_entries (target : list ParsedField)
    (l : list TransformedField) :
  existsb changed_line (concat (source_entry target <$> l))
  = existsb (source_changed target) l.
Proof.
  induction l as [|sf l IH]; [done|].
  rewrite fmap_cons. simpl. rewrite existsb_app, IH. f_equal.
  unfold source_entry, source_changed.
  destruct (lookup_last fieldKey (tfieldKey sf) target) as [tf|]; [|done].
  by destruct (String.eqb (formatField tf) (formatTransformedField sf)).
Qed.

Lemma existsb_changed_removed (P : ParsedField → bool) (l : list ParsedField) :
  existsb changed_line (removed_line <$> filter P l) = existsb P l.
Proof.
  induction l as [|tf l IH]; [done|].
  rewrite filter_cons. simpl. destruct (P tf); simpl; [|exact IH].
  done.
Qed.

Lemma existsb_changed_line_false (ls : list DiffLine) :
  existsb changed_line ls = false
  ↔ Forall (fun l => LineType l = DiffUnchanged) ls.
Proof.
  induction ls as [|l ls IH]; [done|].
  simpl. rewrite Forall_cons, <- IH. unfold changed_line.
  destruct (LineType l); simpl; split; try done; by intros [? ?].
Qed.

(** X10.  The flag of a diff is set exactly when one of its lines is an
    addition or a removal; so [FormatDiff] and [FormatColorDiff] print
    nothing exactly for the diffs whose lines are all unchanged. *)
Theorem has_changes_iff_changed_line (targetStruct : ParsedStruct)
    (transformed : TransformResult) (targetPath : string) :
  HasChanges (ComputeDiff targetStruct transformed)
  = existsb changed_line (Lines (ComputeDiff targetStruct transformed))
  ∧ (FormatDiff (ComputeDiff targetStruct transformed) targetPath
       = EmptyString
     ↔ Forall (fun l => LineType l = DiffUnchanged)
              (Lines (ComputeDiff targetStruct transformed)))
  ∧ (FormatColorDiff (ComputeDiff targetStruct transformed) targetPath
       = EmptyString
     ↔ Forall (fun l => LineType l = DiffUnchanged)
              (Lines (ComputeDiff targetStruct transformed))).
Proof.
  assert (HasChanges (ComputeDiff targetStruct transformed)
          = existsb changed_line
              (Lines (ComputeDiff targetStruct transformed))) as Hflag.
  { rewrite ComputeDiff_closed_form. simpl.
    rewrite !existsb_app, existsb_changed_entries, existsb_changed_removed.
    simpl. by rewrite orb_false_r. }
  assert (HasChanges (ComputeDiff targetStruct transformed) = false
          ↔ Forall (fun l => LineType l = DiffUnchanged)
                   (Lines (ComputeDiff targetStruct transformed))) as Hall.
  { rewrite Hflag. apply existsb_changed_line_false. }
  split; [done|]. rewrite <- Hall.
  unfold FormatDiff, FormatColorDiff.
  destruct (HasChanges (ComputeDiff targetStruct transformed)); simpl.
  - assert (∀ buf ls, buf ≠ EmptyString →
              foldl FormatDiff_line buf ls ≠ EmptyString) as Hne.
    { intros buf ls. revert buf.
      induction ls as [|l ls IH]; intros buf Hbuf; [done|].
      simpl. apply IH. unfold FormatDiff_line.
      destruct (LineType l); try done; by destruct buf. }
    assert (∀ buf ls, buf ≠ EmptyString →
              foldl FormatColorDiff_line buf ls ≠ EmptyString) as Hne'.
    { intros buf ls. revert buf.
      induction ls as [|l ls IH]; intros buf Hbuf; [done|].
      simpl. apply IH. unfold FormatColorDiff_line.
      destruct (LineType l); try done; by destruct buf. }
    split; (split; [intros H; exfalso; revert H|done]).
    + by apply Hne.
    + by apply Hne'.
  - done.
Qed.

Lemma FormatDiff_lines (buf : string) (lines : list DiffLine) :
  Forall (fun l => LineType l ≠ DiffModified) lines →
  foldl FormatDiff_line buf lines
  = buf +:+ concat_strings (printed_line <$> lines).
Proof.
  revert buf. induction lines as [|l lines IH]; intros buf Hall.
  - simpl. by rewrite append_empty_r.
  - apply Forall_cons in Hall as [Hl Hall]. simpl. rewrite IH by done.
    unfold FormatDiff_line, printed_line.
    destruct (LineType l); try done; simpl; by rewrite append_assoc.
Qed.

(** X11.  [ComputeDiff] never makes a line of type [DiffModified], the
    one type that [FormatDiff] does not print: a changed field is a
    removed line followed by an added line.  So [FormatDiff] prints a
    computed diff in full, the heading and then every line with its
    marker, in order. *)
Theorem computed_diff_printed_in_full (targetStruct : ParsedStruct)
    (transformed : TransformResult) (targetPath : string) :
  Forall (fun l => LineType l ≠ DiffModified)
         (Lines (ComputeDiff targetStruct transformed))
  ∧ FormatDiff (ComputeDiff targetStruct transformed) targetPath
    = if HasChanges (ComputeDiff targetStruct transformed) then
        diff_heading targetPath (StructName targetStruct)
          +:+ concat_strings
                (printed_line
                   <$> Lines (ComputeDiff targetStruct transformed))
      else EmptyString.
Proof.
  assert (Forall (fun l => LineType l ≠ DiffModified)
                 (Lines (ComputeDiff targetStruct transformed))) as Hall.
  { rewrite ComputeDiff_closed_form. simpl.
    apply Forall_cons. split; [done|].
    apply Forall_app. split.
    - apply Forall_concat, Forall_fmap, Forall_forall. intros sf _.
      unfold source_entry. simpl.
      destruct (lookup_last fieldKey (tfieldKey sf) (Fields targetStruct));
        [|by repeat constructor].
      destruct (String.eqb _ _); by repeat constructor.
    - apply Forall_app. split; [|by repeat constructor].
      apply Forall_fmap, Forall_forall. by intros. }
  split; [done|].
  assert (DiffStructName (ComputeDiff targetStruct transformed)
          = StructName targetStruct) as Hname
    by by rewrite ComputeDiff_closed_form.
  unfold FormatDiff. rewrite Hname.
  destruct (HasChanges (ComputeDiff targetStruct transformed)); [|done].
  cbv zeta. unfold negb. rewrite FormatDiff_lines by done.
  unfold diff_heading. rewrite !append_empty_l. by rewrite !append_assoc.
Qed.

Lemma strip_colors_text (a b : string) :
  no_escape a = true →
  strip_colors false (a +:+ b) = a +:+ strip_colors false b.
Proof.
  induction a as [|c a IH]; [done|]. rewrite !append_String. simpl.
  destruct (Ascii.eqb c escape); [done|]. simpl. intros Ha. by rewrite IH.
Qed.

Lemma strip_colors_color (b : string) :
  strip_colors false (colorReset +:+ b) = strip_colors false b
  ∧ strip_colors false (colorRed +:+ b) = strip_colors false b
  ∧ strip_colors false (colorGreen +:+ b) = strip_colors false b
  ∧ strip_colors false (colorYellow +:+ b) = strip_colors false b
  ∧ strip_colors false (colorCyan +:+ b) = strip_colors false b.
Proof.
  unfold colorReset, colorRed, colorGreen, colorYellow, colorCyan.
  rewrite !append_String, !append_empty_l. by repeat split.
Qed.

Lemma FormatColorDiff_lines (buf : string) (lines : list DiffLine) :
  foldl FormatColorDiff_line buf lines
  = buf +:+ concat_strings (FormatColorDiff_line EmptyString <$> lines).
Proof.
  revert buf. induction lines as [|l lines IH]; intros buf.
  - simpl. by rewrite append_empty_r.
  - simpl. rewrite IH. unfold FormatColorDiff_line.
    destruct (LineType l); rewrite ?append_empty_l, ?append_assoc; done.
Qed.

Lemma FormatDiff_lines_any (buf : string) (lines : list DiffLine) :
  foldl FormatDiff_line buf lines
  = buf +:+ concat_strings (FormatDiff_line EmptyString <$> lines).
Proof.
  revert buf. induction lines as [|l lines IH]; intros buf.
  - simpl. by rewrite append_empty_r.
  - simpl. rewrite IH. unfold FormatDiff_line.
    destruct (LineType l); rewrite ?append_empty_l, ?append_assoc; done.
Qed.

Lemma strip_colors_lines (lines : list DiffLine) :
  Forall (fun l => no_escape (Content l) = true) lines →
  strip_colors false
    (concat_strings (FormatColorDiff_line EmptyString <$> lines))
  = concat_strings (FormatDiff_line EmptyString <$> lines).
Proof.
  induction 1 as [|l lines Hl _ IH]; [done|].
  rewrite !fmap_cons. simpl. rewrite <- IH.
  unfold FormatColorDiff_line, FormatDiff_line.
  destruct (LineType l); rewrite ?append_empty_l, ?append_assoc.
  - rewrite (strip_colors_text " ") by done.
    rewrite strip_colors_text by done. by rewrite (strip_colors_text newline).
  - rewrite (proj1 (proj2 (proj2 (strip_colors_color _)))).
    rewrite (strip_colors_text "+") by done.
    rewrite strip_colors_text by done.
    rewrite (proj1 (strip_colors_color _)).
    by rewrite (strip_colors_text newline).
  - rewrite (proj1 (proj2 (strip_colors_color _))).
    rewrite (strip_colors_text "-") by done.
    rewrite strip_colors_text by done.
    rewrite (proj1 (strip_colors_color _)).
    by rewrite (strip_colors_text newline).
  - done.
Qed.

(** X12.  The coloured diff carries the text of the plain diff: when the
    path, the name and the lines hold no escape byte, deleting the colour
    sequences from what [FormatColorDiff] prints leaves what [FormatDiff]
    prints. *)
Theorem colour_diff_strips_to_plain_diff (diff : DiffResult)
    (targetPath : string) :
  no_escape targetPath = true →
  no_escape (DiffStructName diff) = true →
  Forall (fun l => no_escape (Content l) = true) (Lines diff) →
  strip_colors false (FormatColorDiff diff targetPath)
  = FormatDiff diff targetPath.
Proof.
  intros Hpath Hname Hlines. unfold FormatColorDiff, FormatDiff.
  destruct (HasChanges diff); [|done]. cbv zeta. unfold negb.
  rewrite FormatColorDiff_lines, FormatDiff_lines_any.
  rewrite !append_empty_l, !append_assoc.
  destruct (strip_colors_color
              ("--- a/" +:+ targetPath +:+ colorReset +:+ newline
                 +:+ colorYellow +:+ "+++ b/" +:+ targetPath +:+ colorReset
                 +:+ newline +:+ colorCyan +:+ "@@ struct "
                 +:+ DiffStructName diff +:+ " @@" +:+ colorReset +:+ newline
                 +:+ concat_strings
                       (FormatColorDiff_line EmptyString <$> Lines diff)))
    as (_ & _ & _ & -> & _).
  rewrite (strip_colors_text "--- a/") by done.
  rewrite (strip_colors_text targetPath) by done.
  rewrite (proj1 (strip_colors_color _)).
  rewrite (strip_colors_text newline) by done.
  rewrite (proj1 (proj2 (proj2 (proj2 (strip_colors_color _))))).
  rewrite (strip_colors_text "+++ b/") by done.
  rewrite (strip_colors_text targetPath) by done.
  rewrite (proj1 (strip_colors_color _)).
  rewrite (strip_colors_text newline) by done.
  rewrite (proj2 (proj2 (proj2 (proj2 (strip_colors_color _))))).
  rewrite (strip_colors_text "@@ struct ") by done.
  rewrite (strip_colors_text (DiffStructName diff)) by done.
  rewrite (strip_colors_text " @@") by done.
  rewrite (proj1 (strip_colors_color _)).
  rewrite (strip_colors_text newline) by done.
  by rewrite strip_colors_lines.
Qed.

Lemma formatTransformedField_unchanged (f : ParsedField) :
  formatTransformedField (unchanged_field f) = formatField f.
Proof.
  unfold formatTransformedField, formatField, unchanged_field. simpl.
  by destruct (String.eqb (Type_ f) EmptyString).
Qed.

Lemma eqb_refl (s : string) : String.eqb s s = true.
Proof. by apply String.eqb_eq. Qed.

(** X13.  The diff of a declaration against its own fields, untouched,
    has no change: when the identity keys of the fields are distinct, it
    is the header, one unchanged line for each field, in order, and the
    closing brace. *)
Theorem diff_of_unchanged_fields (targetStruct : ParsedStruct)
    (excluded : list string) (modified : nat) :
  NoDup (fieldKey <$> Fields targetStruct) →
  ComputeDiff targetStruct
    {| ResultFields := unchanged_field <$> Fields targetStruct;
       ExcludedFields := excluded; ModifiedTags := modified |}
  = {| DiffStructName := StructName targetStruct;
       HasChanges := false;
       Lines :=
         ComputeDiff_header targetStruct
           :: ((fun f => {| LineType := DiffUnchanged;
                            Content := formatField f |})
                 <$> Fields targetStruct)
           ++ [ {| LineType := DiffUnchanged; Content := "}" |} ] |}.
Proof.
  intros Hnodup. rewrite ComputeDiff_closed_form. simpl.
  assert (filter included (unchanged_field <$> Fields targetStruct)
          = unchanged_field <$> Fields targetStruct) as ->.
  { apply filter_included_all, Forall_fmap, Forall_forall. by intros. }
  assert (∀ f, f ∈ Fields targetStruct →
            lookup_last fieldKey (tfieldKey (unchanged_field f))
              (Fields targetStruct) = Some f) as Hlook.
  { intros f Hf. by apply (lookup_last_NoDup fieldKey). }
  assert (∀ tf, tf ∈ Fields targetStruct →
            pending_removal (unchanged_field <$> Fields targetStruct) tf
            = false) as Hpend.
  { intros tf Htf. unfold pending_removal.
    rewrite bool_decide_eq_false_2; [done|].
    rewrite lookup_last_None. intros Hnone.
    apply (Hnone (unchanged_field tf)); [|done].
    by apply list_elem_of_fmap_2. }
  assert (∀ l, (∀ f, f ∈ l → f ∈ Fields targetStruct) →
            existsb (source_changed (Fields targetStruct))
                    (unchanged_field <$> l) = false
            ∧ concat (source_entry (Fields targetStruct)
                        <$> (unchanged_field <$> l))
              = (fun f => {| LineType := DiffUnchanged;
                             Content := formatField f |}) <$> l
            ∧ existsb (pending_removal
                         (unchanged_field <$> Fields targetStruct)) l = false
            ∧ filter (pending_removal
                        (unchanged_field <$> Fields targetStruct)) l = [])
    as Hl.
  { induction l as [|f l IH]; intros Hsub; [done|].
    destruct IH as (IH1 & IH2 & IH3 & IH4).
    { intros g Hg. apply Hsub. by right. }
    assert (f ∈ Fields targetStruct) as Hf by (apply Hsub; by left).
    rewrite !fmap_cons. simpl.
    unfold source_changed at 1, source_entry at 1.
    rewrite (Hlook f Hf), formatTransformedField_unchanged, eqb_refl.
    rewrite filter_cons, (Hpend f Hf). simpl.
    by rewrite IH1, IH2, IH3, IH4. }
  destruct (Hl (Fields targetStruct)) as (-> & -> & -> & ->); done.
Qed.

(** X14.  The key of the diff tells an embedded field from a named one,
    and the key of the builder does not: two fields have the same diff key
    exactly when they are of the same kind and have the same build key. *)
Theorem fieldKey_eq_iff (f g : ParsedField) :
  fieldKey f = fieldKey g
  ↔ IsEmbedded f = IsEmbedded g ∧ buildKey f = buildKey g.
Proof.
  unfold fieldKey, buildKey.
  destruct (IsEmbedded f), (IsEmbedded g); split.
  - intros H. split; [done|]. by apply append_inj_l in H.
  - by intros [_ ->].
  - rewrite !append_String. intros [=].
  - by intros [? _].
  - rewrite !append_String. intros [=].
  - by intros [? _].
  - intros H. split; [done|]. by apply append_inj_l in H.
  - by intros [_ ->].
Qed.

(** X15.  The test of the parser for a commented-out field is the
    stricter of the two: a comment line for which [IsCommentedField]
    returns a type is one for which [isFieldCommented] holds of every field
    that carries the line, and the type returned is the text of the line
    without the comment marker and the white space around it. *)
Theorem IsCommentedField_implies_isFieldCommented (comment fieldType : string)
    (f : ParsedField) :
  IsCommentedField comment = Some fieldType →
  fieldType = TrimSpace (TrimPrefix (TrimSpace comment) "//")
  ∧ (comment ∈ Comments f → isFieldCommented f = true).
Proof.
  unfold IsCommentedField. cbv zeta.
  destruct (HasPrefix (TrimSpace comment) "//") eqn:Hp; [|done]. cbn [negb].
  match goal with
  | |- (if ?b then _ else _) = _ → _ => destruct b; [|done]
  end.
  destruct (Contains (TrimSpace (TrimPrefix (TrimSpace comment) "//")) "."
            || HasPrefix (TrimSpace (TrimPrefix (TrimSpace comment) "//")) "*")
    eqn:Hc; [|done].
  intros [= <-]. split; [done|]. intros Hin.
  apply (isFieldCommented_loop_elem _ comment Hin Hp).
  apply orb_true_iff in Hc as [Hc|Hc]; by eauto.
Qed.

(** ** The builder *)

(** X16.  The field list that [BuildFieldsFromTransform] makes: the
    nodes of the retained upstream fields, in upstream order, and then,
    when fields are to be marked as deprecated, the stubs of the target
    fields that no upstream field matches, in target order.  When they
    are not to be marked, the target fields play no role: such a field is
    dropped.  The option [PruneDeprecated] is never read. *)
Theorem build_field_order (transformed : TransformResult)
    (existingFields : list ParsedField) (opts : MergeOptions) :
  BuildFields (BuildFieldsFromTransform transformed existingFields opts)
  = (buildField <$> filter included (ResultFields transformed))
    ++ (if MarkDeprecated opts then
          (fun ef => buildDeprecatedField ef (DeprecationMessage opts)
                       (MergeRemoveTags opts))
            <$> filter (target_only (ResultFields transformed)) existingFields
        else [])
  ∧ (MarkDeprecated opts = false →
     BuildFieldsFromTransform transformed existingFields opts
     = BuildFieldsFromTransform transformed [] opts)
  ∧ ∀ pruneDeprecated,
      BuildFieldsFromTransform transformed existingFields
        {| MarkDeprecated := MarkDeprecated opts;
           DeprecationMessage := DeprecationMessage opts;
           PruneDeprecated := pruneDeprecated;
           MergeRemoveTags := MergeRemoveTags opts |}
      = BuildFieldsFromTransform transformed existingFields opts.
Proof.
  split; [apply BuildFieldsFromTransform_closed_form|]. split.
  - intros Hmark.
    rewrite (BuildResult_eta (BuildFieldsFromTransform _ existingFields _)).
    rewrite (BuildResult_eta (BuildFieldsFromTransform _ [] _)).
    rewrite !BuildFieldsFromTransform_closed_form. by rewrite Hmark.
  - intros pruneDeprecated.
    rewrite (BuildResult_eta (BuildFieldsFromTransform _ _ opts)).
    rewrite (BuildResult_eta (BuildFieldsFromTransform _ _ {| MarkDeprecated := _ |})).
    by rewrite !BuildFieldsFromTransform_closed_form.
Qed.

(** X17.  What is written is what the diff showed: the field read back
    from the node that [buildField] makes for a transformed field is one
    field, whose line is the line that the diff prints for the
    transformed field, and it has the comments and the kind of the
    upstream field. *)
Theorem built_field_reads_back_as_shown (tf : TransformedField) :
  Type_ tf = exprToString (TypeExpr tf) →
  ∃ pf,
    extractField (buildField tf) = [pf]
    ∧ formatField pf = formatTransformedField tf
    ∧ Tags pf = NewTags tf
    ∧ Comments pf = Comments tf
    ∧ IsEmbedded pf = IsEmbedded tf.
Proof.
  intros Hwf. exists (reextracted tf).
  split; [apply extractField_buildField|].
  split; [by apply reextracted_format|]. done.
Qed.

(** X18.  [preserveCommentedField] and [extractField] are inverse to each
    other on the fields of the parser: the field read back from the node
    made for a field whose type text is that of its type expression (or
    that has no type expression), whose name is that text when it is
    embedded and is not empty when it is not, is the field itself, with a
    copy of its type expression. *)
Theorem preserved_field_reads_back (pf : ParsedField) :
  TypeExpr pf = NilExpr ∨ Type_ pf = exprToString (TypeExpr pf) →
  (if IsEmbedded pf then Name pf = Type_ pf else Name pf ≠ EmptyString) →
  extractField (preserveCommentedField pf)
  = [ {| Name := Name pf; Type_ := Type_ pf;
         TypeExpr := Field_Type (preserveCommentedField pf);
         Tags := Tags pf; Comments := Comments pf;
         IsEmbedded := IsEmbedded pf |} ]
  ∧ exprToString (Field_Type (preserveCommentedField pf)) = Type_ pf.
Proof.
  intros Hwf Hname.
  assert (exprToString (Field_Type (preserveCommentedField pf)) = Type_ pf)
    as Htype.
  { unfold preserveCommentedField, Field_Type. destruct Hwf as [Hnil|Hwf].
    - by rewrite Hnil.
    - revert Hwf. destruct (TypeExpr pf); intros ->; try done;
        apply exprToString_cloneExpr. }
  split; [|done].
  unfold extractField. rewrite Htype.
  unfold preserveCommentedField in *. simpl in *.
  assert (default EmptyString
            (if negb (String.eqb (Tags pf) EmptyString)
             then Some (Tags pf) else None) = Tags pf) as ->.
  { destruct (String.eqb_spec (Tags pf) EmptyString) as [->|]; done. }
  assert ((if (0 <? length (Comments pf))%nat then Comments pf else [])
          = Comments pf) as -> by (by destruct (Comments pf)).
  destruct (IsEmbedded pf); simpl.
  - by rewrite Hname.
  - apply eqb_false_iff in Hname. by rewrite Hname.
Qed.

Lemma removeKey_loop_absent (fuel : nat) (key result : string) :
  Index result (key_pattern key) = None →
  removeKey_loop fuel key result = result.
Proof.
  intros Hnone. destruct fuel; [done|]. simpl.
  unfold key_pattern in Hnone. by rewrite Hnone.
Qed.

(** X19.  The tag helper of the writer leaves a tag string without any of
    the keys as it is, but for the white space and the back quotes around
    it; and it reports every tag string that is not empty as modified,
    whether or not it removed a key. *)
Theorem tag_helper_keeps_tag_without_keys (tagStr : string)
    (removeSet : gmap string bool) :
  (∀ key, key ∈ rangeKeys removeSet →
          Index (Trim tagStr "`") (key_pattern key) = None) →
  transformTagsHelper tagStr removeSet
  = if String.eqb tagStr EmptyString then (EmptyString, false)
    else if String.eqb (Trim tagStr "`") EmptyString then (EmptyString, false)
    else if String.eqb (TrimSpace (Trim tagStr "`")) EmptyString
         then (EmptyString, true)
         else ("`" +:+ TrimSpace (Trim tagStr "`") +:+ "`", true).
Proof.
  intros Hkeys. unfold transformTagsHelper.
  destruct (String.eqb tagStr EmptyString); [done|].
  destruct (String.eqb (Trim tagStr "`") EmptyString); [done|].
  assert (foldl (fun result key =>
                   removeKey_loop (String.length result) key result)
                (Trim tagStr "`") (rangeKeys removeSet)
          = Trim tagStr "`") as ->; [|done].
  induction (rangeKeys removeSet) as [|key keys IH]; [done|].
  simpl. rewrite removeKey_loop_absent by (apply Hkeys; by left).
  apply IH. intros k Hk. apply Hkeys. by right.
Qed.

(** ** The run *)

Local Opaque ComputeDiff BuildFieldsFromTransform TransformStruct.

Lemma set_stats_stats (s : Syncer) : set_stats s (stats s) = s.
Proof. by destruct s. Qed.

Lemma ParseFile_Path (w : World) (path : string) (pf : ParsedFile) :
  ParseFile w path = Ok pf → Path pf = path.
Proof.
  unfold ParseFile. destruct (files w !! path); [|done]. by intros [= <-].
Qed.

Lemma UpdateStructInFile_Path (pf pf' : ParsedFile) (name : string)
    (buildResult : BuildResult) :
  UpdateStructInFile pf name buildResult = Ok pf' → Path pf' = Path pf.
Proof.
  unfold UpdateStructInFile.
  destruct (UpdateStruct_decls _ _ _) as [[decls|e]|]; try done.
  by intros [= <-].
Qed.

Lemma syncStruct_additional_Path (opts : TransformOpts)
    (mergeOpts : MergeOptions) (additionalStructs : list ParsedStruct)
    (pf pf' : ParsedFile) :
  syncStruct_additional opts mergeOpts pf additionalStructs = Some (Ok pf') →
  Path pf' = Path pf.
Proof.
  revert pf. induction additionalStructs as [|addStruct rest IH]; intros pf.
  - by intros [= <-].
  - simpl. destruct (TransformStruct addStruct opts) as [tr|]; [|done]. simpl.
    destruct (ExtractStruct pf (StructName addStruct)); [|apply IH].
    destruct (UpdateStructInFile pf _ _) as [pf1|e] eqn:Hup; [|done].
    intros H%IH. rewrite H. by eapply UpdateStructInFile_Path.
Qed.

Lemma syncStruct_effect (s s' : Syncer) (w w' : World) (def : StructDef)
    (err : option string) :
  syncStruct s w def = Some (s', w', err) →
  s' = set_stats s (stats s')
  ∧ TotalStructs (stats s') = TotalStructs (stats s)
  ∧ ChangedStructs (stats s) ≤ ChangedStructs (stats s')
  ∧ ChangedStructs (stats s') ≤ S (ChangedStructs (stats s))
  ∧ StatsModifiedTags (stats s) ≤ StatsModifiedTags (stats s')
  ∧ (DryRun s = true → is_Some err → stats s' = stats s)
  ∧ (w' = w
     ∨ DryRun s = false ∧ err = None ∧ readonly w' = readonly w
       ∧ ∃ decls,
           files w' = <[targetFile_of s def := decls]> (files w)).
Proof.
  assert (∀ e, s' = s → w' = w → err = Some e →
            s' = set_stats s (stats s')
            ∧ TotalStructs (stats s') = TotalStructs (stats s)
            ∧ ChangedStructs (stats s) ≤ ChangedStructs (stats s')
            ∧ ChangedStructs (stats s') ≤ S (ChangedStructs (stats s))
            ∧ StatsModifiedTags (stats s) ≤ StatsModifiedTags (stats s')
            ∧ (DryRun s = true → is_Some err → stats s' = stats s)
            ∧ (w' = w
               ∨ DryRun s = false ∧ err = None ∧ readonly w' = readonly w
                 ∧ ∃ decls,
                     files w' = <[targetFile_of s def := decls]> (files w)))
    as Hearly.
  { intros e -> -> ->. rewrite set_stats_stats.
    repeat split; try done; try lia. by left. }
  unfold syncStruct. intros H.
  destruct (SourcePaths s !! DefSource def) as [sourceDir|];
    [|injection H as <- <- <-; by eapply Hearly].
  destruct (ParseFile w (filepath_Join sourceDir _)) as [sourceParsed|e];
    [|injection H as <- <- <-; by eapply Hearly].
  destruct (ExtractStruct sourceParsed (DefName def)) as [sourceStruct|e];
    [|injection H as <- <- <-; by eapply Hearly].
  destruct (ParseFile w (filepath_Join (Target (Syncer_Config s)) _))
    as [targetParsed|e] eqn:Htp;
    [|injection H as <- <- <-; by eapply Hearly].
  destruct (ExtractStruct targetParsed (DefName def)) as [targetStruct|e];
    [|injection H as <- <- <-; by eapply Hearly].
  destruct (TransformStruct sourceStruct (Transform (Syncer_Config s)))
    as [transformed|]; [|done].
  change (Some transformed ≫= ?f) with (f transformed) in H. cbv beta zeta in H.
  clear Hearly.
  destruct (HasChanges (ComputeDiff targetStruct transformed)) eqn:Hch;
    simpl in H; destruct (DryRun s) eqn:Hdry; simpl in H.
  - injection H as <- <- <-. simpl.
    repeat split; try done; try lia; try by left; try by intros _ [? ?].
  - destruct (UpdateStructInFile targetParsed (DefName def) _)
      as [targetParsed'|e] eqn:Hup.
    2:{ injection H as <- <- <-. simpl.
        repeat split; try done; try lia; by left. }
    destruct (syncStruct_additional _ _ targetParsed' _)
      as [[targetParsed''|e]|] eqn:Hadd; simpl in H; [| |done].
    2:{ injection H as <- <- <-. simpl.
        repeat split; try done; try lia; by left. }
    unfold WriteFile in H.
    destruct (bool_decide (Path targetParsed'' ∈ readonly w)).
    { injection H as <- <- <-. simpl.
      repeat split; try done; try lia; by left. }
    injection H as <- <- <-. simpl.
    repeat split; try done; try lia. right.
    repeat split; try done. exists (File targetParsed''). f_equal.
    unfold targetFile_of.
    rewrite (syncStruct_additional_Path _ _ _ _ _ Hadd).
    rewrite (UpdateStructInFile_Path _ _ _ _ Hup).
    by apply ParseFile_Path in Htp.
  - injection H as <- <- <-. simpl.
    repeat split; try done; try lia; try by left; try by intros _ [? ?].
  - injection H as <- <- <-. simpl.
    repeat split; try done; try lia; try by left.
Qed.

Lemma Run_loop_effect (structs : list StructDef) (s s' : Syncer)
    (w w' : World) :
  Run_loop s w structs = Some (s', w') →
  s' = set_stats s (stats s')
  ∧ TotalStructs (stats s) ≤ TotalStructs (stats s')
  ∧ TotalStructs (stats s') ≤ TotalStructs (stats s) + length structs
  ∧ ChangedStructs (stats s) ≤ ChangedStructs (stats s')
  ∧ ChangedStructs (stats s') ≤ ChangedStructs (stats s) + length structs
  ∧ StatsModifiedTags (stats s) ≤ StatsModifiedTags (stats s')
  ∧ (DryRun s = true →
     w' = w
     ∧ ChangedStructs (stats s') - ChangedStructs (stats s)
       ≤ TotalStructs (stats s') - TotalStructs (stats s))
  ∧ readonly w' = readonly w
  ∧ ∀ path, files w' !! path ≠ files w !! path →
      DryRun s = false
      ∧ ∃ def, def ∈ structs ∧ selected s def = true
               ∧ path = targetFile_of s def.
Proof.
  revert s w. induction structs as [|def structs IH]; intros s w.
  - intros [= <- <-]. rewrite set_stats_stats. repeat split; try done; lia.
  - simpl.
    destruct (negb (String.eqb (StructFilter s) EmptyString)
              && negb (String.eqb (DefName def) (StructFilter s))) eqn:Hsel.
    { intros H. destruct (IH _ _ H)
        as (Hs & Ht1 & Ht2 & Hc1 & Hc2 & Hm & Hdry & Hro & Hfiles).
      repeat split; try done; try lia; try (by apply Hdry).
      - by apply (Hfiles path).
      - destruct (Hfiles path) as (_ & d & Hd & ? & ?); [done|].
        exists d. split; [by right|done]. }
    destruct (syncStruct s w def) as [[[s1 w1] err]|] eqn:Hsync; [|done].
    simpl. intros H.
    destruct (syncStruct_effect _ _ _ _ _ _ Hsync)
      as (Hs1 & Ht & Hc1 & Hc2 & Hm & Herr & Hw).
    assert (selected s def = true) as Hselected.
    { unfold selected. destruct (String.eqb (StructFilter s) EmptyString);
        [done|]. simpl in *. by apply negb_false_iff in Hsel. }
    assert (∃ s2, Run_loop s2 w1 structs = Some (s', w')
                  ∧ s2 = set_stats s (stats s2)
                  ∧ TotalStructs (stats s) ≤ TotalStructs (stats s2)
                  ∧ TotalStructs (stats s2) ≤ S (TotalStructs (stats s))
                  ∧ ChangedStructs (stats s2) = ChangedStructs (stats s1)
                  ∧ StatsModifiedTags (stats s2) = StatsModifiedTags (stats s1)
                  ∧ (DryRun s = true →
                     ChangedStructs (stats s2) - ChangedStructs (stats s)
                     ≤ TotalStructs (stats s2) - TotalStructs (stats s)))
      as (s2 & Hrun & Hs2 & Ht1 & Ht2 & Hc & Hmt & Hd2).
    { destruct err as [e|].
      - exists s1. repeat split; try done; try lia.
        intros Hdry. rewrite (Herr Hdry) by done. lia.
      - exists (set_stats s1 (incr_TotalStructs (stats s1))).
        split; [done|]. rewrite Hs1. simpl.
        repeat split; try done; try lia. }
    destruct (IH _ _ Hrun)
      as (Hs' & Ht1' & Ht2' & Hc1' & Hc2' & Hm' & Hdry' & Hro' & Hfiles').
    assert (DryRun s2 = DryRun s) as Hd by by rewrite Hs2.
    assert (∀ d, targetFile_of s2 d = targetFile_of s d
                 ∧ selected s2 d = selected s d) as Hsame
      by (intros d; by rewrite Hs2).
    rewrite Hd in Hdry', Hfiles'.
    split; [by rewrite Hs', Hs2|].
    repeat split; try lia.
    + destruct (Hdry' H0) as [-> _].
      destruct Hw as [->|(Hf & _)]; [done|congruence].
    + destruct (Hdry' H0) as [_ ?]. specialize (Hd2 H0). lia.
    + rewrite Hro'. by destruct Hw as [->|(_ & _ & -> & _)].
    + destruct Hw as [->|(? & _)]; [|done]. by destruct (Hfiles' path).
    + assert (files w' !! path ≠ files w1 !! path
              → ∃ d, d ∈ def :: structs ∧ selected s d = true
                     ∧ path = targetFile_of s d) as Hrest.
      { intros Hne. destruct (Hfiles' path Hne) as (_ & d & Hin & Hsl & Hp).
        exists d. destruct (Hsame d) as [<- <-]. split; [by right|done]. }
      destruct Hw as [->|(_ & _ & _ & decls & Hf)]; [by apply Hrest|].
      destruct (decide (targetFile_of s def = path)) as [<-|Hp].
      * exists def. split; [by left|done].
      * apply Hrest. by rewrite Hf, lookup_insert_ne.
Qed.

(** X20.  A dry run writes nothing: the files after the run are the files
    before it, whatever the diffs are; and in a dry run no more
    declarations are counted as changed than are counted as processed. *)
Theorem dry_run_writes_nothing (s s' : Syncer) (w w' : World) :
  DryRun s = true →
  Run s w = Some (s', w') →
  w' = w
  ∧ ChangedStructs (stats s') - ChangedStructs (stats s)
    ≤ TotalStructs (stats s') - TotalStructs (stats s).
Proof.
  intros Hdry Hrun. apply Run_loop_effect in Hrun.
  by apply Hrun.
Qed.

(** X21.  The diff flag makes the run a dry run: the syncer that [main]
    creates has its dry run flag set when either flag is given, so a run
    with the diff flag never writes a file. *)
Theorem diff_flag_implies_dry_run (fl : Flags) (cfg : Config)
    (sourcePaths : gmap string string) (s' : Syncer) (w w' : World) :
  DryRun (main_Syncer fl cfg sourcePaths)
  = flag_dryRun fl || flag_showDiff fl
  ∧ (flag_showDiff fl = true →
     Run (main_Syncer fl cfg sourcePaths) w = Some (s', w') →
     w' = w).
Proof.
  assert (DryRun (main_Syncer fl cfg sourcePaths)
          = flag_dryRun fl || flag_showDiff fl) as Hdry.
  { simpl. by destruct (flag_showDiff fl), (flag_dryRun fl). }
  split; [done|]. intros Hdiff Hrun. apply Run_loop_effect in Hrun.
  apply Hrun. rewrite Hdry, Hdiff. by destruct (flag_dryRun fl).
Qed.

(** X22.  A run changes the statistics of the syncer and nothing else of
    it, and the counters only grow: the number of processed declarations
    and the number of changed declarations by at most the number of the
    configured declarations. *)
Theorem run_changes_statistics_only (s s' : Syncer) (w w' : World) :
  Run s w = Some (s', w') →
  s' = set_stats s (stats s')
  ∧ TotalStructs (stats s) ≤ TotalStructs (stats s')
  ∧ TotalStructs (stats s')
    ≤ TotalStructs (stats s) + length (Structs (Syncer_Config s))
  ∧ ChangedStructs (stats s) ≤ ChangedStructs (stats s')
  ∧ ChangedStructs (stats s')
    ≤ ChangedStructs (stats s) + length (Structs (Syncer_Config s))
  ∧ StatsModifiedTags (stats s) ≤ StatsModifiedTags (stats s').
Proof.
  intros Hrun. apply Run_loop_effect in Hrun.
  destruct Hrun as (? & ? & ? & ? & ? & ? & _). by repeat split.
Qed.

(** X23.  A run writes target files only: a path whose content after the
    run is not its content before it is the target file of a configured
    declaration that the filter lets through, and the run is not a dry
    run.  No upstream file is written unless it is such a target file,
    and no file becomes writable or read-only. *)
Theorem run_writes_target_files_only (s s' : Syncer) (w w' : World)
    (path : string) :
  Run s w = Some (s', w') →
  readonly w' = readonly w
  ∧ (files w' !! path ≠ files w !! path →
     DryRun s = false
     ∧ ∃ def, def ∈ Structs (Syncer_Config s) ∧ selected s def = true
              ∧ path = targetFile_of s def).
Proof.
  intros Hrun. apply Run_loop_effect in Hrun.
  destruct Hrun as (_ & _ & _ & _ & _ & _ & _ & Hro & Hfiles).
  split; [done|]. apply Hfiles.
Qed.

Lemma Run_loop_filter (name : string) (structs : list StructDef)
    (s : Syncer) (w : World) :
  StructFilter s = name → name ≠ EmptyString →
  Run_loop s w structs
  = Run_loop s w (filter (fun def => DefName def = name) structs).
Proof.
  intros Hname Hne. revert s w Hname.
  induction structs as [|def structs IH]; intros s w Hname; [done|].
  assert (String.eqb (StructFilter s) EmptyString = false) as Hf
    by (apply eqb_false_iff; by rewrite Hname).
  destruct (decide (DefName def = name)) as [Hd|Hd].
  - rewrite filter_cons_True by done. simpl. rewrite Hf, Hname.
    assert (String.eqb (DefName def) name = true) as ->
      by by apply String.eqb_eq.
    simpl.
    destruct (syncStruct s w def) as [[[s1 w1] err]|] eqn:Hsync; [|done].
    simpl. destruct (syncStruct_effect _ _ _ _ _ _ Hsync) as (Hs1 & _).
    destruct err; apply IH; rewrite Hs1; simpl; by rewrite <- Hname.
  - rewrite filter_cons_False by done. simpl. rewrite Hf, Hname.
    assert (String.eqb (DefName def) name = false) as ->
      by by apply eqb_false_iff.
    simpl. by apply IH.
Qed.

(** X24.  With a filter, the run is the run over the configured
    declarations of that name, the others being passed over; so a filter
    that names no configured declaration makes the run do nothing, and
    that without an error. *)
Theorem run_with_filter (s : Syncer) (w : World) :
  StructFilter s ≠ EmptyString →
  Run s w
  = Run_loop s w (filter (fun def => DefName def = StructFilter s)
                         (Structs (Syncer_Config s)))
  ∧ (Forall (fun def => DefName def ≠ StructFilter s)
            (Structs (Syncer_Config s)) →
     Run s w = Some (s, w)).
Proof.
  intros Hne. unfold Run. rewrite (Run_loop_filter (StructFilter s)) by done.
  split; [done|]. intros Hall.
  assert (filter (fun def => DefName def = StructFilter s)
                 (Structs (Syncer_Config s)) = []) as ->; [|done].
  induction Hall as [|def structs Hdef _ IH]; [done|].
  by rewrite filter_cons_False by done.
Qed.

Lemma BuildFieldsFromTransform_prune (transformed : TransformResult)
    (existingFields : list ParsedField) (m : bool) (d : string) (p : bool)
    (r : list string) :
  BuildFieldsFromTransform transformed existingFields
    {| MarkDeprecated := m; DeprecationMessage := d; PruneDeprecated := p;
       MergeRemoveTags := r |}
  = BuildFieldsFromTransform transformed existingFields
      {| MarkDeprecated := m; DeprecationMessage := d;
         PruneDeprecated := false; MergeRemoveTags := r |}.
Proof.
  rewrite (BuildResult_eta (BuildFieldsFromTransform _ _ _)).
  rewrite (BuildResult_eta
             (BuildFieldsFromTransform _ _ {| PruneDeprecated := false |})).
  by rewrite !BuildFieldsFromTransform_closed_form.
Qed.

Lemma syncStruct_additional_prune (opts : TransformOpts)
    (additionalStructs : list ParsedStruct) (pf : ParsedFile)
    (m : bool) (d : string) (p : bool) (r : list string) :
  syncStruct_additional opts
    {| MarkDeprecated := m; DeprecationMessage := d; PruneDeprecated := p;
       MergeRemoveTags := r |} pf additionalStructs
  = syncStruct_additional opts
      {| MarkDeprecated := m; DeprecationMessage := d;
         PruneDeprecated := false; MergeRemoveTags := r |}
      pf additionalStructs.
Proof.
  revert pf. induction additionalStructs as [|addStruct rest IH]; intros pf;
    [done|].
  simpl. destruct (TransformStruct addStruct opts) as [tr|]; [|done]. simpl.
  destruct (ExtractStruct pf (StructName addStruct)); [|apply IH].
  rewrite BuildFieldsFromTransform_prune.
  destruct (UpdateStructInFile pf _ _); [apply IH|done].
Qed.

Lemma syncStruct_prune (s : Syncer) (w : World) (def : StructDef)
    (pruneDeprecated : bool) :
  syncStruct (set_PruneDeprecated s pruneDeprecated) w def
  = (fun r : Syncer * World * option string =>
       (set_PruneDeprecated r.1.1 pruneDeprecated, r.1.2, r.2))
      <$> syncStruct s w def.
Proof.
  unfold syncStruct. simpl.
  destruct (SourcePaths s !! DefSource def) as [sourceDir|]; [|done].
  destruct (ParseFile w (filepath_Join sourceDir _)); [|done].
  destruct (ExtractStruct _ (DefName def)) as [sourceStruct|]; [|done].
  destruct (ParseFile w (filepath_Join (Target (Syncer_Config s)) _))
    as [targetParsed|]; [|done].
  destruct (ExtractStruct targetParsed (DefName def)) as [targetStruct|];
    [|done].
  destruct (TransformStruct sourceStruct (Transform (Syncer_Config s)))
    as [transformed|]; [|done].
  change (Some transformed ≫= ?f) with (f transformed). cbv beta zeta.
  destruct (HasChanges (ComputeDiff targetStruct transformed)); simpl;
    destruct (DryRun s); simpl; try done.
  rewrite (BuildFieldsFromTransform_prune _ _ _ _ pruneDeprecated).
  rewrite (BuildFieldsFromTransform_prune _ _ _ _ (Syncer_PruneDeprecated s)).
  destruct (UpdateStructInFile targetParsed (DefName def) _) as [pf1|];
    [|done].
  rewrite (syncStruct_additional_prune _ _ _ _ _ pruneDeprecated).
  rewrite (syncStruct_additional_prune _ _ _ _ _ (Syncer_PruneDeprecated s)).
  destruct (syncStruct_additional _ _ _ _) as [[pf'|]|]; simpl; try done.
  by destruct (WriteFile w pf').
Qed.

Lemma Run_loop_prune (structs : list StructDef) (s : Syncer) (w : World)
    (pruneDeprecated : bool) :
  Run_loop (set_PruneDeprecated s pruneDeprecated) w structs
  = (fun r : Syncer * World => (set_PruneDeprecated r.1 pruneDeprecated, r.2))
      <$> Run_loop s w structs.
Proof.
  revert s w. induction structs as [|def structs IH]; intros s w; [done|].
  simpl. destruct (negb _ && negb _); [apply IH|].
  rewrite syncStruct_prune.
  destruct (syncStruct s w def) as [[[s1 w1] err]|]; [|done]. simpl.
  destruct err; [apply IH|].
  apply (IH (set_stats s1 (incr_TotalStructs (stats s1)))).
Qed.

(** X25.  The flag [PruneDeprecated] has no effect: it is handed to the
    builder, which never reads it, so the run with the flag set writes the
    files and counts the statistics of the run without it. *)
Theorem prune_deprecated_has_no_effect (s : Syncer) (w : World)
    (pruneDeprecated : bool) :
  Run (set_PruneDeprecated s pruneDeprecated) w
  = (fun r : Syncer * World => (set_PruneDeprecated r.1 pruneDeprecated, r.2))
      <$> Run s w.
Proof. apply Run_loop_prune. Qed.

Local Transparent ComputeDiff BuildFieldsFromTransform TransformStruct.

(** ** The configuration and the sources *)

Lemma Validate_structs_None (sources : gmap string SourceDef)
    (structs : list StructDef) :
  Validate_structs sources structs = None
  ↔ Forall (fun def => DefSource def ≠ EmptyString
                       ∧ is_Some (sources !! DefSource def)) structs.
Proof.
  induction structs as [|def structs IH]; simpl.
  - split; [by constructor|done].
  - rewrite Forall_cons, <- IH.
    destruct (String.eqb_spec (DefSource def) EmptyString) as [->|Hne].
    + split; [done|]. by intros [[? _] _].
    + destruct (sources !! DefSource def) as [src|].
      * split; [by eauto|]. by intros [_ ?].
      * split; [done|]. by intros [[_ [? ?]] _].
Qed.

Lemma CloneSources_overrides_spec (sources : gmap string SourceDef)
    (entries : list (string * string)) (acc paths : gmap string string) :
  NoDup entries.*1 →
  CloneSources_overrides sources entries acc = Ok paths →
  paths = list_to_map entries ∪ acc
  ∧ Forall (fun entry => is_Some (sources !! entry.1)) entries.
Proof.
  revert acc paths.
  induction entries as [|[k v] entries IH]; intros acc paths Hnodup.
  - intros [= <-]. split; [|done]. simpl. by rewrite (left_id_L ∅ (∪)).
  - rewrite fmap_cons in Hnodup. apply NoDup_cons in Hnodup as [Hk Hnodup].
    cbn [CloneSources_overrides].
    destruct (sources !! k) as [src|] eqn:Hsrc; [|done].
    intros H. destruct (IH _ _ Hnodup H) as [-> Hall].
    split; [|constructor; [simpl; by eauto|done]].
    rewrite list_to_map_cons, <- insert_union_l. symmetry.
    apply insert_union_r. by apply not_elem_of_list_to_map_1.
Qed.

Lemma CloneSources_clone_spec (sources : gmap string SourceDef)
    (tmpDir : string) (toClone : list string) (acc paths : gmap string string)
    (name : string) :
  CloneSources_clone sources tmpDir toClone acc = Ok paths →
  paths !! name
  = if decide (name ∈ toClone)
    then Some (clone_path tmpDir name (default zeroSourceDef (sources !! name)))
    else acc !! name.
Proof.
  revert acc. induction toClone as [|n toClone IH]; intros acc.
  - intros [= <-]. by rewrite decide_False by apply not_elem_of_nil.
  - simpl. destruct (git_clone _); [|done]. simpl. intros H.
    rewrite (IH _ H).
    destruct (decide (name ∈ toClone)) as [Hin|Hnin].
    + by rewrite decide_True by by right.
    + destruct (decide (n = name)) as [->|Hne].
      * rewrite decide_True by by left. by rewrite lookup_insert_eq.
      * rewrite decide_False; [by rewrite lookup_insert_ne|].
        intros [?|?]%elem_of_cons; done.
Qed.

Lemma CloneSources_spec (sources : gmap string SourceDef)
    (overrides paths : gmap string string) (cleanup : option string) :
  rangeOverrides overrides ≡ₚ map_to_list overrides →
  rangeSources sources ≡ₚ (map_to_list sources).*1 →
  CloneSources sources overrides = Ok (paths, cleanup) →
  (∀ name,
     paths !! name
     = match overrides !! name with
       | Some localPath => Some localPath
       | None =>
           clone_path (default EmptyString os_MkdirTemp) name
             <$> sources !! name
       end)
  ∧ dom overrides ⊆ dom sources
  ∧ (cleanup = None ↔ dom sources ⊆ dom overrides)
  ∧ (cleanup = None ∨ cleanup = os_MkdirTemp).
Proof.
  intros Hro Hrs. unfold CloneSources.
  destruct (CloneSources_overrides sources (rangeOverrides overrides) ∅)
    as [paths0|e] eqn:Hov; [|done].
  apply CloneSources_overrides_spec in Hov as [-> Hall].
  2:{ rewrite Hro. apply NoDup_fst_map_to_list. }
  rewrite (right_id_L ∅ (∪)).
  assert (list_to_map (rangeOverrides overrides) = overrides) as ->.
  { rewrite <- (list_to_map_to_list overrides) at 2.
    apply list_to_map_proper; [|done].
    rewrite Hro. apply NoDup_fst_map_to_list. }
  assert (dom overrides ⊆ dom sources) as Hsub.
  { intros k [v Hk]%elem_of_dom. apply elem_of_dom.
    rewrite Forall_forall in Hall. apply (Hall (k, v)).
    rewrite Hro. by apply elem_of_map_to_list. }
  assert (∀ name, name ∈ filter (fun name => overrides !! name = None)
                            (rangeSources sources)
                  ↔ is_Some (sources !! name) ∧ overrides !! name = None)
    as HtoClone.
  { intros name. rewrite list_elem_of_filter, Hrs, list_elem_of_fmap.
    split.
    - intros [? ([k src] & -> & Hin%elem_of_map_to_list)]. by eauto.
    - intros [[src Hsrc] ?]. split; [done|]. exists (name, src).
      split; [done|]. by apply elem_of_map_to_list. }
  destruct (length (filter _ (rangeSources sources)) =? 0)%nat eqn:Hlen.
  - apply Nat.eqb_eq, nil_length_inv in Hlen.
    rewrite Hlen in HtoClone. intros [= <- <-].
    assert (dom sources ⊆ dom overrides) as Hsup.
    { intros k Hk%elem_of_dom. apply elem_of_dom.
      destruct (overrides !! k) eqn:Hok; [done|].
      exfalso. by apply (not_elem_of_nil k), HtoClone. }
    split; [|split; [done|split; [done|by left]]]. intros name.
    destruct (overrides !! name) eqn:Hok; [done|].
    destruct (sources !! name) eqn:Hsrc; [|done].
    exfalso. apply (not_elem_of_nil name), HtoClone. by eauto.
  - destruct os_MkdirTemp as [tmpDir|]; [|done].
    destruct (CloneSources_clone sources tmpDir _ overrides)
      as [paths1|e] eqn:Hcl; [|done].
    intros [= <- <-]. split; [|split; [done|split; [|by right]]].
    + intros name. rewrite (CloneSources_clone_spec _ _ _ _ _ name Hcl).
      destruct (decide (name ∈ _)) as [Hin|Hnin].
      * apply HtoClone in Hin as [[src Hsrc] ->]. by rewrite Hsrc.
      * destruct (overrides !! name) eqn:Hok; [done|].
        destruct (sources !! name) eqn:Hsrc; [|done].
        exfalso. apply Hnin, HtoClone. by eauto.
    + split; [done|]. intros Hsup. exfalso.
      destruct (filter _ (rangeSources sources)) as [|name l] eqn:Hf;
        [done|].
      destruct (proj1 (HtoClone name)) as [Hsrc Hok]; [by left|].
      apply elem_of_dom, Hsup, elem_of_dom in Hsrc as [? ?]. congruence.
Qed.

(** X26.  When [CloneSources] succeeds, every configured source has a
    local path and no other name has one: an overridden source has the
    path of its override as it is, and any other source its place under
    the temporary directory.  Nothing is cleaned up exactly when every
    source is overridden, so a local checkout is never removed. *)
Theorem clone_sources_paths (sources : gmap string SourceDef)
    (overrides paths : gmap string string) (cleanup : option string) :
  rangeOverrides overrides ≡ₚ map_to_list overrides →
  rangeSources sources ≡ₚ (map_to_list sources).*1 →
  CloneSources sources overrides = Ok (paths, cleanup) →
  dom paths = dom sources
  ∧ (∀ name,
       paths !! name
       = match overrides !! name with
         | Some localPath => Some localPath
         | None =>
             clone_path (default EmptyString os_MkdirTemp) name
               <$> sources !! name
         end)
  ∧ (cleanup = None ↔ dom sources ⊆ dom overrides)
  ∧ (cleanup = None ∨ cleanup = os_MkdirTemp).
Proof.
  intros Hro Hrs Hcl.
  destruct (CloneSources_spec _ _ _ _ Hro Hrs Hcl)
    as (Hpaths & Hsub & Hclean & Hdir).
  split; [|done]. apply set_eq. intros name.
  rewrite !elem_of_dom, Hpaths.
  destruct (overrides !! name) as [p|] eqn:Hok.
  - split; [|by eauto]. intros _. apply elem_of_dom, Hsub, elem_of_dom.
    by eauto.
  - by rewrite fmap_is_Some.
Qed.

(** X27.  What [Validate] accepts: a configuration with a source, a
    target directory that exists and a struct, in which every struct
    names a configured source.  So after [Validate] and [CloneSources]
    have succeeded, the look up of the source path with which
    [syncStruct] starts succeeds for every configured struct. *)
Theorem validated_sources_resolve (c : LoadedConfig)
    (overrides paths : gmap string string) (cleanup : option string) :
  Validate c = None →
  (Sources c ≠ ∅ ∧ Target c ≠ EmptyString ∧ Structs c ≠ []
   ∧ os_Stat_IsNotExist (Target c) = false
   ∧ Forall (fun def => DefSource def ≠ EmptyString
                        ∧ is_Some (Sources c !! DefSource def)) (Structs c))
  ∧ (rangeOverrides overrides ≡ₚ map_to_list overrides →
     rangeSources (Sources c) ≡ₚ (map_to_list (Sources c)).*1 →
     CloneSources (Sources c) overrides = Ok (paths, cleanup) →
     Forall (fun def => is_Some (paths !! DefSource def)) (Structs c)).
Proof.
  unfold Validate. intros Hval.
  destruct (size (Sources c) =? 0)%nat eqn:Hsize; [done|].
  destruct (String.eqb_spec (Target c) EmptyString) as [|Htarget]; [done|].
  destruct (length (Structs c) =? 0)%nat eqn:Hlen; [done|].
  destruct (Validate_structs (Sources c) (Structs c)) eqn:Hstructs; [done|].
  destruct (os_Stat_IsNotExist (Target c)) eqn:Hstat; [done|].
  apply Validate_structs_None in Hstructs.
  split.
  - split; [|split; [done|split; [|done]]].
    + intros Hempty. rewrite Hempty, map_size_empty in Hsize. done.
    + intros Hnil. by rewrite Hnil in Hlen.
  - intros Hro Hrs Hcl.
    destruct (CloneSources_spec _ _ _ _ Hro Hrs Hcl) as (Hpaths & _).
    eapply Forall_impl; [exact Hstructs|]. intros def [_ [src Hsrc]].
    rewrite Hpaths, Hsrc. by destruct (overrides !! DefSource def).
Qed.

(** ** The merge *)

Lemma keys_of_kind_cons (kind : MergeKind) (target : list ParsedField)
    (tf : TransformedField) (l : list TransformedField) :
  keys_of_kind kind target (tf :: l)
  = (if included tf && bool_decide (merge_kind target tf = kind)
     then [buildKey tf] else [])
    ++ keys_of_kind kind target l.
Proof.
  unfold keys_of_kind. rewrite (filter_cons included).
  destruct (included tf); simpl; [|done].
  rewrite filter_cons. case_bool_decide.
  - by rewrite decide_True by done.
  - by rewrite decide_False by done.
Qed.

Lemma MergeStructs_source_fold (targetFields : gmap string ParsedField)
    (target : list ParsedField) (l : list TransformedField)
    (result : MergeResult) (newFields : list Field) :
  (∀ k, targetFields !! k = lookup_last buildKey k target) →
  foldl (MergeStructs_source targetFields) (result, newFields) l
  = ({| MergeNewFields :=
          MergeNewFields result ++ keys_of_kind KindNew target l;
        MergeRemovedFields := MergeRemovedFields result;
        ModifiedFields :=
          ModifiedFields result ++ keys_of_kind KindModified target l;
        UnchangedFields :=
          UnchangedFields result ++ keys_of_kind KindUnchanged target l;
        DeprecatedFields := DeprecatedFields result |},
     newFields ++ (createField <$> filter included l)).
Proof.
  intros Hmap. revert result newFields.
  induction l as [|tf l IH]; intros result newFields.
  - destruct result. unfold keys_of_kind. simpl. by rewrite !app_nil_r.
  - cbn [foldl].
    destruct (MergeStructs_source targetFields (result, newFields) tf)
      as [r1 nf1] eqn:Hstep.
    rewrite IH, !keys_of_kind_cons, (filter_cons included).
    unfold MergeStructs_source in Hstep.
    assert (included tf = negb (ShouldExclude tf)) as Hinc by done.
    rewrite !Hinc.
    change (if IsEmbedded tf then Type_ tf else Name tf)
      with (buildKey tf) in Hstep.
    rewrite Hmap in Hstep. unfold merge_kind.
    destruct (ShouldExclude tf); simpl.
    { by injection Hstep as <- <-. }
    destruct (lookup_last buildKey (buildKey tf) target) as [existing|];
      [destruct (fieldChanged existing tf)|];
      injection Hstep as <- <-; simpl;
      by rewrite <- ?app_assoc, ?app_nil_r.
Qed.

Lemma MergeStructs_target_fold (sourceFields : gmap string TransformedField)
    (opts : MergeOptions) (entries : list (string * ParsedField))
    (result : MergeResult) (newFields : list Field) :
  foldl (MergeStructs_target sourceFields opts) (result, newFields) entries
  = ({| MergeNewFields := MergeNewFields result;
        MergeRemovedFields :=
          MergeRemovedFields result
            ++ (if MarkDeprecated opts then []
                else (filter (fun e => sourceFields !! e.1 = None)
                        entries).*1);
        ModifiedFields := ModifiedFields result;
        UnchangedFields := UnchangedFields result;
        DeprecatedFields :=
          DeprecatedFields result
            ++ (if MarkDeprecated opts then
                  (filter (fun e => sourceFields !! e.1 = None) entries).*1
                else []) |},
     newFields
       ++ (if MarkDeprecated opts then
             (fun e : string * ParsedField =>
                createDeprecatedField e.2 (DeprecationMessage opts))
               <$> filter (fun e => sourceFields !! e.1 = None) entries
           else [])).
Proof.
  revert result newFields.
  induction entries as [|[key tf] entries IH]; intros result newFields.
  - destruct result. simpl. destruct (MarkDeprecated opts);
      by rewrite !app_nil_r.
  - cbn [foldl].
    destruct (MergeStructs_target sourceFields opts (result, newFields)
                (key, tf)) as [r1 nf1] eqn:Hstep.
    rewrite IH, filter_cons. unfold MergeStructs_target in Hstep.
    cbn [fst snd]. destruct (sourceFields !! key) as [sf|] eqn:Hsf.
    + rewrite decide_False by done. by injection Hstep as <- <-.
    + rewrite decide_True by done.
      destruct (MarkDeprecated opts); injection Hstep as <- <-; simpl;
        by rewrite <- ?app_assoc, ?app_nil_r.
Qed.

Lemma MergeStructs_fields_spec (targetStruct : ParsedStruct)
    (transformed : TransformResult) (opts : MergeOptions) :
  MergeStructs_fields targetStruct transformed opts
  = ({| MergeNewFields :=
          keys_of_kind KindNew (Fields targetStruct)
            (ResultFields transformed);
        MergeRemovedFields :=
          if MarkDeprecated opts then []
          else (filter (fun e => field_map (fun tf : TransformedField =>
                                              buildKey tf)
                                   (ResultFields transformed) !! e.1 = None)
                  (rangeFields (field_map buildKey (Fields targetStruct)))).*1;
        ModifiedFields :=
          keys_of_kind KindModified (Fields targetStruct)
            (ResultFields transformed);
        UnchangedFields :=
          keys_of_kind KindUnchanged (Fields targetStruct)
            (ResultFields transformed);
        DeprecatedFields :=
          if MarkDeprecated opts then
            (filter (fun e => field_map (fun tf : TransformedField =>
                                           buildKey tf)
                                (ResultFields transformed) !! e.1 = None)
               (rangeFields (field_map buildKey (Fields targetStruct)))).*1
          else [] |},
     (createField <$> filter included (ResultFields transformed))
       ++ (if MarkDeprecated opts then
             (fun e : string * ParsedField =>
                createDeprecatedField e.2 (DeprecationMessage opts))
               <$> filter (fun e => field_map (fun tf : TransformedField =>
                                                 buildKey tf)
                                      (ResultFields transformed) !! e.1
                                    = None)
                     (rangeFields (field_map buildKey (Fields targetStruct)))
           else [])).
Proof.
  unfold MergeStructs_fields.
  rewrite (MergeStructs_source_fold _ (Fields targetStruct))
    by (intros k; apply (build_map_lookup_empty buildKey)).
  by rewrite MergeStructs_target_fold.
Qed.

Lemma MergeStructs_specs_None (specs : list Spec) (name : string)
    (newFields : list Field) :
  MergeStructs_specs specs name newFields = None
  ↔ name ∉ FindAllStructs_specs [] specs.
Proof.
  induction specs as [|spec specs IH].
  - split; [intros _; apply not_elem_of_nil|done].
  - rewrite FindAllStructs_specs_cons, not_elem_of_app, <- IH.
    destruct spec as [n t | |]; simpl.
    + destruct t; simpl; rewrite ?fmap_None;
        try (split; [intros ?; split; [apply not_elem_of_nil|done]
                    |by intros [_ ?]]).
      destruct (String.eqb_spec n name) as [->|Hne]; simpl.
      * split; [done|]. intros [Hn _]. exfalso. apply Hn. by left.
      * rewrite fmap_None. split; [|by intros [_ ?]].
        intros ?. split; [|done]. by intros ->%list_elem_of_singleton.
    + rewrite fmap_None.
      split; [intros ?; split; [apply not_elem_of_nil|done]|by intros [_ ?]].
    + rewrite fmap_None.
      split; [intros ?; split; [apply not_elem_of_nil|done]|by intros [_ ?]].
Qed.

Lemma MergeStructs_decls_None (path : string) (decls : list Decl)
    (name : string) (newFields : list Field) :
  MergeStructs_decls decls name newFields = None
  ↔ name ∉ FindAllStructs {| Path := path; File := decls |}.
Proof.
  induction decls as [|decl decls IH].
  - split; [intros _; apply not_elem_of_nil|done].
  - rewrite FindAllStructs_cons, not_elem_of_app, <- IH.
    destruct decl as [tok start specs | |]; simpl.
    + destruct tok; simpl; rewrite ?fmap_None;
        try (split; [intros ?; split; [apply not_elem_of_nil|done]
                    |by intros [_ ?]]).
      rewrite <- (MergeStructs_specs_None specs name newFields).
      destruct (MergeStructs_specs specs name newFields); simpl.
      * split; [done|]. by intros [? _].
      * rewrite fmap_None. split; [done|]. by intros [_ ?].
    + rewrite fmap_None.
      split; [intros ?; split; [apply not_elem_of_nil|done]|by intros [_ ?]].
    + rewrite fmap_None.
      split; [intros ?; split; [apply not_elem_of_nil|done]|by intros [_ ?]].
Qed.

Lemma MergeStructs_specs_Update (start : list string) (specs : list Spec)
    (name : string) (newFields : list Field) (ps : ParsedStruct) :
  ExtractStruct_specs start specs name = Some (Ok ps) →
  ∃ specs',
    MergeStructs_specs specs name newFields = Some specs'
    ∧ UpdateStruct_specs specs name newFields = Some (Ok specs').
Proof.
  induction specs as [|spec specs IH]; [done|].
  destruct spec as [n t | |]; simpl.
  - destruct (String.eqb n name) eqn:Hn; simpl.
    + destruct t; try done. intros _. eexists. split; reflexivity.
    + intros (specs' & Hm & Hu)%IH. rewrite Hu. simpl.
      exists (TypeSpec n t :: specs'). split; [|done].
      destruct t; by rewrite ?Hn, Hm.
  - intros (specs' & -> & ->)%IH. by eexists.
  - intros (specs' & -> & ->)%IH. by eexists.
Qed.

Lemma MergeStructs_specs_Extract_None (start : list string)
    (specs : list Spec) (name : string) (newFields : list Field) :
  ExtractStruct_specs start specs name = None →
  MergeStructs_specs specs name newFields = None.
Proof.
  induction specs as [|spec specs IH]; [done|].
  destruct spec as [n t | |]; simpl.
  - destruct (String.eqb n name) eqn:Hn; simpl.
    + by destruct t.
    + intros ->%IH. destruct t; by rewrite ?Hn.
  - by intros ->%IH.
  - by intros ->%IH.
Qed.

Lemma MergeStructs_decls_Update (decls : list Decl) (name : string)
    (newFields : list Field) (ps : ParsedStruct) :
  ExtractStruct_decls decls name = Some (Ok ps) →
  ∃ decls',
    MergeStructs_decls decls name newFields = Some decls'
    ∧ UpdateStruct_decls decls name newFields = Some (Ok decls').
Proof.
  induction decls as [|decl decls IH]; [done|].
  destruct decl as [tok start specs | |]; simpl.
  - destruct tok; simpl;
      try (intros (decls' & -> & ->)%IH; by eexists).
    destruct (ExtractStruct_specs start specs name) as [[ps'|e]|] eqn:Hs.
    + intros _.
      destruct (MergeStructs_specs_Update _ _ _ newFields _ Hs)
        as (specs' & -> & ->).
      by eexists.
    + done.
    + intros (decls' & -> & ->)%IH.
      rewrite (MergeStructs_specs_Extract_None _ _ _ newFields Hs).
      pose proof (UpdateStruct_specs_extract start specs name newFields)
        as Hu.
      rewrite Hs in Hu. rewrite Hu. by eexists.
  - intros (decls' & -> & ->)%IH. by eexists.
  - intros (decls' & -> & ->)%IH. by eexists.
Qed.

Lemma createField_buildField (tf : TransformedField) :
  NewType tf = Type_ tf ∨ NewType tf = EmptyString →
  createField tf = buildField tf.
Proof.
  unfold createField, buildField. intros [->| ->].
  - by rewrite eqb_refl, andb_false_r.
  - done.
Qed.

Lemma keys_of_kind_partition (target : list ParsedField)
    (source : list TransformedField) :
  length (keys_of_kind KindNew target source)
  + length (keys_of_kind KindModified target source)
  + length (keys_of_kind KindUnchanged target source)
  = length (filter included source).
Proof.
  unfold keys_of_kind. rewrite !length_fmap.
  induction (filter included source) as [|tf l IH]; [done|].
  rewrite !filter_cons. simpl.
  destruct (merge_kind target tf);
    repeat (rewrite decide_True by done || rewrite decide_False by done);
    simpl; lia.
Qed.

(** X28.  [MergeStructs] without the declaration: when the file has no
    struct type of the name, the merge reports nothing and leaves the file
    as it is, and that without an error, where [UpdateStructInFile]
    fails. *)
Theorem merge_without_declaration (targetFile : ParsedFile)
    (targetStruct : ParsedStruct) (transformed : TransformResult)
    (opts : MergeOptions) (buildResult : BuildResult) :
  StructName targetStruct ∉ FindAllStructs targetFile →
  MergeStructs targetFile targetStruct transformed opts
  = (emptyMergeResult, targetFile)
  ∧ ∃ e, UpdateStructInFile targetFile (StructName targetStruct) buildResult
         = Err e.
Proof.
  destruct targetFile as [path decls]. intros Hnin. split.
  - unfold MergeStructs. simpl.
    destruct (MergeStructs_fields targetStruct transformed opts)
      as [result newFields].
    by rewrite (proj2 (MergeStructs_decls_None path decls _ newFields)).
  - unfold UpdateStructInFile. simpl.
    pose proof (UpdateStruct_decls_extract decls (StructName targetStruct)
                  (BuildFields buildResult)) as Hu.
    pose proof (ExtractStruct_decls_agree [StructName targetStruct] path
                  decls (StructName targetStruct)) as Hex.
    destruct (ExtractStruct_decls decls (StructName targetStruct))
      as [[ps|e]|].
    + destruct Hex as (_ & _ & Hin); [by left|done].
    + rewrite Hu. by eexists.
    + rewrite Hu. by eexists.
Qed.

(** X29.  What [MergeStructs] reports when the file has the declaration:
    the key of every transformed field that is not excluded is filed once,
    as new, modified or unchanged, in upstream order; and the keys of the
    target fields that no transformed field matches are filed as
    deprecated when fields are to be marked, and as removed when they are
    not, in the order in which the map is visited. *)
Theorem merge_classifies_fields (targetFile : ParsedFile)
    (targetStruct : ParsedStruct) (transformed : TransformResult)
    (opts : MergeOptions) :
  StructName targetStruct ∈ FindAllStructs targetFile →
  MergeNewFields (MergeStructs targetFile targetStruct transformed opts).1
  = keys_of_kind KindNew (Fields targetStruct) (ResultFields transformed)
  ∧ ModifiedFields (MergeStructs targetFile targetStruct transformed opts).1
    = keys_of_kind KindModified (Fields targetStruct)
        (ResultFields transformed)
  ∧ UnchangedFields (MergeStructs targetFile targetStruct transformed opts).1
    = keys_of_kind KindUnchanged (Fields targetStruct)
        (ResultFields transformed)
  ∧ length (MergeNewFields
              (MergeStructs targetFile targetStruct transformed opts).1)
    + length (ModifiedFields
                (MergeStructs targetFile targetStruct transformed opts).1)
    + length (UnchangedFields
                (MergeStructs targetFile targetStruct transformed opts).1)
    = length (filter included (ResultFields transformed))
  ∧ (if MarkDeprecated opts
     then MergeRemovedFields
     else DeprecatedFields)
      (MergeStructs targetFile targetStruct transformed opts).1 = []
  ∧ (if MarkDeprecated opts
     then DeprecatedFields
     else MergeRemovedFields)
      (MergeStructs targetFile targetStruct transformed opts).1
    = (filter (fun e => field_map (fun tf : TransformedField => buildKey tf)
                          (ResultFields transformed) !! e.1 = None)
         (rangeFields (field_map buildKey (Fields targetStruct)))).*1.
Proof.
  destruct targetFile as [path decls]. intros Hin.
  unfold MergeStructs. rewrite MergeStructs_fields_spec. simpl.
  destruct (MergeStructs_decls decls (StructName targetStruct) _)
    as [decls'|] eqn:Hd.
  2:{ by apply (MergeStructs_decls_None path) in Hd. }
  simpl. split; [done|]. split; [done|]. split; [done|].
  split; [apply keys_of_kind_partition|].
  by destruct (MarkDeprecated opts).
Qed.

(** X30.  The merge and the builder write the same declaration when no
    stub is to be made and no type is remapped: then the file that
    [MergeStructs] returns is the file that [UpdateStructInFile] returns
    for the field list of [BuildFieldsFromTransform]. *)
Theorem merge_agrees_with_build (targetFile : ParsedFile)
    (targetStruct found : ParsedStruct) (transformed : TransformResult)
    (opts : MergeOptions) :
  ExtractStruct targetFile (StructName targetStruct) = Ok found →
  MarkDeprecated opts = false →
  Forall (fun tf : TransformedField =>
            NewType tf = Type_ tf ∨ NewType tf = EmptyString)
         (ResultFields transformed) →
  UpdateStructInFile targetFile (StructName targetStruct)
    (BuildFieldsFromTransform transformed (Fields targetStruct) opts)
  = Ok (MergeStructs targetFile targetStruct transformed opts).2.
Proof.
  destruct targetFile as [path decls]. unfold ExtractStruct. simpl.
  intros Hex Hmark Hall.
  destruct (ExtractStruct_decls decls (StructName targetStruct))
    as [[ps|e]|] eqn:Hd; try done.
  unfold MergeStructs, UpdateStructInFile.
  rewrite MergeStructs_fields_spec, BuildFieldsFromTransform_closed_form.
  rewrite Hmark, !app_nil_r. simpl.
  assert (createField <$> filter included (ResultFields transformed)
          = buildField <$> filter included (ResultFields transformed)) as ->.
  { apply fmap_ext_elem. intros tf [_ Htf]%list_elem_of_filter.
    apply createField_buildField. rewrite Forall_forall in Hall.
    by apply Hall. }
  destruct (MergeStructs_decls_Update _ _
              (buildField <$> filter included (ResultFields transformed))
              _ Hd) as (decls' & -> & ->).
  done.
Qed.

End Structsync.

(** * The statements on sample declarations *)

(** The result of the transformer on the sample upstream declaration. *)
Definition sample_transformed : TransformResult :=
  Eval vm_compute in
    default emptyTransformResult
      (TransformStruct sample_Unquote sample_Quote
         (sample_struct sample_upstream_nodes) sample_opts).

Lemma sample_transformed_eq :
  TransformStruct sample_Unquote sample_Quote
    (sample_struct sample_upstream_nodes) sample_opts
  = Some sample_transformed.
Proof. by vm_compute. Qed.

Definition sample_merge (markDeprecated : bool) : MergeOptions :=
  {| MarkDeprecated := markDeprecated;
     DeprecationMessage := "removed from server";
     PruneDeprecated := false;
     MergeRemoveTags := RemoveTags sample_opts |}.

(** The transformed fields of the sample with their new tags. *)
Definition sample_State : TransformedField :=
  {| Parsed := named_field "State" PaymentState (tag_json "state") [];
     NewTags := tag_json "state"; NewType := "string";
     ShouldExclude := false |}.

(** A run over the sample files. *)
Definition sample_world : World :=
  {| files := {[ "upstream/object/adapter.go" := sample_file sample_upstream_nodes;
                 "sdk/adapter.go" := sample_file sample_target_nodes ]};
     readonly := ∅ |}.

Definition sample_syncer : Syncer :=
  {| Syncer_Config :=
       {| Target := "sdk";
          Structs := [ {| DefName := "Adapter"; DefSource := "casdoor";
                          DefFile := "adapter.go"; DefSourceFile := "";
                          IncludeTypes := [] |} ];
          Transform := sample_opts |};
     SourcePaths := {[ "casdoor" := "upstream/object" ]};
     DryRun := false; ShowDiff := false; StructFilter := "";
     Syncer_MarkDeprecated := true; Syncer_PruneDeprecated := false;
     NoColor := true; Verbose := false;
     stats := {| TotalStructs := 0; ChangedStructs := 0; NewFields := 0;
                 RemovedFields := 0; StatsModifiedTags := 0;
                 StatsExcludedFields := 0 |} |}.

Definition tab (s : string) : string := String "009" s.




Lemma malformed_tag_passes_through_witness :
  structtag.Parse sample_Unquote (Trim (Tags sample_malformed_field) "`")
    = structtag.ParseError
  ∧ TransformStruct sample_Unquote sample_Quote
      (sample_struct sample_upstream_nodes) sample_opts
    = Some sample_transformed
  ∧ ∃ tr,
      TransformStruct sample_Unquote sample_Quote
        {| StructName := "Adapter";
           Fields := extractFields (slice_two sample_upstream_nodes).1
                       ++ sample_malformed_field
                       :: extractFields (slice_two sample_upstream_nodes).2;
           StructComments := [] |} sample_opts = Some tr
      ∧ ModifiedTags tr = ModifiedTags sample_transformed
      ∧ (IsEmbedded sample_malformed_field
           && in_set (make_set (ExcludeEmbedded sample_opts))
                (Type_ sample_malformed_field) = true
         ∨ ∃ tf : TransformedField,
             tf ∈ ResultFields tr ∧ Parsed tf = sample_malformed_field
             ∧ NewTags tf = Tags sample_malformed_field).
Proof.
  assert (structtag.Parse sample_Unquote
            (Trim (Tags sample_malformed_field) "`") = structtag.ParseError)
    as H1 by (by vm_compute).
  assert (TransformStruct sample_Unquote sample_Quote
            {| StructName := "Adapter";
               Fields := extractFields (slice_two sample_upstream_nodes).1
                           ++ extractFields (slice_two sample_upstream_nodes).2;
               StructComments := [] |} sample_opts
          = Some sample_transformed) as H2 by (by vm_compute).
  exact (conj H1 (conj sample_transformed_eq
           (malformed_tag_passes_through sample_Unquote sample_Quote "Adapter"
              [] (extractFields (slice_two sample_upstream_nodes).1)
              (extractFields (slice_two sample_upstream_nodes).2)
              sample_malformed_field sample_opts sample_transformed H1 H2))).
Defined.

(** The claim's own instance of C5: under the mapping of [pp.PaymentState]
    to [string], the field of that type gets the new type [string] and the
    field of pointer type keeps its own. *)
Lemma type_mapping_exact_match_witness :
  TransformStruct sample_Unquote sample_Quote
    (sample_struct sample_upstream_nodes) sample_opts = Some sample_transformed
  ∧ sample_State ∈ ResultFields sample_transformed
  ∧ NewType sample_State
    = match TypeMappings sample_opts !! Type_ sample_State with
      | Some mappedType => mappedType
      | None => Type_ sample_State
      end
  ∧ (fun tf : TransformedField => (Type_ tf, NewType tf))
      <$> ResultFields sample_transformed
    = [ ("string", "string"); ("string", "string");
        ("pp.PaymentState", "string");
        ("*pp.PaymentState", "*pp.PaymentState") ].
Proof.
  assert (sample_State ∈ ResultFields sample_transformed) as H2
    by (apply list_elem_of_In; vm_compute; right; right; by left).
  exact (conj sample_transformed_eq (conj H2
           (conj (type_mapping_exact_match sample_Unquote sample_Quote
                    (sample_struct sample_upstream_nodes) sample_opts
                    sample_transformed sample_State sample_transformed_eq H2)
                 eq_refl))).
Defined.

(** The claim's own instance of C10: a comment that is a sentence with a
    full stop in it neutralises the field under it. *)
Lemma commented_field_leaves_no_trace_witness :
  (∀ sf : TransformedField,
     sf ∈ ResultFields sample_upstream_ABC →
     tfieldKey sf ≠ fieldKey sample_prose_field)
  ∧ "// Kept for old clients. Do not use" ∈ Comments sample_prose_field
  ∧ HasPrefix (TrimSpace "// Kept for old clients. Do not use") "//" = true
  ∧ Contains (TrimSpace (TrimPrefix
                (TrimSpace "// Kept for old clients. Do not use") "//")) "."
    = true
  ∧ ComputeDiff {| StructName := "T";
                   Fields := Fields sample_target_B ++ sample_prose_field :: [];
                   StructComments := [] |} sample_upstream_ABC
    = ComputeDiff {| StructName := "T"; Fields := Fields sample_target_B ++ [];
                     StructComments := [] |} sample_upstream_ABC.
Proof.
  assert (∀ sf : TransformedField,
            sf ∈ ResultFields sample_upstream_ABC →
            tfieldKey sf ≠ fieldKey sample_prose_field) as H1.
  { intros sf Hsf. apply list_elem_of_In in Hsf. simpl in Hsf.
    destruct Hsf as [<-|[<-|[<-|[]]]]; by vm_compute. }
  assert ("// Kept for old clients. Do not use" ∈ Comments sample_prose_field)
    as H2 by (by left).
  assert (HasPrefix (TrimSpace "// Kept for old clients. Do not use") "//"
          = true) as H3 by (by vm_compute).
  assert (Contains (TrimSpace (TrimPrefix
                      (TrimSpace "// Kept for old clients. Do not use") "//"))
                   "." = true) as H4 by (by vm_compute).
  exact (conj H1 (conj H2 (conj H3 (conj H4
           (commented_field_leaves_no_trace "T" [] (Fields sample_target_B) []
              sample_prose_field sample_upstream_ABC
              "// Kept for old clients. Do not use" H1 H2 H3
              (or_intror H4)))))).
Defined.

(** The claim C9 fails: arrays of different lengths have one text, and so
    have function types of different signatures, whose text is the name of
    a node type of the syntax tree library and no type of the language. *)
Lemma type_rendering_counterexample :
  exprToString (ArrayType (BasicLit "4") (Ident "byte")) = "[...]byte"
  ∧ exprToString (ArrayType (BasicLit "16") (Ident "byte")) = "[...]byte"
  ∧ exprToString (FuncType [] []) = "*dst.FuncType"
  ∧ exprToString
      (FuncType [mkField ["n"] (Ident "int") None SpaceNone []]
                [mkField [] (Ident "error") None SpaceNone []])
    = "*dst.FuncType"
  ∧ Type_ <$> extractField
                (named_node "Hook" (FuncType [] []) "" []) = ["*dst.FuncType"].
Proof. by vm_compute. Qed.

(** C2 on a failing input.  Upstream, [Secret] is excluded by its two skip
    directives and the embedded adapter by its type, and neither is among
    the transformed fields; the target holds a field of each key, and with
    [MarkDeprecated] set the build keeps both, as deprecated stubs. *)
Theorem excluded_field_kept_as_stub :
  TransformStruct sample_Unquote sample_Quote
    (sample_struct sample_upstream_nodes) sample_opts
  = Some sample_transformed
  ∧ ExcludedFields sample_transformed = ["Secret"; "*xormadapter.Adapter"]
  ∧ BuildFields
      (BuildFieldsFromTransform sample_rangeKeys sample_transformed
         (Fields (sample_struct sample_target_excluded_nodes))
         (sample_merge true))
    = [ mkField ["Owner"] (Ident "string") (Some (tag_json "owner")) SpaceNone [];
        mkField ["Name"] (Ident "string") (Some (tag_json "name")) SpaceNone [];
        mkField ["State"] (Ident "string") (Some (tag_json "state")) SpaceNone [];
        mkField ["Ref"] (StarExpr PaymentState) (Some (tag_json "ref"))
          SpaceNone [];
        mkField ["Secret"] (Ident "string") (Some (tag_json "secret")) NewLine
          ["// Deprecated: removed from server"];
        mkField [] xormAdapter None NewLine
          ["// Deprecated: removed from server"] ].
Proof. by vm_compute. Qed.

(** C3 on a failing input.  The stub of a target-only field has the
    deprecation line as its only comment line, whatever the comment lines
    of the field were: the comment of [Table] is gone from the built field,
    which keeps the name and the type, on a line of its own, with the
    [xorm] pair cut out of its tag; without [MarkDeprecated] the field is
    left out. *)
Theorem deprecated_stub_drops_comments :
  (∀ (rangeKeys : gmap string bool → list string) (pf : ParsedField)
     (message : string) (removeTagKeys : list string),
     Field_Start (buildDeprecatedField rangeKeys pf message removeTagKeys)
     = [ "// Deprecated: "
           +:+ (if String.eqb message EmptyString then "removed from server"
                else message) ])
  ∧ Comments <$> filter (fun f => Name f = "Table")
                   (Fields (sample_struct sample_target_nodes))
    = [ ["// Table is the name of the table"] ]
  ∧ BuildFields
      (BuildFieldsFromTransform sample_rangeKeys sample_transformed
         (Fields (sample_struct sample_target_nodes)) (sample_merge true))
    = [ mkField ["Owner"] (Ident "string") (Some (tag_json "owner")) SpaceNone [];
        mkField ["Name"] (Ident "string") (Some (tag_json "name")) SpaceNone [];
        mkField ["State"] (Ident "string") (Some (tag_json "state")) SpaceNone [];
        mkField ["Ref"] (StarExpr PaymentState) (Some (tag_json "ref"))
          SpaceNone [];
        mkField ["Table"] (Ident "string") (Some (tag_json "table")) NewLine
          ["// Deprecated: removed from server"] ]
  ∧ BuildFields
      (BuildFieldsFromTransform sample_rangeKeys sample_transformed
         (Fields (sample_struct sample_target_nodes)) (sample_merge false))
    = [ mkField ["Owner"] (Ident "string") (Some (tag_json "owner")) SpaceNone [];
        mkField ["Name"] (Ident "string") (Some (tag_json "name")) SpaceNone [];
        mkField ["State"] (Ident "string") (Some (tag_json "state")) SpaceNone [];
        mkField ["Ref"] (StarExpr PaymentState) (Some (tag_json "ref"))
          SpaceNone [] ].
Proof.
  split; [|by vm_compute].
  intros rangeKeys pf message removeTagKeys.
  apply buildDeprecatedField_shape.
Qed.

(** C8 on a failing input.  The run over the sample files finds two new
    fields, one removed field and two excluded fields, and its summary
    counts none of them: only the structs and the modified tags are
    counted. *)
Theorem summary_counts_no_fields :
  (fun r : Syncer * World => stats r.1)
    <$> Run sample_Unquote sample_Quote sample_rangeKeys sample_Join
          sample_syncer sample_world
  = Some {| TotalStructs := 1; ChangedStructs := 1; NewFields := 0;
            RemovedFields := 0; StatsModifiedTags := 2;
            StatsExcludedFields := 0 |}
  ∧ ExcludedFields sample_transformed = ["Secret"; "*xormadapter.Adapter"]
  ∧ (fun l => (LineType l, Content l))
      <$> Lines (ComputeDiff (sample_struct sample_target_nodes)
                   sample_transformed)
    = [ (DiffUnchanged, "type Adapter struct {");
        (DiffUnchanged, tab ("Owner string " +:+ tag_json "owner"));
        (DiffAdded, tab ("Name string " +:+ tag_json "name"));
        (DiffRemoved, tab ("State pp.PaymentState " +:+ tag_json "state"));
        (DiffAdded, tab ("State string " +:+ tag_json "state"));
        (DiffAdded, tab ("Ref *pp.PaymentState " +:+ tag_json "ref"));
        (DiffRemoved,
         tab ("Table string "
                +:+ raw ("xorm:" +:+ quoted "varchar(100)" +:+ " json:"
                           +:+ quoted "table")));
        (DiffUnchanged, "}") ].
Proof. by vm_compute. Qed.

(** * Instances of the further properties *)

Definition sample_target_file : ParsedFile :=
  {| Path := "sdk/adapter.go"; File := sample_file sample_target_nodes |}.

(** The syncer above with the given dry run flag and filter. *)
Definition sample_syncer_with (dryRun : bool) (structFilter : string)
  : Syncer :=
  {| Syncer_Config := Syncer_Config sample_syncer;
     SourcePaths := SourcePaths sample_syncer;
     DryRun := dryRun; ShowDiff := false; StructFilter := structFilter;
     Syncer_MarkDeprecated := true; Syncer_PruneDeprecated := false;
     NoColor := true; Verbose := false; stats := stats sample_syncer |}.

(** Two sources, of which the first is overridden by a local path. *)
Definition sample_sources : gmap string SourceDef :=
  {[ "casdoor" := {| Repo := "https://github.com/casdoor/casdoor";
                     SourceDef_Path := "object"; Ref := EmptyString |};
     "casvisor" := {| Repo := "https://github.com/casvisor/casvisor-go-sdk";
                      SourceDef_Path := "casvisorsdk"; Ref := "main" |} ]}.

Definition sample_overrides : gmap string string :=
  {[ "casdoor" := "../../casdoor/object" ]}.

(** The paths of the two sources with this override. *)
Definition sample_paths : gmap string string :=
  {[ "casdoor" := "../../casdoor/object";
     "casvisor" := "/tmp/structsync-1/casvisor/casvisorsdk" ]}.

Definition sample_config : LoadedConfig :=
  {| Sources := sample_sources; Loaded := Syncer_Config sample_syncer |}.

(** One order in which each of the maps can be visited. *)
Definition sample_rangeOverrides (m : gmap string string)
  : list (string * string) := map_to_list m.
Definition sample_rangeSources (m : gmap string SourceDef) : list string :=
  (map_to_list m).*1.
Definition sample_rangeFields (m : gmap string ParsedField)
  : list (string * ParsedField) := map_to_list m.

Lemma ExtractStruct_agrees_with_ExtractStructs_witness :
  ExtractStruct sample_target_file "Adapter"
  = Ok (sample_struct sample_target_nodes)
  ∧ StructName (sample_struct sample_target_nodes) = "Adapter"
  ∧ "Adapter" ∈ FindAllStructs sample_target_file
  ∧ ∀ names, "Adapter" ∈ names →
      head (filter (fun q => StructName q = "Adapter")
              (ExtractStructs sample_target_file names))
      = Some (sample_struct sample_target_nodes).
Proof.
  split; [reflexivity|].
  apply (ExtractStruct_agrees_with_ExtractStructs sample_target_file).
  reflexivity.
Defined.

Lemma update_leaves_other_structs_witness :
  UpdateStructInFile sample_target_file "Adapter" {| BuildFields := [] |}
  = Ok {| Path := "sdk/adapter.go"; File := sample_file [] |}
  ∧ FindAllStructs {| Path := "sdk/adapter.go"; File := sample_file [] |}
    = FindAllStructs sample_target_file
  ∧ ∀ name', name' ≠ "Adapter" →
      ExtractStruct {| Path := "sdk/adapter.go"; File := sample_file [] |}
        name'
      = ExtractStruct sample_target_file name'.
Proof.
  split; [reflexivity|].
  apply (update_leaves_other_structs sample_target_file _ "Adapter"
           {| BuildFields := [] |}).
  reflexivity.
Defined.

Lemma tags_modified_iff_key_present_witness :
  transformTags sample_Unquote sample_Quote (tag_pk "owner")
    (make_set ["xorm"]) = Some (tag_json "owner", true)
  ∧ (true = true
     ↔ ∃ key, key ∈ ["xorm"]
              ∧ HasTag sample_Unquote (tag_pk "owner") key = Some true).
Proof.
  split; [by vm_compute|].
  apply (tags_modified_iff_key_present sample_Unquote sample_Quote
           (tag_pk "owner") ["xorm"] (tag_json "owner") true).
  by vm_compute.
Defined.

Lemma transform_partitions_fields_witness :
  TransformStruct sample_Unquote sample_Quote
    (sample_struct sample_upstream_nodes) sample_opts = Some sample_transformed
  ∧ Parsed <$> ResultFields sample_transformed
    = filter (fun f => excluded_field sample_Unquote sample_opts f = false)
        (Fields (sample_struct sample_upstream_nodes))
  ∧ ExcludedFields sample_transformed
    = excluded_entry sample_opts
        <$> filter (fun f => excluded_field sample_Unquote sample_opts f
                             = true)
              (Fields (sample_struct sample_upstream_nodes))
  ∧ length (ResultFields sample_transformed)
    + length (ExcludedFields sample_transformed)
    = length (Fields (sample_struct sample_upstream_nodes))
  ∧ ModifiedTags sample_transformed
    ≤ length (ResultFields sample_transformed).
Proof.
  split; [exact sample_transformed_eq|].
  apply (transform_partitions_fields sample_Unquote sample_Quote).
  exact sample_transformed_eq.
Defined.

Lemma modified_tags_counts_removed_keys_witness :
  TransformStruct sample_Unquote sample_Quote
    (sample_struct sample_upstream_nodes) sample_opts = Some sample_transformed
  ∧ ModifiedTags sample_transformed = 2
  ∧ ModifiedTags sample_transformed
    = length (filter (fun tf : TransformedField =>
                        has_removed_key sample_Unquote sample_opts (Tags tf)
                        = true)
                     (ResultFields sample_transformed)).
Proof.
  split; [exact sample_transformed_eq|]. split; [reflexivity|].
  apply (modified_tags_counts_removed_keys sample_Unquote sample_Quote
           (sample_struct sample_upstream_nodes)).
  exact sample_transformed_eq.
Defined.

Lemma colour_diff_strips_to_plain_diff_witness :
  no_escape "sdk/t.go" = true
  ∧ no_escape (DiffStructName (ComputeDiff sample_target_B sample_upstream_ABC))
    = true
  ∧ Forall (fun l => no_escape (Content l) = true)
           (Lines (ComputeDiff sample_target_B sample_upstream_ABC))
  ∧ strip_colors false
      (FormatColorDiff (ComputeDiff sample_target_B sample_upstream_ABC)
         "sdk/t.go")
    = FormatDiff (ComputeDiff sample_target_B sample_upstream_ABC) "sdk/t.go".
Proof.
  assert (Forall (fun l => no_escape (Content l) = true)
                 (Lines (ComputeDiff sample_target_B sample_upstream_ABC)))
    as Hlines.
  { apply (bool_decide_unpack _). by vm_compute. }
  split; [reflexivity|]. split; [reflexivity|]. split; [exact Hlines|].
  apply colour_diff_strips_to_plain_diff;
    [reflexivity|reflexivity|exact Hlines].
Defined.

Lemma diff_of_unchanged_fields_witness :
  NoDup (fieldKey <$> Fields (sample_struct sample_target_nodes))
  ∧ HasChanges
      (ComputeDiff (sample_struct sample_target_nodes)
         {| ResultFields :=
              unchanged_field <$> Fields (sample_struct sample_target_nodes);
            ExcludedFields := []; ModifiedTags := 0 |}) = false.
Proof.
  assert (NoDup (fieldKey <$> Fields (sample_struct sample_target_nodes)))
    as Hnodup.
  { apply (bool_decide_unpack _). by vm_compute. }
  split; [exact Hnodup|].
  by rewrite (diff_of_unchanged_fields (sample_struct sample_target_nodes) []
                0 Hnodup).
Defined.

Lemma IsCommentedField_implies_isFieldCommented_witness :
  IsCommentedField "// *xormadapter.Adapter" = Some "*xormadapter.Adapter"
  ∧ "*xormadapter.Adapter"
    = TrimSpace (TrimPrefix (TrimSpace "// *xormadapter.Adapter") "//")
  ∧ ("// *xormadapter.Adapter"
       ∈ Comments (named_field "Legacy" (Ident "int") ""
                     ["// *xormadapter.Adapter"])
     → isFieldCommented (named_field "Legacy" (Ident "int") ""
                           ["// *xormadapter.Adapter"]) = true).
Proof.
  split; [by vm_compute|].
  apply IsCommentedField_implies_isFieldCommented. by vm_compute.
Defined.

Lemma built_field_reads_back_as_shown_witness :
  Type_ sample_State = exprToString (TypeExpr sample_State)
  ∧ ∃ pf,
      extractField (buildField sample_State) = [pf]
      ∧ formatField pf = formatTransformedField sample_State
      ∧ Tags pf = NewTags sample_State
      ∧ Comments pf = Comments sample_State
      ∧ IsEmbedded pf = IsEmbedded sample_State.
Proof.
  split; [reflexivity|].
  apply built_field_reads_back_as_shown. reflexivity.
Defined.

Lemma preserved_field_reads_back_witness :
  extractField
    (preserveCommentedField
       (named_field "Owner" (Ident "string") (tag_json "owner")
          ["// Owner is the owner"]))
  = [ named_field "Owner" (Ident "string") (tag_json "owner")
        ["// Owner is the owner"] ].
Proof.
  apply (preserved_field_reads_back
           (named_field "Owner" (Ident "string") (tag_json "owner")
              ["// Owner is the owner"])).
  - by right.
  - done.
Defined.

Lemma tag_helper_keeps_tag_without_keys_witness :
  (∀ key, key ∈ sample_rangeKeys (make_set ["xorm"]) →
          Index (Trim (tag_json "owner") "`") (key_pattern key) = None)
  ∧ transformTagsHelper sample_rangeKeys (tag_json "owner") (make_set ["xorm"])
    = (tag_json "owner", true).
Proof.
  assert (∀ key, key ∈ sample_rangeKeys (make_set ["xorm"]) →
            Index (Trim (tag_json "owner") "`") (key_pattern key) = None)
    as Hkeys.
  { assert (sample_rangeKeys (make_set ["xorm"]) = ["xorm"]) as ->
      by by vm_compute.
    intros key ->%list_elem_of_singleton. by vm_compute. }
  split; [exact Hkeys|].
  by rewrite (tag_helper_keeps_tag_without_keys sample_rangeKeys
                (tag_json "owner") (make_set ["xorm"]) Hkeys).
Defined.

Lemma dry_run_writes_nothing_witness :
  DryRun (sample_syncer_with true EmptyString) = true
  ∧ ∃ s',
      Run sample_Unquote sample_Quote sample_rangeKeys sample_Join
        (sample_syncer_with true EmptyString) sample_world
      = Some (s', sample_world)
      ∧ ChangedStructs (stats s') = 1 ∧ TotalStructs (stats s') = 1.
Proof.
  split; [reflexivity|].
  destruct (Run sample_Unquote sample_Quote sample_rangeKeys sample_Join
              (sample_syncer_with true EmptyString) sample_world)
    as [[s' w']|] eqn:Hrun; [|by vm_compute in Hrun].
  destruct (dry_run_writes_nothing sample_Unquote sample_Quote
              sample_rangeKeys sample_Join
              (sample_syncer_with true EmptyString) s' sample_world w'
              eq_refl Hrun) as [-> _].
  exists s'. split; [reflexivity|].
  vm_compute in Hrun. by injection Hrun as <-.
Defined.

Lemma run_changes_statistics_only_witness :
  ∃ s' w',
    Run sample_Unquote sample_Quote sample_rangeKeys sample_Join
      sample_syncer sample_world = Some (s', w')
    ∧ s' = set_stats sample_syncer (stats s')
    ∧ TotalStructs (stats s') ≤ 1 ∧ ChangedStructs (stats s') ≤ 1.
Proof.
  destruct (Run sample_Unquote sample_Quote sample_rangeKeys sample_Join
              sample_syncer sample_world)
    as [[s' w']|] eqn:Hrun; [|by vm_compute in Hrun].
  destruct (run_changes_statistics_only _ _ _ _ _ _ _ _ Hrun)
    as (Hs & _ & Ht & _ & Hc & _).
  exists s', w'. by repeat split.
Defined.

Lemma run_writes_target_files_only_witness :
  ∃ s' w',
    Run sample_Unquote sample_Quote sample_rangeKeys sample_Join
      sample_syncer sample_world = Some (s', w')
    ∧ readonly w' = readonly sample_world
    ∧ files w' !! "upstream/object/adapter.go"
      = files sample_world !! "upstream/object/adapter.go"
    ∧ (files w' !! "sdk/adapter.go" ≠ files sample_world !! "sdk/adapter.go"
       → DryRun sample_syncer = false
         ∧ ∃ def, def ∈ Structs (Syncer_Config sample_syncer)
                  ∧ selected sample_syncer def = true
                  ∧ "sdk/adapter.go"
                    = targetFile_of sample_Join sample_syncer def).
Proof.
  destruct (Run sample_Unquote sample_Quote sample_rangeKeys sample_Join
              sample_syncer sample_world)
    as [[s' w']|] eqn:Hrun; [|by vm_compute in Hrun].
  exists s', w'. split; [reflexivity|].
  destruct (run_writes_target_files_only _ _ _ _ _ _ _ _ "sdk/adapter.go"
              Hrun) as [Hro Hfiles].
  split; [exact Hro|]. split; [|exact Hfiles].
  vm_compute in Hrun. by injection Hrun as <- <-.
Defined.

Lemma run_with_filter_witness :
  StructFilter (sample_syncer_with false "Record") ≠ EmptyString
  ∧ Forall (fun def => DefName def
                       ≠ StructFilter (sample_syncer_with false "Record"))
           (Structs (Syncer_Config (sample_syncer_with false "Record")))
  ∧ Run sample_Unquote sample_Quote sample_rangeKeys sample_Join
      (sample_syncer_with false "Record") sample_world
    = Some (sample_syncer_with false "Record", sample_world).
Proof.
  assert (StructFilter (sample_syncer_with false "Record") ≠ EmptyString)
    as Hne by done.
  assert (Forall (fun def => DefName def
                             ≠ StructFilter (sample_syncer_with false "Record"))
                 (Structs (Syncer_Config (sample_syncer_with false "Record"))))
    as Hall by (by repeat constructor).
  split; [exact Hne|]. split; [exact Hall|].
  by apply (run_with_filter sample_Unquote sample_Quote sample_rangeKeys
              sample_Join (sample_syncer_with false "Record") sample_world
              Hne).
Defined.

Lemma clone_sources_paths_witness :
  sample_rangeOverrides sample_overrides ≡ₚ map_to_list sample_overrides
  ∧ sample_rangeSources sample_sources ≡ₚ (map_to_list sample_sources).*1
  ∧ CloneSources sample_Quote sample_Join sample_rangeOverrides
      sample_rangeSources (Some "/tmp/structsync-1") (fun _ => true)
      sample_sources sample_overrides
    = Ok (sample_paths, Some "/tmp/structsync-1")
  ∧ dom sample_paths = dom sample_sources
  ∧ (Some "/tmp/structsync-1" = None
     ↔ dom sample_sources ⊆ dom sample_overrides).
Proof.
  assert (CloneSources sample_Quote sample_Join sample_rangeOverrides
            sample_rangeSources (Some "/tmp/structsync-1") (fun _ => true)
            sample_sources sample_overrides
          = Ok (sample_paths, Some "/tmp/structsync-1")) as Hcl.
  { reflexivity. }
  split; [reflexivity|]. split; [reflexivity|]. split; [exact Hcl|].
  destruct (clone_sources_paths sample_Quote sample_Join
              sample_rangeOverrides sample_rangeSources
              (Some "/tmp/structsync-1") (fun _ => true) sample_sources
              sample_overrides sample_paths (Some "/tmp/structsync-1")
              (reflexivity _) (reflexivity _) Hcl)
    as (Hdom & _ & Hclean & _).
  by split.
Defined.

Lemma validated_sources_resolve_witness :
  Validate sample_Quote (fun _ => false) sample_config = None
  ∧ Forall (fun def => DefSource def ≠ EmptyString
                       ∧ is_Some (Sources sample_config !! DefSource def))
           (Structs sample_config).
Proof.
  split; [reflexivity|].
  apply (validated_sources_resolve sample_Quote sample_Join (fun _ => false)
           sample_rangeOverrides sample_rangeSources None (fun _ => true)
           sample_config ∅ ∅ None).
  reflexivity.
Defined.

Lemma merge_without_declaration_witness :
  ("Record" ∉ FindAllStructs sample_target_file)
  ∧ MergeStructs sample_rangeFields sample_target_file
      {| StructName := "Record"; Fields := []; StructComments := [] |}
      sample_upstream_ABC (sample_merge true)
    = (emptyMergeResult, sample_target_file).
Proof.
  assert ("Record" ∉ FindAllStructs sample_target_file) as Hnin.
  { assert (FindAllStructs sample_target_file = ["Adapter"]) as ->
      by reflexivity.
    by intros ?%list_elem_of_singleton. }
  split; [exact Hnin|].
  apply (merge_without_declaration sample_rangeFields sample_target_file
           {| StructName := "Record"; Fields := []; StructComments := [] |}
           sample_upstream_ABC (sample_merge true) {| BuildFields := [] |}
           Hnin).
Defined.

Lemma merge_classifies_fields_witness :
  StructName (sample_struct sample_target_nodes)
    ∈ FindAllStructs sample_target_file
  ∧ MergeNewFields
      (MergeStructs sample_rangeFields sample_target_file
         (sample_struct sample_target_nodes) sample_transformed
         (sample_merge true)).1 = ["Name"; "Ref"]
  ∧ ModifiedFields
      (MergeStructs sample_rangeFields sample_target_file
         (sample_struct sample_target_nodes) sample_transformed
         (sample_merge true)).1 = []
  ∧ UnchangedFields
      (MergeStructs sample_rangeFields sample_target_file
         (sample_struct sample_target_nodes) sample_transformed
         (sample_merge true)).1 = ["Owner"; "State"]
  ∧ DeprecatedFields
      (MergeStructs sample_rangeFields sample_target_file
         (sample_struct sample_target_nodes) sample_transformed
         (sample_merge true)).1 = ["Table"].
Proof.
  assert (StructName (sample_struct sample_target_nodes)
            ∈ FindAllStructs sample_target_file) as Hin by by left.
  split; [exact Hin|].
  destruct (merge_classifies_fields sample_rangeFields sample_target_file
              (sample_struct sample_target_nodes) sample_transformed
              (sample_merge true) Hin)
    as (Hnew & Hmod & Hunch & _ & _ & Hdep).
  split; [|split; [|split]].
  - etrans; [exact Hnew|reflexivity].
  - etrans; [exact Hmod|reflexivity].
  - etrans; [exact Hunch|reflexivity].
  - etrans; [exact Hdep|reflexivity].
Defined.

Lemma merge_agrees_with_build_witness :
  ExtractStruct sample_target_file
    (StructName (sample_struct sample_target_nodes))
  = Ok (sample_struct sample_target_nodes)
  ∧ MarkDeprecated (sample_merge false) = false
  ∧ Forall (fun tf : TransformedField =>
              NewType tf = Type_ tf ∨ NewType tf = EmptyString)
           (ResultFields sample_upstream_ABC)
  ∧ UpdateStructInFile sample_target_file
      (StructName (sample_struct sample_target_nodes))
      (BuildFieldsFromTransform sample_rangeKeys sample_upstream_ABC
         (Fields (sample_struct sample_target_nodes)) (sample_merge false))
    = Ok (MergeStructs sample_rangeFields sample_target_file
            (sample_struct sample_target_nodes) sample_upstream_ABC
            (sample_merge false)).2.
Proof.
  assert (Forall (fun tf : TransformedField =>
                    NewType tf = Type_ tf ∨ NewType tf = EmptyString)
                 (ResultFields sample_upstream_ABC)) as Hall.
  { repeat constructor; by left. }
  split; [reflexivity|]. split; [reflexivity|]. split; [exact Hall|].
  apply (merge_agrees_with_build sample_rangeKeys sample_rangeFields
           sample_target_file (sample_struct sample_target_nodes)
           (sample_struct sample_target_nodes) sample_upstream_ABC
           (sample_merge false) eq_refl eq_refl Hall).
Defined.
